(** * autobisect: the regression-bisection engine of [core/bisect.py]

    A shallow embedding of [src/core/bisect.py] and of the helpers of
    [src/util/hgCmds.py] it calls, with the properties its specification
    states about them.

    Python values are modelled as the code uses them: [str] as [string]
    (Python 2 byte strings), the [labels] dictionary as a [gmap], label
    tuples as pairs of strings, a value that is a [str] or [None] as an
    [option string].
    Subprocesses, the evaluator and printing are effects: they run in a
    state-and-exception monad over the history of events, and the
    environment answers each call as a function of that history. *)

From Stdlib Require Import ZArith Ascii String List Bool Lia.
From stdpp Require Import base option gmap strings list.

Local Open Scope Z_scope.
Local Open Scope string_scope.

#[local] Arguments String.append !_ _ / : simpl nomatch.

(** ** Python string primitives *)

Module Py.

(** ['\n'] *)
Definition nl : ascii := "010"%char.

(** [s.find(sub)]: the lowest index of [sub] in [s], or [-1]. *)
Definition find (sub s : string) : Z :=
  match String.index 0 sub s with
  | Some i => Z.of_nat i
  | None => -1
  end.

(** [sub in s] *)
Definition contains (sub s : string) : bool :=
  match String.index 0 sub s with
  | Some _ => true
  | None => false
  end.

(** [s.startswith(p)] *)
Definition startswith (p s : string) : bool := String.prefix p s.

(** [s.split(sep)] for a one-character separator: never empty. *)
Fixpoint split (sep : ascii) (s : string) : list string :=
  match s with
  | EmptyString => [EmptyString]
  | String c s' =>
      if Ascii.eqb c sep then EmptyString :: split sep s'
      else match split sep s' with
           | x :: xs => String c x :: xs
           | [] => [String c EmptyString]
           end
  end.

(** [sep.join(l)] *)
Definition join (sep : string) (l : list string) : string := String.concat sep l.

(** [l[:-1]] *)
Definition but_last {A} (l : list A) : list A := removelast l.

(** [l[-1]] on the result of a [split], which is never empty. *)
Definition last_of (l : list string) : string := List.last l EmptyString.

(** [s.endswith(suffix)] *)
Definition endswith (suffix s : string) : bool :=
  (String.length suffix <=? String.length s)%nat
  && String.eqb (substring (String.length s - String.length suffix)
                   (String.length suffix) s) suffix.

End Py.

(** ** The message sanitizer: [sanitizeCsetMsg] (bisect.py, 191-201) *)

(** The condition of the [if]: the line has a ['<'], a ['@'] and a ['>']. *)
Definition email_shaped (line : string) : bool :=
  negb (Z.eqb (Py.find "<" line) (-1))
  && negb (Z.eqb (Py.find "@" line) (-1))
  && negb (Z.eqb (Py.find ">" line) (-1)).

(** The condition of the [elif]. *)
Definition changeset_line (repo line : string) : bool :=
  Py.startswith "changeset:" line && Py.contains "mozilla-central" repo.

(** [' '.join(line.split(' ')[:-1])] *)
Definition strip_last_token (line : string) : string :=
  Py.join " " (Py.but_last (Py.split " " line)).

(** ['changeset:   https://hg.mozilla.org/mozilla-central/rev/' + line.split(':')[-1]] *)
Definition changeset_url (line : string) : string :=
  "changeset:   https://hg.mozilla.org/mozilla-central/rev/"
  +:+ Py.last_of (Py.split ":" line).

(** The body of the [for] loop: the new value of [line]. *)
Definition sanitize_line (repo line : string) : string :=
  if email_shaped line then strip_last_token line
  else if changeset_line repo line then changeset_url line
  else line.

(** The [for] loop, appending to [sanitizedMsgList]. *)
Fixpoint sanitize_loop (repo : string) (msgList sanitizedMsgList : list string)
  : list string :=
  match msgList with
  | [] => sanitizedMsgList
  | line :: rest =>
      sanitize_loop repo rest (sanitizedMsgList ++ [sanitize_line repo line])
  end.

Definition sanitizeCsetMsg (msg repo : string) : string :=
  let msgList := Py.split Py.nl msg in
  Py.join (String Py.nl "") (sanitize_loop repo msgList []).

(** A rule of the sanitizer still applies to the line. *)
Definition triggers (repo line : string) : bool :=
  email_shaped line || changeset_line repo line.

(** ** Regular expressions: the fragment of [re] the code uses

    A backtracking matcher with Python's priorities: alternatives are
    tried left to right, [*] is greedy, and [re.match] anchors the
    pattern at the start of the string without requiring it to reach
    the end.  Repetition is over one-character classes, which is all
    the patterns of the repository need. *)

Module Re.

Inductive regex : Type :=
| Eps
| Chr (p : ascii → bool)      (* one character of a class *)
| Bol                         (* [^] *)
| Seq (r1 r2 : regex)
| Alt (r1 r2 : regex)         (* [r1|r2] *)
| Star (p : ascii → bool)     (* [c*], greedy *)
| Group (n : nat) (r : regex).

(** The matcher's state: the offset reached, the text that is left and
    the groups captured so far. *)
Record mstate : Type := MState {
  pos : nat;
  rest : string;
  groups : gmap nat string
}.

Definition digit (c : ascii) : bool :=
  let n := nat_of_ascii c in (48 <=? n)%nat && (n <=? 57)%nat.

Definition word (c : ascii) : bool :=
  let n := nat_of_ascii c in
  digit c
  || ((97 <=? n)%nat && (n <=? 122)%nat)
  || ((65 <=? n)%nat && (n <=? 90)%nat)
  || (n =? 95)%nat.

(** [.] matches everything but a newline. *)
Definition dot (c : ascii) : bool := negb (Ascii.eqb c Py.nl).

Fixpoint lit (s : string) : regex :=
  match s with
  | EmptyString => Eps
  | String c s' => Seq (Chr (Ascii.eqb c)) (lit s')
  end.

(** [r{n}] *)
Fixpoint times (n : nat) (r : regex) : regex :=
  match n with
  | O => Eps
  | S n' => Seq r (times n' r)
  end.

(** [r+] for a character class. *)
Definition plus (p : ascii → bool) : regex := Seq (Chr p) (Star p).

Section Matcher.
Context {R : Type}.

(** Greedy [c*]: take a character while the class allows, and give one
    back each time the continuation fails. *)
Fixpoint star (p : ascii → bool) (s : string) (n : nat)
    (k : nat → string → option R) : option R :=
  match s with
  | String c s' =>
      if p c then
        match star p s' (S n) k with
        | Some r => Some r
        | None => k n s
        end
      else k n s
  | EmptyString => k n s
  end.

Fixpoint run (r : regex) (st : mstate) (k : mstate → option R) : option R :=
  match r with
  | Eps => k st
  | Chr p =>
      match rest st with
      | String c s' =>
          if p c then k (MState (S (pos st)) s' (groups st)) else None
      | EmptyString => None
      end
  | Bol => if (pos st =? 0)%nat then k st else None
  | Seq r1 r2 => run r1 st (λ st1, run r2 st1 k)
  | Alt r1 r2 =>
      match run r1 st k with
      | Some x => Some x
      | None => run r2 st k
      end
  | Star p =>
      star p (rest st) (pos st) (λ n s, k (MState n s (groups st)))
  | Group n r =>
      run r st (λ st1,
        k (MState (pos st1) (rest st1)
             (<[n := substring 0 (pos st1 - pos st) (rest st)]> (groups st1))))
  end.
End Matcher.

(** [re.compile(r).match(s)]: the groups of the match, if there is one. *)
Definition re_match (r : regex) (s : string) : option (gmap nat string) :=
  run r (MState 0 s ∅) (λ st, Some (groups st)).

(** [m.group(n)] *)
Definition group (m : gmap nat string) (n : nat) : option string := m !! n.

End Re.

(** ** Values, exceptions and the effect monad *)

(** A Python value that is a [str] or [None]. *)
Abbreviation PyVal := (option string) (only parsing).

(** [str(v)] *)
Definition py_str (v : PyVal) : string :=
  match v with
  | Some s => s
  | None => "None"
  end.

(** A label: the pair [(label[0], label[1])] of a classification and its
    reason. *)
Abbreviation Label := (string * string)%type (only parsing).

Inductive Exn : Type :=
| CalledProcessError (cmd : list string)
| NameError (name : string)
| AssertionError
| KeyError (key : string)
| IndexError
| ValueError
| SystemExit
| KeyboardInterrupt
| Exception (msg : string).

Inductive Result (A : Type) : Type :=
| Ok (a : A)
| Raised (e : Exn).
Arguments Ok {A} a.
Arguments Raised {A} e.

(** What the program does to the outside, with the outside's answer. *)
Inductive Event : Type :=
| EvHg (args : list string) (out : Result string)
| EvTestcase (rev : string) (out : Result PyVal)
| EvEvaluator (rev : PyVal) (out : Result Label)
| EvRawInput (prompt : string) (answer : string)
| EvDestroyPyc (repoDir : string)
| EvLog (level msg : string)
| EvPrint (text : string).

(** The events so far, the latest first. *)
Abbreviation History := (list Event) (only parsing).

(** The collaborators: every answer may depend on all that happened
    before.  [hg] is a subprocess running Mercurial ([check_call] or
    [captureStdout(...)[0]]): its standard output, or the error of a
    non-zero exit.  [evaluate_testcase] and [evaluator] are the
    attributes of [Bisector] of these names, which the repository sets
    from outside [bisect.py]. *)
Record Env : Type := {
  hg : History → list string → Result string;
  evaluate_testcase : History → string → Result PyVal;
  evaluator : History → PyVal → Result Label;
  raw_input : History → string → string
}.

Definition M (A : Type) : Type := History → Result A * History.

Definition ret {A} (a : A) : M A := λ h, (Ok a, h).
Definition raise {A} (e : Exn) : M A := λ h, (Raised e, h).
Definition bind {A B} (m : M A) (k : A → M B) : M B :=
  λ h, match m h with
       | (Ok a, h') => k a h'
       | (Raised e, h') => (Raised e, h')
       end.

#[global] Instance M_ret : MRet M := @ret.
#[global] Instance M_bind : MBind M := λ A B k m, bind m k.

Definition emit (ev : Event) : M unit := λ h, (Ok tt, ev :: h).

Definition run_hg (env : Env) (args : list string) : M string :=
  λ h, let out := hg env h args in (out, EvHg args out :: h).

Definition call_evaluate_testcase (env : Env) (rev : string) : M PyVal :=
  λ h, let out := evaluate_testcase env h rev in (out, EvTestcase rev out :: h).

Definition call_evaluator (env : Env) (rev : PyVal) : M Label :=
  λ h, let out := evaluator env h rev in (out, EvEvaluator rev out :: h).

Definition call_raw_input (env : Env) (prompt : string) : M string :=
  λ h, let a := raw_input env h prompt in (Ok a, EvRawInput prompt a :: h).

Definition log (level msg : string) : M unit := emit (EvLog level msg).
Definition print (text : string) : M unit := emit (EvPrint text).

(** [assert b] *)
Definition assert (b : bool) : M unit :=
  if b then ret tt else raise AssertionError.

(** ** [util/hgCmds.py] *)

Module hgCmds.

(** A directory: its files and its subdirectories, by name. *)
#[warnings="-register-all"]
Inductive Dir : Type :=
| MkDir (files : list string) (dirs : list (string * Dir)).

(** The walk of [destroyPyc] over a directory, top down: the files that
    end with [.pyc] are removed, and every subdirectory is visited but
    [.hg], which is taken off the list of the walk. *)
Fixpoint destroyPyc_walk (d : Dir) : Dir :=
  match d with
  | MkDir files dirs =>
      MkDir (List.filter (λ fn, negb (Py.endswith ".pyc" fn)) files)
            (List.map (λ entry : string * Dir,
                         let (name, sub) := entry in
                         if String.eqb name ".hg" then (name, sub)
                         else (name, destroyPyc_walk sub))
                      dirs)
  end.

(** [destroyPyc(repoDir)]: in the history, the event of the walk
    [destroyPyc_walk] over the directory of the repository. *)
Definition destroyPyc (repoDir : string) : M unit := emit (EvDestroyPyc repoDir).

(** The command line of [findCommonAncestor]. *)
Definition ancestor_cmd (repoDir a b : string) : list string :=
  ["hg"; "-R"; repoDir; "log"; "-r"; "ancestor(" +:+ a +:+ "," +:+ b +:+ ")";
   "--template={node|short}"].

Definition findCommonAncestor (env : Env) (repoDir a b : string) : M string :=
  run_hg env (ancestor_cmd repoDir a b).

(** The pattern [(^|.* )(\d+):(\w{12}).*] *)
Definition cset_pattern : Re.regex :=
  Re.Seq (Re.Group 1 (Re.Alt Re.Bol
                        (Re.Seq (Re.Star Re.dot) (Re.Chr (Ascii.eqb " ")))))
  (Re.Seq (Re.Group 2 (Re.plus Re.digit))
  (Re.Seq (Re.Chr (Ascii.eqb ":"))
  (Re.Seq (Re.Group 3 (Re.times 12 (Re.Chr Re.word)))
          (Re.Star Re.dot)))).

Definition getCsetHashFromBisectMsg (str : string) : PyVal :=
  match Re.re_match cset_pattern str with
  | Some m => Re.group m 3
  | None => None
  end.

(** [getRepoHashAndId(repoDir, repoRev)]. *)
Definition getRepoHashAndId (env : Env) (repoDir repoRev : string)
  : M (string * string * bool) :=
  let hgLogTmplList :=
    ["hg"; "-R"; repoDir; "log"; "-r"; repoRev; "--template"; "{node|short} {rev}"] in
  hgIdFull ← run_hg env hgLogTmplList;
  let onDefault := negb (String.eqb hgIdFull "") in
  '(hgIdFull, onDefault) ←
    (if onDefault then ret (hgIdFull, onDefault)
     else
       updateDefault ← call_raw_input env
         ("Not on default tip! " +:+
          "Would you like to (a)bort, update to (d)efault, or (u)se this rev: ");
       '(hgLogTmplList, onDefault) ←
         (if String.eqb updateDefault "a" then
            print "Aborting..." ;; raise SystemExit
          else if String.eqb updateDefault "d" then
            run_hg env ["hg"; "-R"; repoDir; "update"; "default"] ;;
            ret (hgLogTmplList, true)
          else if String.eqb updateDefault "u" then
            ret (["hg"; "-R"; repoDir; "log"; "-r"; "parents()"; "--template";
                  "{node|short} {rev}"], onDefault)
          else raise (Exception "Invalid choice."));
       hgIdFull ← run_hg env hgLogTmplList;
       ret (hgIdFull, onDefault));
  assert (negb (String.eqb hgIdFull "")) ;;
  match Py.split " " hgIdFull with
  | [hgIdChangesetHash; hgIdLocalNum] =>
      log "vdump" "Finished getting the hash and local id number of the repository." ;;
      ret (hgIdChangesetHash, hgIdLocalNum, onDefault)
  | _ => raise ValueError
  end.

(** [isAncestor(repoDir, a, b)]: [a] is an ancestor of [b]. *)
Definition isAncestor (env : Env) (repoDir a b : string) : M bool :=
  ca ← findCommonAncestor env repoDir a b;
  ret (String.eqb ca a).

(** [os.path.join(a, b)] of [posixpath]. *)
Definition path_join (a b : string) : string :=
  if Py.startswith "/" b then b
  else if String.eqb a "" || Py.endswith "/" a then a +:+ b
  else a +:+ "/" +:+ b.

(** What [getRepoNameFromHgrc] reads: whether a path is a file, and
    [SafeConfigParser.get] on the file of that path with a section and
    an option, which raises when one of the two is missing. *)
Record Files : Type := {
  isfile : string → bool;
  config_get : string → string → string → Result string
}.

Definition call_config_get (fs : Files) (path section option : string) : M string :=
  λ h, (config_get fs path section option, h).

(** [l[-1]] *)
Definition last_item (l : list string) : M string :=
  match l with
  | [] => raise IndexError
  | x :: l' => ret (List.last l' x)
  end.

(** [getRepoNameFromHgrc(repoDir)]. *)
Definition getRepoNameFromHgrc (fs : Files) (repoDir : string) : M string :=
  let hgrcpath := path_join (path_join repoDir ".hg") "hgrc" in
  assert (isfile fs hgrcpath) ;;
  default ← call_config_get fs hgrcpath "paths" "default";
  last_item (List.filter (λ i, negb (String.eqb i "")) (Py.split "/" default)).

(** [s.lower()] on ASCII letters. *)
Definition lower_char (c : ascii) : ascii :=
  let n := nat_of_ascii c in
  if (65 <=? n)%nat && (n <=? 90)%nat then ascii_of_nat (n + 32) else c.

Fixpoint lower (s : string) : string :=
  match s with
  | EmptyString => EmptyString
  | String c s' => String (lower_char c) (lower s')
  end.

(** [os.path.basename(p)] of [posixpath]: what follows the last slash. *)
Definition basename (p : string) : string := Py.last_of (Py.split "/" p).

(** [try: body / except subprocess.CalledProcessError: handler] *)
Definition try_except_CalledProcessError {A} (body handler : M A) : M A :=
  λ h, match body h with
       | (Raised (CalledProcessError _), h') => handler h'
       | r => r
       end.

(** The command lines of [patchHgRepoUsingMq]. *)
Definition mq_cmd (workingDir : string) (args : list string) : list string :=
  ["hg"; "-R"; workingDir] ++ args.

(** [patchHgRepoUsingMq(patchLoc, workingDir)], from the absolute path
    [p] of the patch on: [p] is what
    [os.path.abspath(normExpUserPath(patchLoc))] gives, and
    [format_exc] is the text of the traceback that [format_exc()] gives
    in the handler. *)
Definition patchHgRepoUsingMq (env : Env) (p workingDir format_exc : string) : M unit :=
  let pname := basename p in
  assert (negb (String.eqb p "" && String.eqb pname "")) ;;
  run_hg env (mq_cmd workingDir ["qimport"; p]) ;;
  log "vdump" "Patch qimport'ed." ;;
  try_except_CalledProcessError
    (qpushMsg ← run_hg env (mq_cmd workingDir ["qpush"; pname]);
     assert (negb (Py.contains " is empty" qpushMsg)) ;;
     log "vdump" "Patch qpush'ed.")
    (run_hg env (mq_cmd workingDir ["qpop"]) ;;
     run_hg env (mq_cmd workingDir ["qdelete"; pname]) ;;
     print "You may have untracked .rej files in the repository." ;;
     print ("`hg st` output of the repository in " +:+ workingDir +:+ " :") ;;
     run_hg env (mq_cmd workingDir ["st"]) ;;
     hgPurgeAns ← call_raw_input env "Do you want to run `hg purge`? (y/n): ";
     assert (String.eqb (lower hgPurgeAns) "y" || String.eqb (lower hgPurgeAns) "n") ;;
     (if String.eqb hgPurgeAns "y" then
        run_hg env (mq_cmd workingDir ["purge"]) ;; ret tt
      else ret tt) ;;
     raise (Exception format_exc)).

End hgCmds.

(** ** [core/bisect.py] *)

Definition MAX_ITERATIONS : Z := 100.

(** The attributes of a [Bisector] that [__init__] sets from the
    arguments, and [baseline], which [establish_baseline] assigns. *)
Record Bisector : Type := {
  repo_dir : string;
  start_rev : string;
  end_rev : string;
  skip_revs : PyVal;
  baseline : PyVal
}.

Definition hg_prefix (self : Bisector) : list string := ["hg"; "-R"; repo_dir self].

Definition set_baseline (self : Bisector) (b : PyVal) : Bisector :=
  {| repo_dir := repo_dir self; start_rev := start_rev self;
     end_rev := end_rev self; skip_revs := skip_revs self; baseline := b |}.

(** The truth value of a [str]-or-[None]. *)
Definition truthy (v : PyVal) : bool :=
  match v with
  | Some s => negb (String.eqb s "")
  | None => false
  end.

(** [v == "skip"] *)
Definition is_skip_value (v : PyVal) : bool :=
  match v with
  | Some s => String.eqb s "skip"
  | None => false
  end.

(** [establish_baseline] (40-58): the returned flag, with [self] after
    the assignment to [self.baseline]. *)
Definition establish_baseline (env : Env) (self : Bisector) (start end_ : string)
  : M (bool * Bisector) :=
  log "info" "Attempting to establish baseline for testcase" ;;
  run_hg env (hg_prefix self ++ ["update"; "-r"; end_]) ;;
  b ← call_evaluate_testcase env end_;
  let self := set_baseline self b in
  if (match baseline self with None => true | Some _ => false end)
     || is_skip_value (baseline self)
  then
    log "error" "Unable to establish baseline!" ;;
    mret (false, self)
  else
    run_hg env (hg_prefix self ++ ["update"; "-r"; start]) ;;
    start_result ← call_evaluate_testcase env start;
    match start_result with
    | None => mret (true, self)
    | Some _ => mret (false, self)
    end.

(** The variables of the search loop. *)
Record LoopState : Type := {
  labels : gmap PyVal Label;
  iter_count : Z;
  skip_count : Z;
  blame : PyVal;
  current_rev : PyVal
}.

Definition set_labels (st : LoopState) (l : gmap PyVal Label) : LoopState :=
  {| labels := l; iter_count := iter_count st; skip_count := skip_count st;
     blame := blame st; current_rev := current_rev st |}.
Definition set_iter_count (st : LoopState) (n : Z) : LoopState :=
  {| labels := labels st; iter_count := n; skip_count := skip_count st;
     blame := blame st; current_rev := current_rev st |}.
Definition set_skip_count (st : LoopState) (n : Z) : LoopState :=
  {| labels := labels st; iter_count := iter_count st; skip_count := n;
     blame := blame st; current_rev := current_rev st |}.

Inductive Flow : Type := Continue | Break.

(** The rest of an iteration after the [if] of line 97 (106-117).  The
    string of lines 109-112 is an expression statement without effect;
    the wall-clock measurements of lines 94 and 115-117 are left out. *)
Definition loop_rest (label : Label) (st : LoopState) : M (Flow * LoopState) :=
  log "info" (label.1 +:+ " (" +:+ label.2 +:+ ") ") ;;
  mret (Continue, set_iter_count st (iter_count st + 1)).

(** One iteration of the [while] of line 93. *)
Definition loop_body (env : Env) (st : LoopState) : M (Flow * LoopState) :=
  label ← call_evaluator env (current_rev st);
  let st := set_labels st (<[current_rev st := label]> (labels st)) in
  if String.eqb label.1 "skip" then
    let st := set_skip_count st (skip_count st + 1) in
    if skip_count st >? 20 then
      log "error" "Reached maximum skip attempts! Exiting" ;;
      mret (Break, st)
    else loop_rest label st
  else loop_rest label st.

(** How the [while] statement was left, or that it is still running
    when the iterations allowed to the model are used up. *)
Inductive LoopExit : Type :=
| CondFalse (st : LoopState)     (* [current_rev is None] *)
| Broke (st : LoopState)         (* the [break] of line 105 *)
| Running (st : LoopState).

Fixpoint while_loop (env : Env) (fuel : nat) (st : LoopState) : M LoopExit :=
  match current_rev st with
  | None => mret (CondFalse st)
  | Some _ =>
      match fuel with
      | O => mret (Running st)
      | S fuel' =>
          '(flow, st') ← loop_body env st;
          match flow with
          | Break => mret (Broke st')
          | Continue => while_loop env fuel' st'
          end
      end
  end.

(** The names bound when line 119 runs: the parameters and the local
    variables that [bisect] assigns, and the names of the module. *)
Definition bisect_locals : list string :=
  ["self"; "options"; "start_rev"; "end_rev"; "labels"; "iter_count";
   "skip_count"; "blame"; "current_rev"; "start_time"; "label"; "end_time";
   "elapsed"].
Definition module_globals : list string :=
  ["absolute_import"; "division"; "print_function"; "os"; "re"; "subprocess";
   "tempfile"; "datetime"; "time"; "logging"; "ximport"; "inspectShell";
   "fileManipulation"; "hgCmds"; "sps"; "INCOMPLETE_NOTE"; "MAX_ITERATIONS";
   "log"; "Bisector"].

(** Reading a name: [NameError] when no scope binds it. *)
Definition load_name (x : string) : M unit :=
  if existsb (String.eqb x) (bisect_locals ++ module_globals)
  then mret tt
  else raise (NameError x).

(** Lines 119-121.  The test reads [blamedRev] first; the call it guards
    reads [checkBlameParents], [blamedGoodOrBad], [realStartRepo] and
    [realEndRepo], none of which is bound either. *)
Definition blame_check : M unit :=
  load_name "blamedRev" ;;
  load_name "checkBlameParents" ;;
  load_name "blame" ;;
  load_name "blamedGoodOrBad" ;;
  load_name "labels" ;;
  load_name "realStartRepo" ;;
  load_name "realEndRepo".

(** Lines 123-128. *)
Definition cleanup (env : Env) (self : Bisector) : M unit :=
  log "vdump" "Resetting bisect" ;;
  run_hg env (hg_prefix self ++ ["bisect"; "-U"; "-r"]) ;;
  log "vdump" "Resetting working directory" ;;
  run_hg env (hg_prefix self ++ ["update"; "-C"; "-r"; "default"]) ;;
  hgCmds.destroyPyc (repo_dir self).

(** How a call of [bisect] ends when it does not raise. *)
Inductive BisectExit : Type :=
| NoBaseline          (* the [return] of line 76 *)
| Completed           (* the end of the function, after line 128 *)
| StillSearching.     (* the loop outlives the iterations allowed *)

Definition initial_state (self : Bisector) : LoopState :=
  {| labels := ∅; iter_count := 1; skip_count := 0; blame := None;
     current_rev := baseline self |}.

(** The search and what follows it (78-128), once the baseline is
    established. *)
Definition search (env : Env) (self : Bisector) (start end_ : string) (fuel : nat)
  : M BisectExit :=
  log "info" ("Begin bisection in range: " +:+ start +:+ " - " +:+ end_) ;;
  run_hg env (hg_prefix self ++ ["bisect"; "-r"]) ;;
  (if truthy (skip_revs self) then
     log "info" ("Skipping revisions matching: " +:+ py_str (skip_revs self)) ;;
     run_hg env (hg_prefix self ++ ["bisect"; "--skip"; py_str (skip_revs self)]) ;;
     mret tt
   else mret tt) ;;
  exit ← while_loop env fuel (initial_state self);
  match exit with
  | Running _ => mret StillSearching
  | CondFalse _ | Broke _ =>
      blame_check ;;
      cleanup env self ;;
      mret Completed
  end.

(** Lines 70-128: the baseline, then the search or the [return]. *)
Definition bisect_range (env : Env) (self : Bisector) (start end_ : string) (fuel : nat)
  : M BisectExit :=
  '(established, self) ← establish_baseline env self start end_;
  if established : bool then
    log "info" ("Established baseline.  All future runs must return: "
                +:+ py_str (baseline self)) ;;
    search env self start end_ fuel
  else
    log "error" ("Unable to perform bisection because the we were unable to "
                 +:+ "establish a baseline.  Exiting!") ;;
    mret NoBaseline.

(** [bisect] (60-128). *)
Definition bisect (env : Env) (self : Bisector) (fuel : nat) : M BisectExit :=
  log "info" "Purging all local repository changes" ;;
  run_hg env (hg_prefix self ++ ["update"; "-C"; "default"]) ;;
  run_hg env (hg_prefix self ++ ["purge"; "--all"]) ;;
  '(start, _, _) ← hgCmds.getRepoHashAndId env (repo_dir self) (start_rev self);
  '(end_, _, _) ← hgCmds.getRepoHashAndId env (repo_dir self) (end_rev self);
  bisect_range env self start end_ fuel.

(** The options [bisectLabel] reads: the repository directory of the
    build options when there are some, else the one of the browser
    options, and [testInitialRevs]. *)
Record Options : Type := {
  buildOptions : option string;
  browserOptions : string;
  testInitialRevs : bool
}.

(** The patterns of lines 212 and 216. *)
Definition could_be_any_pattern : Re.regex :=
  Re.Seq (Re.lit "Due to skipped revisions, the first ")
  (Re.Seq (Re.Group 1 (Re.Alt (Re.lit "good") (Re.lit "bad")))
          (Re.lit " revision could be any of:")).
Definition first_revision_pattern : Re.regex :=
  Re.Seq (Re.lit "The first ")
  (Re.Seq (Re.Group 1 (Re.Alt (Re.lit "good") (Re.lit "bad")))
          (Re.lit " revision is:")).

(** [outputLines[i]] *)
Definition line_at (outputLines : list string) (i : nat) : M string :=
  match nth_error outputLines i with
  | Some l => mret l
  | None => raise IndexError
  end.

Definition nl_string : string := String Py.nl "".

(** The names bound in [bisectLabel]: its parameters and the local
    variables it assigns.  [sanitizeCsetMsg] is not one of them: it is
    defined in the body of [class Bisector], whose names are attributes
    of the class and belong to no scope that a function reads, and the
    module binds no name [sanitizeCsetMsg]. *)
Definition bisectLabel_locals : list string :=
  ["self"; "options"; "hgLabel"; "currRev"; "startRepo"; "endRepo"; "outputResult";
   "outputLines"; "r"; "m"; "blamedGoodOrBad"; "blamedRev"; "start"; "end"].

(** Reading a name in a function with the local names [locals]. *)
Definition load_name_in (locals : list string) (x : string) : M unit :=
  if existsb (String.eqb x) (locals ++ module_globals)
  then mret tt
  else raise (NameError x).

(** [bisectLabel] (204-248): the tuple it returns,
    [(blamedGoodOrBad, blamedRev, currRev, start, end)].  The calls of
    lines 213 and 220 read the name [sanitizeCsetMsg] before they
    evaluate their arguments. *)
Definition bisectLabel (env : Env) (hg_prefix : list string) (options : Options)
    (hgLabel currRev startRepo endRepo : string)
  : M (PyVal * PyVal * PyVal * string * string) :=
  assert (String.eqb hgLabel "good" || String.eqb hgLabel "bad"
          || String.eqb hgLabel "skip") ;;
  outputResult ← run_hg env (hg_prefix ++ ["bisect"; "-U"; "--" +:+ hgLabel; currRev]);
  let outputLines := Py.split Py.nl outputResult in
  let repo_dir :=
    match buildOptions options with
    | Some d => d
    | None => browserOptions options
    end in
  line0 ← line_at outputLines 0;
  match Re.re_match could_be_any_pattern line0 with
  | Some _ =>
      load_name_in bisectLabel_locals "sanitizeCsetMsg" ;;
      print (nl_string +:+ sanitizeCsetMsg outputResult repo_dir +:+ nl_string) ;;
      mret (None, None, None, startRepo, endRepo)
  | None =>
      match Re.re_match first_revision_pattern line0 with
      | Some m =>
          print (nl_string +:+ nl_string +:+
                 "autoBisect shows this is probably related to the following changeset:"
                 +:+ nl_string) ;;
          load_name_in bisectLabel_locals "sanitizeCsetMsg" ;;
          print (sanitizeCsetMsg outputResult repo_dir +:+ nl_string) ;;
          let blamedGoodOrBad := Re.group m 1 in
          line1 ← line_at outputLines 1;
          let blamedRev := hgCmds.getCsetHashFromBisectMsg line1 in
          mret (blamedGoodOrBad, blamedRev, None, startRepo, endRepo)
      | None =>
          if testInitialRevs options then
            mret (None, None, None, startRepo, endRepo)
          else
            log "vdump" line0 ;;
            let currRev := hgCmds.getCsetHashFromBisectMsg line0 in
            match currRev with
            | None =>
                print "Resetting to default revision..." ;;
                run_hg env (hg_prefix ++ ["update"; "-C"; "default"]) ;;
                hgCmds.destroyPyc repo_dir ;;
                raise (Exception "hg did not suggest a changeset to test!")
            | Some rev =>
                let start := startRepo in
                let end_ := endRepo in
                let '(start, end_) :=
                  if String.eqb hgLabel "bad" then (start, rev)
                  else if String.eqb hgLabel "good" then (rev, end_)
                  else if String.eqb hgLabel "skip" then (start, end_)
                  else (start, end_) in
                mret (None, None, Some rev, start, end_)
            end
      end
  end.

(** The flags and the dictionary that the loop of [checkBlameParents]
    updates. *)
Record Verdict : Type := {
  bisectLied : bool;
  missedCommonAncestor : bool;
  vlabels : gmap PyVal Label
}.

(** [{'good': 'bad', 'bad': 'good'}[k]] *)
Definition opposite_label (k : string) : M string :=
  if String.eqb k "good" then mret "bad"
  else if String.eqb k "bad" then mret "good"
  else raise (KeyError k).

(** Lines 143-157: a parent without a label is tested now. *)
Definition ensure_tested (env : Env) (repo_dir startRepo endRepo : string)
    (p : string) (v : Verdict) : M Verdict :=
  match vlabels v !! Some p with
  | None =>
      print "" ;;
      print ("Oops! We didn't test rev " +:+ p +:+
             ", a parent of the blamed revision! " +:+ "Let's do that now.") ;;
      anc_start ← hgCmds.isAncestor env repo_dir startRepo p;
      neither ← (if negb anc_start then
                   anc_end ← hgCmds.isAncestor env repo_dir endRepo p;
                   mret (negb anc_end)
                 else mret false);
      missed ← (if neither : bool then
                  print ("We did not test rev " +:+ p +:+
                         " because it is not a descendant of either " +:+
                         startRepo +:+ " or " +:+ endRepo +:+ ".") ;;
                  mret true
                else mret (missedCommonAncestor v));
      label ← call_evaluator env (Some p);
      print (label.1 +:+ " (" +:+ label.2 +:+ ") ") ;;
      print "As expected, the parent's label is the opposite of the blamed rev's label." ;;
      mret {| bisectLied := bisectLied v; missedCommonAncestor := missed;
              vlabels := <[Some p := label]> (vlabels v) |}
  | Some _ => mret v
  end.

(** Lines 159-166: the parent's label against the label of the blamed
    revision. *)
Definition judge_parent (blamedGoodOrBad : string) (p : string) (v : Verdict)
  : M Verdict :=
  match vlabels v !! Some p with
  | None => raise (KeyError p)
  | Some label =>
      if String.eqb label.1 "skip" then
        print ("Parent rev " +:+ p +:+
               " was marked as 'skip', so the regression window includes it.") ;;
        mret v
      else if String.eqb label.1 blamedGoodOrBad then
        print ("Bisect lied to us! Parent rev " +:+ p +:+ " was also " +:+
               blamedGoodOrBad +:+ "!") ;;
        mret {| bisectLied := true; missedCommonAncestor := missedCommonAncestor v;
                vlabels := vlabels v |}
      else
        opp ← opposite_label blamedGoodOrBad;
        assert (String.eqb label.1 opp) ;;
        mret v
  end.

(** The body of the [for] loop of [checkBlameParents] (143-166). *)
Definition check_parent (env : Env) (repo_dir blamedGoodOrBad startRepo endRepo : string)
    (p : string) (v : Verdict) : M Verdict :=
  v ← ensure_tested env repo_dir startRepo endRepo p v;
  judge_parent blamedGoodOrBad p v.

Fixpoint check_parents (env : Env) (repo_dir blamedGoodOrBad startRepo endRepo : string)
    (parents : list string) (v : Verdict) : M Verdict :=
  match parents with
  | [] => mret v
  | p :: rest =>
      v ← check_parent env repo_dir blamedGoodOrBad startRepo endRepo p v;
      check_parents env repo_dir blamedGoodOrBad startRepo endRepo rest v
  end.

(** The parents of [blamedRev], from the output of [hg parent] (136-137). *)
Definition parents_cmd (repo_dir blamedRev : string) : list string :=
  ["hg"; "-R"; repo_dir] ++ ["parent"; "--template={node|short},"; "-r"; blamedRev].

Definition blamed_parents (env : Env) (repo_dir blamedRev : string) : M (list string) :=
  out ← run_hg env (parents_cmd repo_dir blamedRev);
  mret (Py.but_last (Py.split "," out)).

(** The explanation printed after the loop (168-188). *)
Definition explain (env : Env) (repo_dir blamedRev : string) (parents : list string)
    (v : Verdict) : M unit :=
  if bisectLied v then
    if missedCommonAncestor v then
      p0 ← line_at parents 0;
      p1 ← line_at parents 1;
      ca ← hgCmds.findCommonAncestor env repo_dir p0 p1;
      print "" ;;
      print "Bisect blamed the merge because our initial range did not include one" ;;
      print "of the parents." ;;
      print ("The common ancestor of " +:+ p0 +:+ " and " +:+ p1 +:+ " is " +:+ ca +:+ ".") ;;
      label ← call_evaluator env (Some ca);
      print (label.1 +:+ " (" +:+ label.2 +:+ ") ") ;;
      print ("Consider re-running autoBisect with -s " +:+ ca +:+ " -e " +:+ blamedRev) ;;
      print "in a configuration where earliestWorking is before the common ancestor."
    else
      print "" ;;
      print "Most likely, bisect's result was unhelpful because one of the" ;;
      print "tested revisions was marked as 'good' or 'bad' for the wrong reason." ;;
      print "I don't know which revision was incorrectly marked. Sorry."
  else
    print "" ;;
    print "The bug was introduced by a merge (it was not present on either parent)." ;;
    print "I don't know which patches from each side of the merge contributed to the bug. Sorry.".

(** [checkBlameParents] (131-188).  The function returns nothing; the
    model returns the flags and the dictionary as the loop left them,
    or [None] after the [return] of line 140. *)
Definition checkBlameParents (env : Env) (repo_dir blamedRev blamedGoodOrBad : string)
    (labels : gmap PyVal Label) (startRepo endRepo : string) : M (option Verdict) :=
  parents ← blamed_parents env repo_dir blamedRev;
  if (length parents =? 1)%nat then mret None
  else
    v ← check_parents env repo_dir blamedGoodOrBad startRepo endRepo parents
          {| bisectLied := false; missedCommonAncestor := false; vlabels := labels |};
    explain env repo_dir blamedRev parents v ;;
    mret (Some v).

(** ** The classifications of the specification *)

Inductive Classification : Type := GOOD | BAD | SKIP.

(** The classification a label carries, when its first component is one
    of the three the code compares with. *)
Definition classification_of_label (l : string) : option Classification :=
  if String.eqb l "good" then Some GOOD
  else if String.eqb l "bad" then Some BAD
  else if String.eqb l "skip" then Some SKIP
  else None.

(** The classification that [establish_baseline] reads off a result of
    [evaluate_testcase]: [None] is a run that does not reproduce, the
    string ["skip"] a revision that could not be judged, and any other
    value the baseline that the later runs are compared with. *)
Definition classify_result (v : PyVal) : Classification :=
  match v with
  | None => GOOD
  | Some s => if String.eqb s "skip" then SKIP else BAD
  end.

(** The [skip] answers among the events. *)
Definition is_skip_event (ev : Event) : bool :=
  match ev with
  | EvEvaluator _ (Ok label) => String.eqb label.1 "skip"
  | _ => false
  end.

(** The events of the cleanup phase. *)
Definition is_bisect_reset (self : Bisector) (ev : Event) : bool :=
  match ev with
  | EvHg args _ => bool_decide (args = (hg_prefix self ++ ["bisect"; "-U"; "-r"])%list)
  | _ => false
  end.
Definition is_restore_default (self : Bisector) (ev : Event) : bool :=
  match ev with
  | EvHg args _ => bool_decide (args = (hg_prefix self ++ ["update"; "-C"; "-r"; "default"])%list)
  | _ => false
  end.
Definition is_destroy_pyc (self : Bisector) (ev : Event) : bool :=
  match ev with
  | EvDestroyPyc d => String.eqb d (repo_dir self)
  | _ => false
  end.

(** The cleanup phase was reached: the three events are in the history. *)
Definition cleaned_up (self : Bisector) (h : History) : bool :=
  existsb (is_bisect_reset self) h
  && existsb (is_restore_default self) h
  && existsb (is_destroy_pyc self) h.

(** ** Concrete environments, for the examples *)

Module Examples.

(** A repository in which [hg log] resolves every name to itself, every
    other command prints nothing, the testcase reproduces at ["e"]
    only, and the evaluator answers [label] to everything. *)
Definition resolve_reply (args : list string) : string :=
  match args with
  | [_; _; _; "log"; "-r"; rev; "--template"; _] => rev +:+ " 0"
  | _ => ""
  end.

Definition env_const (label : Label) : Env :=
  {| hg := λ _ args, Ok (resolve_reply args);
     evaluate_testcase := λ _ rev, Ok (if String.eqb rev "e" then Some "crash" else None);
     evaluator := λ _ _, Ok label;
     raw_input := λ _ _, "a" |}.

(** A repository in which every [hg] command prints [reply]. *)
Definition env_reply (reply : string) : Env :=
  {| hg := λ _ _, Ok reply;
     evaluate_testcase := λ _ _, Ok None;
     evaluator := λ _ _, Ok ("good", "");
     raw_input := λ _ _, "a" |}.

Definition options : Options :=
  {| buildOptions := Some "repo"; browserOptions := ""; testInitialRevs := false |}.

(** The loop after twenty skips, and after one more. *)
Definition twenty_skips : LoopState :=
  {| labels := {[ Some "crash" := ("skip", "x") ]}; iter_count := 21;
     skip_count := 20; blame := None; current_rev := Some "crash" |}.
Definition one_more_skip : LoopState :=
  {| labels := {[ Some "crash" := ("skip", "x") ]}; iter_count := 21;
     skip_count := 21; blame := None; current_rev := Some "crash" |}.

(** An evaluator that is interrupted. *)
Definition env_interrupted : Env :=
  {| hg := λ _ args, Ok (resolve_reply args);
     evaluate_testcase := λ _ rev, Ok (if String.eqb rev "e" then Some "crash" else None);
     evaluator := λ _ _, Raised KeyboardInterrupt;
     raw_input := λ _ _, "a" |}.

(** A testcase that reproduces at every revision. *)
Definition env_always_crashes : Env :=
  {| hg := λ _ args, Ok (resolve_reply args);
     evaluate_testcase := λ _ _, Ok (Some "crash");
     evaluator := λ _ _, Ok ("bad", "");
     raw_input := λ _ _, "a" |}.

(** The verdicts of the testcase in [env_const]. *)
Definition verdict_at_e (rev : string) : PyVal :=
  if String.eqb rev "e" then Some "crash" else None.

(** What [hg bisect] prints when it goes on to the next changeset. *)
Definition testing_next : string :=
  "Testing changeset 7:bbbbbbbbbbbb (2 changesets remaining, ~1 tests)".

(** A merge [m] of [p1] and [p2], both tested [good] already, in a
    repository where neither is a descendant of the range's ends: the
    common ancestor of any two revisions is [root]. *)
Definition merge_reply (args : list string) : string :=
  match args with
  | [_; _; _; "parent"; _; _; _] => "p1,p2,"
  | _ => "root"
  end.

Definition env_merge : Env :=
  {| hg := λ _ args, Ok (merge_reply args);
     evaluate_testcase := λ _ _, Ok None;
     evaluator := λ _ _, Ok ("good", "");
     raw_input := λ _ _, "a" |}.

Definition tested_parents : gmap PyVal Label :=
  {[ Some "p1" := ("good", ""); Some "p2" := ("good", "") ]}.

Definition session : Bisector :=
  {| repo_dir := "repo"; start_rev := "s"; end_rev := "e";
     skip_revs := None; baseline := None |}.

Definition established_session : Bisector :=
  {| repo_dir := "repo"; start_rev := "s"; end_rev := "e";
     skip_revs := None; baseline := Some "crash" |}.

End Examples.

(** The number of [skip] answers among the events. *)
Definition skips_in (evs : History) : Z :=
  Z.of_nat (length (filter (λ ev, is_skip_event ev = true) evs)).

(** The variables of the loop when the model leaves it. *)
Definition exit_state (exit : LoopExit) : LoopState :=
  match exit with
  | CondFalse st | Broke st | Running st => st
  end.

Definition is_broke (exit : LoopExit) : bool :=
  match exit with
  | Broke _ => true
  | _ => false
  end.

(** The testcase evaluation is consistent: a revision has one verdict. *)
Definition consistent_testcase (env : Env) (verdict : string → PyVal) : Prop :=
  ∀ h rev, evaluate_testcase env h rev = Ok (verdict rev).

(** No [hg] subprocess fails. *)
Definition hg_succeeds (env : Env) : Prop :=
  ∀ h args, ∃ out, hg env h args = Ok out.

(** The repository answers the ancestor queries by [anc], whatever
    happened before. *)
Definition ancestor_oracle (env : Env) (repo_dir : string)
    (anc : string → string → string) : Prop :=
  ∀ h a b, hg env h (hgCmds.ancestor_cmd repo_dir a b) = Ok (anc a b).

(** [p] is a descendant of [a]: the common ancestor of the two is [a]. *)
Definition descendant_of (anc : string → string → string) (a p : string) : bool :=
  String.eqb (anc a p) a.

(** The first component of a label is one of the three classifications. *)
Definition wf_label (l : string) : Prop := l = "good" ∨ l = "bad" ∨ l = "skip".

(** The evaluator answers every call with a label. *)
Definition evaluator_answers (env : Env) : Prop :=
  ∀ h rev, ∃ label, evaluator env h rev = Ok label ∧ wf_label label.1.

(** The labels of the dictionary are well formed. *)
Definition wf_labels (labels : gmap PyVal Label) : Prop :=
  ∀ k label, labels !! k = Some label → wf_label label.1.

(** A parent without a label that is a descendant of neither end of
    the range. *)
Definition missable (anc : string → string → string) (start end_ : string)
    (labels : gmap PyVal Label) (p : string) : bool :=
  bool_decide (labels !! Some p = None)
  && negb (descendant_of anc start p) && negb (descendant_of anc end_ p).

(** The computation returns, whatever happened before, with a result
    that satisfies [P]. *)
Definition returns {A} (m : M A) (P : A → Prop) : Prop :=
  ∀ h, ∃ a h', m h = (Ok a, h') ∧ P a.

(** No file of the directory ends with [.pyc], the directories under
    [.hg] apart. *)
Fixpoint pyc_free (d : hgCmds.Dir) : bool :=
  match d with
  | hgCmds.MkDir files dirs =>
      forallb (λ fn, negb (Py.endswith ".pyc" fn)) files
      && forallb (λ entry : string * hgCmds.Dir,
                    let (name, sub) := entry in
                    String.eqb name ".hg" || pyc_free sub)
                 dirs
  end.

(** Every event that the computation adds to the history satisfies
    [P]. *)
Definition emits {A} (P : Event → Prop) (m : M A) : Prop :=
  ∀ h r h', m h = (r, h') → ∃ evs, h' = (evs ++ h)%list ∧ Forall P evs.

(** The character occurs in the string. *)
Fixpoint mem_char (c : ascii) (s : string) : bool :=
  match s with
  | EmptyString => false
  | String d s' => Ascii.eqb d c || mem_char c s'
  end.

(** Every character of the string is in the class. *)
Fixpoint all_chars (p : ascii → bool) (s : string) : bool :=
  match s with
  | EmptyString => true
  | String c s' => p c && all_chars p s'
  end.

(** What a pattern means, without the search order: [matches r st st']
    when [r] can take the matcher from the state [st] to the state
    [st']. *)
Inductive star_steps (p : ascii → bool) : nat → string → nat → string → Prop :=
| star_stop n s : star_steps p n s n s
| star_step n c s n' s' :
    p c = true → star_steps p (S n) s n' s' → star_steps p n (String c s) n' s'.

Inductive matches : Re.regex → Re.mstate → Re.mstate → Prop :=
| m_eps st : matches Re.Eps st st
| m_chr p c s n g :
    p c = true →
    matches (Re.Chr p) (Re.MState n (String c s) g) (Re.MState (S n) s g)
| m_bol s g : matches Re.Bol (Re.MState 0 s g) (Re.MState 0 s g)
| m_seq r1 r2 st st1 st2 :
    matches r1 st st1 → matches r2 st1 st2 → matches (Re.Seq r1 r2) st st2
| m_alt_l r1 r2 st st' : matches r1 st st' → matches (Re.Alt r1 r2) st st'
| m_alt_r r1 r2 st st' : matches r2 st st' → matches (Re.Alt r1 r2) st st'
| m_star p st n' s' :
    star_steps p (Re.pos st) (Re.rest st) n' s' →
    matches (Re.Star p) st (Re.MState n' s' (Re.groups st))
| m_group n r st st1 :
    matches r st st1 →
    matches (Re.Group n r) st
      (Re.MState (Re.pos st1) (Re.rest st1)
         (<[n := substring 0 (Re.pos st1 - Re.pos st) (Re.rest st)]> (Re.groups st1))).

(** The string has a changeset token with this hash: a decimal number,
    a colon and twelve word characters, at the start of the string or
    after a space. *)
Definition cset_token (s hash : string) : Prop :=
  ∃ pre digits rest,
    s = pre +:+ digits +:+ String ":" (hash +:+ rest)
    ∧ (pre = "" ∨ ∃ pre', pre = pre' +:+ " ")
    ∧ digits ≠ "" ∧ all_chars Re.digit digits = true
    ∧ String.length hash = 12%nat ∧ all_chars Re.word hash = true.

(** The string has a changeset token with this hash on its first line:
    the token is at the start of the string, or after a space that no
    newline precedes. *)
Definition cset_token_on_first_line (s hash : string) : Prop :=
  ∃ pre digits rest,
    s = pre +:+ digits +:+ String ":" (hash +:+ rest)
    ∧ (pre = "" ∨ ∃ pre', pre = pre' +:+ " " ∧ mem_char Py.nl pre' = false)
    ∧ digits ≠ "" ∧ all_chars Re.digit digits = true
    ∧ String.length hash = 12%nat ∧ all_chars Re.word hash = true.

(** An event of the loop on the revision [rev]: an evaluation of [rev],
    or a line of the log. *)
Definition loop_event (rev : PyVal) (ev : Event) : Prop :=
  match ev with
  | EvEvaluator rev' _ => rev' = rev
  | EvLog _ _ => True
  | _ => False
  end.

(** The command line with which [getRepoHashAndId] asks for the hash
    and the local number of the revision [repoRev], and its prompt. *)
Definition resolve_cmd (repoDir repoRev : string) : list string :=
  ["hg"; "-R"; repoDir; "log"; "-r"; repoRev; "--template"; "{node|short} {rev}"].

Definition default_prompt : string :=
  "Not on default tip! " +:+
  "Would you like to (a)bort, update to (d)efault, or (u)se this rev: ".

(** The other command lines of [getRepoHashAndId]. *)
Definition update_default_cmd (repoDir : string) : list string :=
  ["hg"; "-R"; repoDir; "update"; "default"].

(** A repository off the default branch: the first [hg] command prints
    nothing, every later one prints [second], and the user answers
    [answer]. *)
Definition env_off_default (answer second : string) : Env :=
  {| hg := λ h _, match h with [] => Ok "" | _ => Ok second end;
     evaluate_testcase := λ _ _, Ok None;
     evaluator := λ _ _, Ok ("good", "");
     raw_input := λ _ _, answer |}.

(** What [hg parent --template={node|short},] prints for the parents
    [nodes]: every node with a comma behind it. *)
Definition nodes_output (nodes : list string) : string :=
  foldr (λ node out, node +:+ String "," out) "" nodes.

(** The events that only print. *)
Definition is_print (ev : Event) : Prop :=
  match ev with
  | EvPrint _ => True
  | _ => False
  end.

(** The lines that [checkBlameParents] prints about a merge that no
    parent explains (186-188), the latest first. *)
Definition merge_explanation : History :=
  [EvPrint "I don't know which patches from each side of the merge contributed to the bug. Sorry.";
   EvPrint "The bug was introduced by a merge (it was not present on either parent).";
   EvPrint ""].

(** The path of the [hgrc] file of a repository. *)
Definition hgrc_path (repoDir : string) : string :=
  hgCmds.path_join (hgCmds.path_join repoDir ".hg") "hgrc".

(** The text is made of slashes only. *)
Definition only_slashes (s : string) : bool := all_chars (λ c, Ascii.eqb c "/") s.

(** A file system in which every path is a file and every option of
    every configuration file is [url]. *)
Definition files_with_default (url : string) : hgCmds.Files :=
  {| hgCmds.isfile := λ _, true; hgCmds.config_get := λ _ _ _, Ok url |}.

(** A repository [repo] in which [hg qpush fix.diff] fails and every
    other command prints nothing, with a user who answers [answer]. *)
Definition env_qpush_fails (answer : string) : Env :=
  {| hg := λ _ args,
       if bool_decide (args = hgCmds.mq_cmd "repo" ["qpush"; "fix.diff"]) then
         Raised (CalledProcessError args)
       else Ok "";
     evaluate_testcase := λ _ _, Ok None;
     evaluator := λ _ _, Ok ("good", "");
     raw_input := λ _ _, answer |}.

(** [if i], for a string [i]. *)
Abbreviation non_empty := (λ i : string, negb (String.eqb i "")) (only parsing).

(** The evaluator gives each revision one label, whatever happened
    before. *)
Definition consistent_evaluator (env : Env) (verdict : PyVal → Label) : Prop :=
  ∀ h rev, evaluator env h rev = Ok (verdict rev).

(** The label that the blame verifier holds a parent to: the one that
    the dictionary has for it when the verifier is called or, without
    one, the label that the evaluator gives it. *)
Definition parent_label (labels : gmap PyVal Label) (verdict : PyVal → Label)
    (p : string) : Label :=
  default (verdict (Some p)) (labels !! Some p).

(** * Properties *)

(** ** Strings: [split] and [join] *)

Section SplitJoin.
Variable sep : ascii.

Lemma split_not_nil s : Py.split sep s ≠ [].
Proof.
  destruct s as [|c s]; simpl; [discriminate|].
  destruct (Ascii.eqb c sep); [discriminate|].
  destruct (Py.split sep s); discriminate.
Qed.

Lemma join_cons x y ys :
  Py.join (String sep "") (x :: y :: ys)
  = x +:+ String sep (Py.join (String sep "") (y :: ys)).
Proof. reflexivity. Qed.

(** Joining what was split gives the text back. *)
Lemma join_split s : Py.join (String sep "") (Py.split sep s) = s.
Proof.
  induction s as [|c s IH]; simpl; [reflexivity|].
  pose proof (split_not_nil s) as Hnil.
  destruct (Ascii.eqb_spec c sep) as [->|Hne].
  - destruct (Py.split sep s) as [|y ys]; [done|].
    rewrite join_cons, IH. reflexivity.
  - destruct (Py.split sep s) as [|y [|z zs]]; [done| |].
    + simpl in *. by rewrite IH.
    + rewrite join_cons. rewrite join_cons in IH.
      rewrite <- IH. reflexivity.
Qed.

(** The pieces of a split do not contain the separator. *)
Lemma split_sep_free s : Forall (λ l, mem_char sep l = false) (Py.split sep s).
Proof.
  induction s as [|c s IH]; simpl.
  - by constructor.
  - destruct (Ascii.eqb_spec c sep) as [->|Hne].
    + by constructor.
    + destruct (Py.split sep s) as [|y ys].
      * constructor; [|done]. simpl.
        by destruct (Ascii.eqb_spec c sep).
      * inversion IH; subst. constructor; [|done]. simpl.
        by destruct (Ascii.eqb_spec c sep).
Qed.

Lemma split_sep_free_string l :
  mem_char sep l = false → Py.split sep l = [l].
Proof.
  induction l as [|c l IH]; simpl; [done|].
  destruct (Ascii.eqb c sep); simpl; [done|].
  intros H. by rewrite (IH H).
Qed.

Lemma split_app_sep l s :
  mem_char sep l = false →
  Py.split sep (l +:+ String sep s) = l :: Py.split sep s.
Proof.
  induction l as [|c l IH]; simpl; intros H.
  - by rewrite Ascii.eqb_refl.
  - destruct (Ascii.eqb c sep); simpl in *; [done|].
    by rewrite (IH H).
Qed.

(** Splitting what was joined gives the pieces back, when none of them
    contains the separator. *)
Lemma split_join ls :
  ls ≠ [] → Forall (λ l, mem_char sep l = false) ls →
  Py.split sep (Py.join (String sep "") ls) = ls.
Proof.
  induction ls as [|x [|y ys] IH]; intros Hne Hall; [done| |].
  - inversion Hall; subst. simpl. by apply split_sep_free_string.
  - inversion Hall; subst. rewrite join_cons.
    rewrite split_app_sep by done. f_equal. by apply IH.
Qed.
End SplitJoin.

Lemma mem_char_app c a b : mem_char c (a +:+ b) = mem_char c a || mem_char c b.
Proof.
  induction a as [|d a IH]; simpl; [done|].
  rewrite IH. by rewrite orb_assoc.
Qed.

(** A character of a piece of a split is a character of the text. *)
Lemma mem_char_split c sep s x :
  x ∈ Py.split sep s → mem_char c x = true → mem_char c s = true.
Proof.
  revert x. induction s as [|d s IH]; simpl; intros x Hin Hc.
  - apply list_elem_of_singleton in Hin. by subst.
  - destruct (Ascii.eqb d sep).
    + apply elem_of_cons in Hin as [->|Hin]; [done|].
      rewrite (IH _ Hin Hc). by rewrite orb_true_r.
    + pose proof (split_not_nil sep s) as Hnil.
      destruct (Py.split sep s) as [|y ys]; [done|].
      apply elem_of_cons in Hin as [->|Hin].
      * simpl in Hc. apply orb_true_iff in Hc as [Hc|Hc].
        { by rewrite Hc. }
        rewrite (IH y); [by rewrite orb_true_r| left | done].
      * rewrite (IH x); [by rewrite orb_true_r| by right | done].
Qed.

(** A character of a join is the separator or a character of a piece. *)
Lemma mem_char_join c sep ls :
  mem_char c (Py.join (String sep "") ls) = true →
  c = sep ∨ ∃ x, x ∈ ls ∧ mem_char c x = true.
Proof.
  induction ls as [|x [|y ys] IH]; simpl; intros H; [done| |].
  - right. exists x. split; [left|done].
  - change (mem_char c (x +:+ String sep (Py.join (String sep "") (y :: ys))) = true) in H.
    rewrite mem_char_app in H. simpl in H.
    apply orb_true_iff in H as [H|H].
    { right. exists x. split; [left|done]. }
    apply orb_true_iff in H as [H|H].
    { left. by apply Ascii.eqb_eq in H. }
    destruct (IH H) as [->|(z & Hz & Hc)]; [by left|].
    right. exists z. split; [by right|done].
Qed.

Lemma elem_of_but_last {A} (x : A) l : x ∈ Py.but_last l → x ∈ l.
Proof.
  unfold Py.but_last. induction l as [|y [|z zs] IH]; simpl; intros H.
  - done.
  - by apply elem_of_nil in H.
  - apply elem_of_cons in H as [->|H]; [left|right; by apply IH].
Qed.

Lemma last_of_elem l : l ≠ [] → Py.last_of l ∈ l.
Proof.
  unfold Py.last_of. induction l as [|y [|z zs] IH]; simpl; intros H.
  - done.
  - left.
  - right. by apply IH.
Qed.

(** ** The message sanitizer *)

Lemma sanitize_loop_map repo msgList acc :
  sanitize_loop repo msgList acc = (acc ++ map (sanitize_line repo) msgList)%list.
Proof.
  revert acc. induction msgList as [|line rest IH]; intros acc; simpl.
  - by rewrite app_nil_r.
  - rewrite IH. by rewrite <- app_assoc.
Qed.

(** The sanitizer rewrites the text line by line. *)
Lemma sanitizeCsetMsg_lines msg repo :
  sanitizeCsetMsg msg repo
  = Py.join nl_string (map (sanitize_line repo) (Py.split Py.nl msg)).
Proof. unfold sanitizeCsetMsg. by rewrite sanitize_loop_map. Qed.

Lemma sanitize_line_settled repo line :
  triggers repo line = false → sanitize_line repo line = line.
Proof.
  unfold triggers, sanitize_line. intros H.
  apply orb_false_iff in H as [-> ->]. done.
Qed.

(** A rewritten line is still one line. *)
Lemma sanitize_line_no_newline repo line :
  mem_char Py.nl line = false → mem_char Py.nl (sanitize_line repo line) = false.
Proof.
  intros Hline. unfold sanitize_line.
  destruct (email_shaped line).
  - apply not_true_is_false. intros H.
    apply mem_char_join in H as [H|(x & Hx & Hc)]; [discriminate H|].
    apply elem_of_but_last in Hx.
    rewrite (mem_char_split _ _ _ _ Hx Hc) in Hline. discriminate.
  - destruct (changeset_line repo line); [|done].
    unfold changeset_url. rewrite mem_char_app.
    apply orb_false_iff. split; [by vm_compute|].
    apply not_true_is_false. intros Hc.
    pose proof (last_of_elem _ (split_not_nil ":" line)) as Hin.
    rewrite (mem_char_split _ _ _ _ Hin Hc) in Hline. discriminate.
Qed.

(** The lines of a sanitized text are the rewritten lines of the text. *)
Lemma split_sanitizeCsetMsg msg repo :
  Py.split Py.nl (sanitizeCsetMsg msg repo)
  = map (sanitize_line repo) (Py.split Py.nl msg).
Proof.
  rewrite sanitizeCsetMsg_lines. apply split_join.
  - pose proof (split_not_nil Py.nl msg).
    by destruct (Py.split Py.nl msg).
  - apply Forall_map. eapply Forall_impl; [apply split_sep_free|].
    intros l Hl. by apply sanitize_line_no_newline.
Qed.

(** A split at the last separator of a text. *)
Lemma split_app_sep_general sep a b :
  Py.split sep (a +:+ String sep b) = (Py.split sep a ++ Py.split sep b)%list.
Proof.
  induction a as [|c a IH]; simpl.
  - by rewrite Ascii.eqb_refl.
  - destruct (Ascii.eqb c sep); [by rewrite IH|].
    rewrite IH. pose proof (split_not_nil sep a) as Hne.
    by destruct (Py.split sep a).
Qed.

Lemma but_last_snoc {A} (l : list A) x : Py.but_last (l ++ [x]) = l.
Proof. apply removelast_last. Qed.

Lemma last_of_snoc l x : Py.last_of (l ++ [x]) = x.
Proof. apply last_last. Qed.

(** C9. In the message sanitizer at most one rewrite is applied to a
    line, and the email rule comes first.  The lines of the sanitized
    text are the lines of the text, each rewritten once.  A line with a
    ['<'], an ['@'] and a ['>'] loses its last space-delimited token,
    and the space before it, and nothing else: [pre ++ " " ++ tok]
    becomes [pre], and a line without a space becomes empty, whatever
    the repository and whether or not the line begins with
    ['changeset:'].  A line becomes the changeset URL followed by the
    text after its last colon when the email condition is false, it
    begins with ['changeset:'] and the repository path contains
    ['mozilla-central'].  Every other line is left as it is. *)
Theorem sanitizer_email_rule_first (msg repo : string) :
  (Py.split Py.nl (sanitizeCsetMsg msg repo)
   = map (sanitize_line repo) (Py.split Py.nl msg)
   ∧ sanitizeCsetMsg msg repo
     = Py.join nl_string (map (sanitize_line repo) (Py.split Py.nl msg)))
  ∧ ∀ pre tok node line : string,
      (mem_char " " tok = false →
       email_shaped (pre +:+ String " " tok) = true →
       sanitize_line repo (pre +:+ String " " tok) = pre)
      ∧ (mem_char " " line = false →
         email_shaped line = true →
         sanitize_line repo line = "")
      ∧ (mem_char ":" node = false →
         email_shaped (pre +:+ String ":" node) = false →
         Py.startswith "changeset:" (pre +:+ String ":" node) = true →
         Py.contains "mozilla-central" repo = true →
         sanitize_line repo (pre +:+ String ":" node)
         = "changeset:   https://hg.mozilla.org/mozilla-central/rev/" +:+ node)
      ∧ (email_shaped line = false →
         Py.startswith "changeset:" line = false
         ∨ Py.contains "mozilla-central" repo = false →
         sanitize_line repo line = line).
Proof.
  split; [split; [apply split_sanitizeCsetMsg|apply sanitizeCsetMsg_lines]|].
  intros pre tok node line. unfold sanitize_line, changeset_line. split_and!.
  - intros Htok ->. unfold strip_last_token.
    rewrite split_app_sep_general, (split_sep_free_string _ _ Htok), but_last_snoc.
    apply join_split.
  - intros Hline ->. unfold strip_last_token.
    by rewrite (split_sep_free_string _ _ Hline).
  - intros Hnode -> -> ->. unfold changeset_url.
    by rewrite split_app_sep_general, (split_sep_free_string _ _ Hnode), last_of_snoc.
  - intros -> [-> | ->]; [done|]. by rewrite andb_false_r.
Qed.

Lemma sanitizer_email_rule_first_witness :
  sanitizeCsetMsg
    ("changeset:   7:0123456789ab"
     +:+ String Py.nl ("changeset:   7:0123456789ab <a@b.c> x"
     +:+ String Py.nl "summary:     fix the parser"))
    "/trees/mozilla-central"
  = "changeset:   https://hg.mozilla.org/mozilla-central/rev/0123456789ab"
    +:+ String Py.nl ("changeset:   7:0123456789ab <a@b.c>"
    +:+ String Py.nl "summary:     fix the parser").
Proof.
  pose proof (sanitizer_email_rule_first
                ("changeset:   7:0123456789ab"
                 +:+ String Py.nl ("changeset:   7:0123456789ab <a@b.c> x"
                 +:+ String Py.nl "summary:     fix the parser"))
                "/trees/mozilla-central") as [[_ Hlines] Hline].
  rewrite Hlines.
  change (Py.split Py.nl _)
    with ["changeset:   7" +:+ String ":" "0123456789ab";
          "changeset:   7:0123456789ab <a@b.c>" +:+ String " " "x";
          "summary:     fix the parser"].
  cbn [map].
  destruct (Hline "changeset:   7" "" "0123456789ab" "") as (_ & _ & Hurl & _).
  rewrite Hurl by reflexivity.
  destruct (Hline "changeset:   7:0123456789ab <a@b.c>" "x" "" "") as (Hemail & _).
  rewrite Hemail by reflexivity.
  destruct (Hline "" "" "" "summary:     fix the parser") as (_ & _ & _ & Hkeep).
  rewrite Hkeep by (first [reflexivity|left; reflexivity]).
  reflexivity.
Defined.

(** C7, as stated, fails: on the changeset line that [hg bisect] prints,
    in a mozilla-central repository, a second pass rewrites the URL of
    the first; and a line that keeps its ['<'], ['@'] and ['>'] loses a
    further token on each pass. *)
Lemma sanitize_twice_differs :
  sanitizeCsetMsg
    (sanitizeCsetMsg "changeset:   52121:573c5fa45cc4" "/trees/mozilla-central")
    "/trees/mozilla-central"
  ≠ sanitizeCsetMsg "changeset:   52121:573c5fa45cc4" "/trees/mozilla-central"
  ∧ sanitizeCsetMsg (sanitizeCsetMsg "fix <a@b> handling here" "repo") "repo"
    ≠ sanitizeCsetMsg "fix <a@b> handling here" "repo".
Proof. split; vm_compute; discriminate. Qed.

(** C7, amended. Sanitizing twice gives the same text as sanitizing once
    for every text each of whose lines, once rewritten, no longer meets
    the condition of a rule: it no longer contains all of ['<'], ['@']
    and ['>'], and it does not begin with ['changeset:'] when the
    repository path contains ['mozilla-central']. *)
Theorem sanitize_idempotent_once_settled (msg repo : string) :
  Forall (λ line, triggers repo (sanitize_line repo line) = false)
         (Py.split Py.nl msg) →
  sanitizeCsetMsg (sanitizeCsetMsg msg repo) repo = sanitizeCsetMsg msg repo.
Proof.
  intros Hsettled.
  rewrite (sanitizeCsetMsg_lines (sanitizeCsetMsg msg repo)).
  rewrite split_sanitizeCsetMsg, sanitizeCsetMsg_lines.
  f_equal. rewrite map_map. apply map_ext_Forall.
  eapply Forall_impl; [exact Hsettled|].
  intros line Hline. by apply sanitize_line_settled.
Qed.

Lemma sanitize_idempotent_once_settled_witness :
  sanitizeCsetMsg
    (sanitizeCsetMsg "user:        Jane Doe <jane@example.org>" "/trees/other")
    "/trees/other"
  = sanitizeCsetMsg "user:        Jane Doe <jane@example.org>" "/trees/other".
Proof.
  apply (sanitize_idempotent_once_settled
           "user:        Jane Doe <jane@example.org>" "/trees/other").
  repeat constructor.
Defined.

(** ** The matcher against the meaning of the patterns *)

Section MatcherCorrect.
Context {R : Type}.
Implicit Types (k : Re.mstate → option R).

Lemma star_sound p s n (k : nat → string → option R) x :
  Re.star p s n k = Some x →
  ∃ n' s', star_steps p n s n' s' ∧ k n' s' = Some x.
Proof.
  revert n. induction s as [|c s IH]; intros n; simpl.
  - intros H. exists n, "". split; [constructor|done].
  - destruct (p c) eqn:Hp.
    + destruct (Re.star p s (S n) k) as [y|] eqn:Hs.
      * intros [= ->]. destruct (IH _ Hs) as (n' & s' & Hst & Hk).
        exists n', s'. split; [by constructor|done].
      * intros H. exists n, (String c s). split; [constructor|done].
    + intros H. exists n, (String c s). split; [constructor|done].
Qed.

Lemma star_complete p s n n' s' (k : nat → string → option R) :
  star_steps p n s n' s' → is_Some (k n' s') → is_Some (Re.star p s n k).
Proof.
  induction 1 as [n s|n c s n' s' Hp Hst IH]; intros Hk.
  - destruct s as [|c s]; simpl; [done|].
    destruct (p c); [|done].
    by destruct (Re.star p s (S n) k).
  - simpl. rewrite Hp. destruct (IH Hk) as [y ->]. by eexists.
Qed.

(** Soundness: a result of the matcher comes from a match. *)
Lemma run_sound r st k x :
  Re.run r st k = Some x → ∃ st', matches r st st' ∧ k st' = Some x.
Proof.
  revert st k. induction r as [|p| |r1 IH1 r2 IH2|r1 IH1 r2 IH2|p|n r IH];
    intros st k; simpl.
  - intros H. exists st. split; [constructor|done].
  - destruct st as [n s g]; simpl. destruct s as [|c s]; [done|].
    destruct (p c) eqn:Hp; [|done].
    intros H. eexists. split; [by constructor|done].
  - destruct st as [n s g]; simpl. destruct n; simpl; [|done].
    intros H. eexists. split; [constructor|done].
  - intros H. apply IH1 in H as (st1 & H1 & H).
    apply IH2 in H as (st2 & H2 & H).
    exists st2. split; [by econstructor|done].
  - destruct (Re.run r1 st k) as [y|] eqn:H1.
    + intros [= ->]. apply IH1 in H1 as (st' & H1 & H).
      exists st'. split; [by apply m_alt_l|done].
    + intros H. apply IH2 in H as (st' & H2 & H).
      exists st'. split; [by apply m_alt_r|done].
  - intros H. apply star_sound in H as (n' & s' & Hst & H).
    eexists. split; [by constructor|done].
  - intros H. apply IH in H as (st1 & H1 & H).
    eexists. split; [by constructor|done].
Qed.

(** Completeness: when there is a match that the continuation
    accepts, the matcher finds one. *)
Lemma run_complete r st st' k :
  matches r st st' → is_Some (k st') → is_Some (Re.run r st k).
Proof.
  intros Hm. revert k.
  induction Hm as [st|p c s n g Hp|s g|r1 r2 st st1 st2 _ IH1 _ IH2
                  |r1 r2 st st' _ IH|r1 r2 st st' _ IH|p st n' s' Hst
                  |n r st st1 _ IH]; intros k Hk; simpl.
  - done.
  - by rewrite Hp.
  - done.
  - apply IH1. by apply IH2.
  - destruct (IH k Hk) as [y ->]. by eexists.
  - destruct (Re.run r1 st k) eqn:H1; [by eexists|]. by apply IH.
  - by eapply star_complete.
  - by apply IH.
Qed.
End MatcherCorrect.

(** [re.match] finds a match exactly when the pattern has one. *)
Lemma re_match_sound r s m :
  Re.re_match r s = Some m →
  ∃ st', matches r (Re.MState 0 s ∅) st' ∧ Re.groups st' = m.
Proof.
  unfold Re.re_match. intros H.
  apply run_sound in H as (st' & Hm & [= <-]). by exists st'.
Qed.

Lemma re_match_complete r s st' :
  matches r (Re.MState 0 s ∅) st' → is_Some (Re.re_match r s).
Proof. intros Hm. unfold Re.re_match. eapply run_complete; [done|by eexists]. Qed.

(** ** Strings: concatenation *)

Lemma append_assoc (a b c : string) : (a +:+ b) +:+ c = a +:+ (b +:+ c).
Proof. induction a as [|x a IH]; simpl; [done|]. by rewrite IH. Qed.

Lemma append_length (a b : string) :
  String.length (a +:+ b) = (String.length a + String.length b)%nat.
Proof. induction a as [|x a IH]; simpl; [done|]. by rewrite IH. Qed.

Lemma append_snoc (a : string) (c : ascii) (b : string) :
  (a +:+ String c "") +:+ b = a +:+ String c b.
Proof. by rewrite append_assoc. Qed.

Lemma substring_prefix (w r : string) :
  substring 0 (String.length w) (w +:+ r) = w.
Proof.
  induction w as [|x w IH]; simpl.
  - by destruct r.
  - by rewrite IH.
Qed.

Lemma all_chars_app p a b :
  all_chars p (a +:+ b) = all_chars p a && all_chars p b.
Proof.
  induction a as [|x a IH]; simpl; [done|].
  rewrite IH. by rewrite andb_assoc.
Qed.

(** A newline-free string is a string of [.] characters. *)
Lemma all_dot_no_newline s : mem_char Py.nl s = false → all_chars Re.dot s = true.
Proof.
  induction s as [|c s IH]; simpl; [done|].
  intros H. apply orb_false_iff in H as [Hc Hs].
  unfold Re.dot at 1. rewrite Hc. simpl. by apply IH.
Qed.

(** ** What the patterns of the repository match *)

Lemma star_steps_inv p n s n' s' :
  star_steps p n s n' s' →
  ∃ w, s = w +:+ s' ∧ all_chars p w = true ∧ n' = (n + String.length w)%nat.
Proof.
  induction 1 as [n s|n c s n' s' Hp _ (w & -> & Hw & ->)].
  - exists "". simpl. split_and!; [done..|lia].
  - exists (String c w). simpl. rewrite Hp, Hw. split_and!; [done..|lia].
Qed.

Lemma star_steps_intro p n w s' :
  all_chars p w = true → star_steps p n (w +:+ s') (n + String.length w)%nat s'.
Proof.
  revert n. induction w as [|c w IH]; intros n; simpl.
  - intros _. replace (n + 0)%nat with n by lia. constructor.
  - intros H. apply andb_true_iff in H as [Hc Hw].
    constructor; [done|].
    replace (n + S (String.length w))%nat with (S n + String.length w)%nat by lia.
    by apply IH.
Qed.

(** A state reached from [st] after reading [w], the groups apart. *)
Definition reads (st st' : Re.mstate) (w : string) : Prop :=
  Re.rest st = w +:+ Re.rest st'
  ∧ Re.pos st' = (Re.pos st + String.length w)%nat.

Lemma matches_chr_inv p st st' :
  matches (Re.Chr p) st st' →
  ∃ c, reads st st' (String c "") ∧ p c = true ∧ Re.groups st' = Re.groups st.
Proof.
  inversion 1; subst. exists c. unfold reads. simpl.
  split_and!; [done|lia|done..].
Qed.

Lemma matches_star_inv p st st' :
  matches (Re.Star p) st st' →
  ∃ w, reads st st' w ∧ all_chars p w = true ∧ Re.groups st' = Re.groups st.
Proof.
  inversion 1 as [| | | | | |p0 st0 n' s' Hst|]; subst.
  apply star_steps_inv in Hst as (w & Hs & Hw & ->).
  exists w. unfold reads. simpl. split_and!; done.
Qed.

Lemma matches_seq_inv r1 r2 st st' :
  matches (Re.Seq r1 r2) st st' →
  ∃ st1, matches r1 st st1 ∧ matches r2 st1 st'.
Proof. inversion 1; subst. by eexists. Qed.

Lemma matches_group_inv n r st st' :
  matches (Re.Group n r) st st' →
  ∃ st1, matches r st st1
    ∧ Re.rest st' = Re.rest st1 ∧ Re.pos st' = Re.pos st1
    ∧ Re.groups st'
      = <[n := substring 0 (Re.pos st1 - Re.pos st) (Re.rest st)]> (Re.groups st1).
Proof. inversion 1; subst. eexists. split_and!; done. Qed.

Lemma matches_times_chr_inv n p st st' :
  matches (Re.times n (Re.Chr p)) st st' →
  ∃ w, reads st st' w ∧ String.length w = n ∧ all_chars p w = true
    ∧ Re.groups st' = Re.groups st.
Proof.
  revert st. induction n as [|n IH]; intros st; simpl.
  - inversion 1; subst. exists "". unfold reads. simpl. split_and!; [done|lia|done..].
  - intros H. apply matches_seq_inv in H as (st1 & H1 & H2).
    apply matches_chr_inv in H1 as (c & [Hr Hp] & Hc & Hg).
    apply IH in H2 as (w & [Hr' Hp'] & Hlen & Hw & Hg').
    exists (String c w). unfold reads. simpl. rewrite Hr, Hr', Hc, Hw.
    simpl in *. split_and!; [done|lia|lia|done|congruence].
Qed.

Lemma matches_times_chr_intro p w n s g :
  all_chars p w = true →
  matches (Re.times (String.length w) (Re.Chr p))
    (Re.MState n (w +:+ s) g) (Re.MState (n + String.length w) s g).
Proof.
  revert n. induction w as [|c w IH]; intros n; simpl.
  - intros _. replace (n + 0)%nat with n by lia. constructor.
  - intros H. apply andb_true_iff in H as [Hc Hw].
    eapply m_seq; [by constructor|].
    replace (n + S (String.length w))%nat with (S n + String.length w)%nat by lia.
    by apply IH.
Qed.

(** Group 1 of the changeset pattern, [(^|.* )]: nothing at the start of
    the string, or a prefix that ends with a space. *)
Lemma matches_cset_prefix_inv s g st' :
  matches (Re.Alt Re.Bol (Re.Seq (Re.Star Re.dot) (Re.Chr (Ascii.eqb " "))))
    (Re.MState 0 s g) st' →
  ∃ pre, reads (Re.MState 0 s g) st' pre ∧ (pre = "" ∨ ∃ pre', pre = pre' +:+ " ").
Proof.
  inversion 1 as [| | | |r1 r2 st0 st0' Hb|r1 r2 st0 st0' Hs| |]; subst.
  - inversion Hb; subst. exists "". unfold reads. simpl. split; [done|by left].
  - apply matches_seq_inv in Hs as (st1 & H1 & H2).
    apply matches_star_inv in H1 as (w & [Hr Hp] & _ & _).
    apply matches_chr_inv in H2 as (c & [Hr' Hp'] & Hc & _).
    apply Ascii.eqb_eq in Hc as <-.
    exists (w +:+ " "). unfold reads. simpl in *. split; [|right; by eexists].
    rewrite Hr, Hr', Hp', Hp, append_snoc, append_length. simpl.
    split; [done|lia].
Qed.

(** Soundness of [getCsetHashFromBisectMsg]: what it returns is the
    hash of a changeset token of the string. *)
Lemma getCsetHash_sound s hash :
  hgCmds.getCsetHashFromBisectMsg s = Some hash → cset_token s hash.
Proof.
  unfold hgCmds.getCsetHashFromBisectMsg, Re.group.
  destruct (Re.re_match hgCmds.cset_pattern s) as [m|] eqn:Hm; [|done].
  intros H3. apply re_match_sound in Hm as (st' & Hm & <-).
  unfold hgCmds.cset_pattern, Re.plus in Hm.
  apply matches_seq_inv in Hm as (st1 & Hg1 & Hm).
  apply matches_seq_inv in Hm as (st2 & Hg2 & Hm).
  apply matches_seq_inv in Hm as (st3 & Hcolon & Hm).
  apply matches_seq_inv in Hm as (st4 & Hg3 & Hrest).
  apply matches_group_inv in Hg1 as (sa & Ha & Hra & Hpa & _).
  apply matches_cset_prefix_inv in Ha as (pre & [Hpre _] & Hshape).
  apply matches_group_inv in Hg2 as (sb & Hb & Hrb & Hpb & _).
  apply matches_seq_inv in Hb as (sb1 & Hd & Hds).
  apply matches_chr_inv in Hd as (d & [Hd _] & Hdig & _).
  apply matches_star_inv in Hds as (ds & [Hds _] & Hdigs & _).
  apply matches_chr_inv in Hcolon as (c & [Hc _] & Hcc & _).
  apply Ascii.eqb_eq in Hcc as <-.
  apply matches_group_inv in Hg3 as (sc & Hw & Hrc & Hpc & Hgc).
  apply matches_times_chr_inv in Hw as (w & [Hw Hpw] & Hlen & Hword & _).
  apply matches_star_inv in Hrest as (tl & _ & _ & Hgs).
  rewrite Hgs, Hgc, lookup_insert_eq in H3.
  rewrite Hpw, Hw in H3.
  replace (Re.pos st3 + String.length w - Re.pos st3)%nat
    with (String.length w) in H3 by lia.
  rewrite substring_prefix in H3. injection H3 as <-.
  exists pre, (String d ds), (Re.rest sc). simpl in *.
  split_and!; [|done|done| |done|done].
  - by rewrite Hpre, <- Hra, Hd, Hds, <- Hrb, Hc, Hw.
  - by rewrite Hdig, Hdigs.
Qed.


(** Every match of the changeset pattern fills group 3. *)
Lemma matches_cset_group3 st st' :
  matches hgCmds.cset_pattern st st' → is_Some (Re.groups st' !! 3%nat).
Proof.
  unfold hgCmds.cset_pattern. intros Hm.
  apply matches_seq_inv in Hm as (st1 & _ & Hm).
  apply matches_seq_inv in Hm as (st2 & _ & Hm).
  apply matches_seq_inv in Hm as (st3 & _ & Hm).
  apply matches_seq_inv in Hm as (st4 & Hg3 & Hrest).
  apply matches_group_inv in Hg3 as (sc & _ & _ & _ & Hgc).
  apply matches_star_inv in Hrest as (tl & _ & _ & Hgs).
  rewrite Hgs, Hgc, lookup_insert_eq. by eexists.
Qed.

(** From a number, a colon and twelve word characters on, the rest of
    the changeset pattern has a match. *)
Lemma cset_tail_matches n d ds hash rest g :
  Re.digit d = true → all_chars Re.digit ds = true →
  String.length hash = 12%nat → all_chars Re.word hash = true →
  ∃ st',
    matches
      (Re.Seq (Re.Group 2 (Re.plus Re.digit))
      (Re.Seq (Re.Chr (Ascii.eqb ":"))
      (Re.Seq (Re.Group 3 (Re.times 12 (Re.Chr Re.word)))
              (Re.Star Re.dot))))
      (Re.MState n (String d (ds +:+ String ":" (hash +:+ rest))) g) st'.
Proof.
  intros Hd Hds Hlen Hword. eexists. unfold Re.plus.
  eapply m_seq.
  { apply m_group. eapply m_seq.
    - by apply m_chr.
    - apply m_star. cbn [Re.pos Re.rest]. by apply star_steps_intro. }
  cbn [Re.pos Re.rest Re.groups]. eapply m_seq.
  { apply m_chr. apply Ascii.eqb_refl. }
  eapply m_seq.
  { apply m_group. rewrite <- Hlen. by apply matches_times_chr_intro. }
  apply m_star. apply star_stop.
Qed.

(** A changeset token on a line gives the pattern a match. *)
Lemma cset_token_matches s hash :
  mem_char Py.nl s = false → cset_token s hash →
  ∃ st', matches hgCmds.cset_pattern (Re.MState 0 s ∅) st'.
Proof.
  intros Hnl (pre & digits & rest & -> & Hshape & Hne & Hdig & Hlen & Hword).
  destruct digits as [|d ds]; [done|]. simpl in Hdig.
  apply andb_true_iff in Hdig as [Hd Hds].
  unfold hgCmds.cset_pattern.
  destruct Hshape as [->|(pre' & ->)].
  - simpl.
    edestruct (cset_tail_matches 0 d ds hash rest) as [st' Htail]; [done..|].
    eexists. eapply m_seq; [|exact Htail].
    apply (m_group 1 _ (Re.MState 0 _ ∅) (Re.MState 0 _ ∅)).
    apply m_alt_l. apply m_bol.
  - rewrite append_snoc in *. rewrite mem_char_app in Hnl.
    apply orb_false_iff in Hnl as [Hpre' _].
    edestruct (cset_tail_matches (S (0 + String.length pre')) d ds hash rest)
      as [st' Htail]; [done..|].
    eexists. eapply m_seq; [|exact Htail].
    apply (m_group 1 _ (Re.MState 0 _ ∅) (Re.MState _ _ ∅)).
    apply m_alt_r. eapply m_seq.
    + apply m_star. simpl. apply star_steps_intro. by apply all_dot_no_newline.
    + apply m_chr. apply Ascii.eqb_refl.
Qed.

(** Completeness of [getCsetHashFromBisectMsg] on a line: with a
    changeset token in it, the call returns a hash. *)
Lemma getCsetHash_complete s hash :
  mem_char Py.nl s = false → cset_token s hash →
  is_Some (hgCmds.getCsetHashFromBisectMsg s).
Proof.
  intros Hnl Htok. destruct (cset_token_matches _ _ Hnl Htok) as [st' Hm].
  destruct (re_match_complete _ _ _ Hm) as [m Hre].
  unfold hgCmds.getCsetHashFromBisectMsg. rewrite Hre.
  apply re_match_sound in Hre as (st'' & Hm' & <-).
  by eapply matches_cset_group3.
Qed.

(** ** Telling [hg] a label: [bisectLabel] *)

Lemma line_at_0 (out : string) h :
  line_at (Py.split Py.nl out) 0 h = (Ok (hd "" (Py.split Py.nl out)), h).
Proof.
  pose proof (split_not_nil Py.nl out).
  by destruct (Py.split Py.nl out).
Qed.

Section BisectLabel.
Variables (env : Env) (hgp : list string) (options : Options).
Variables (hgLabel currRev startRepo endRepo : string) (h : History) (out : string).

Let line0 : string := hd "" (Py.split Py.nl out).

Hypothesis label_ok : hgLabel = "good" ∨ hgLabel = "bad" ∨ hgLabel = "skip".
Hypothesis hg_out :
  hg env h (hgp ++ ["bisect"; "-U"; "--" +:+ hgLabel; currRev]) = Ok out.
Hypothesis not_could_be_any : Re.re_match could_be_any_pattern line0 = None.
Hypothesis not_first_revision : Re.re_match first_revision_pattern line0 = None.
Hypothesis not_initial : testInitialRevs options = false.

(** When [hg] names no changeset to test, the call raises: the
    exception of line 236, unless resetting the working copy fails
    first. *)
Lemma bisectLabel_no_changeset :
  hgCmds.getCsetHashFromBisectMsg line0 = None →
  ∃ e,
    (bisectLabel env hgp options hgLabel currRev startRepo endRepo h).1 = Raised e
    ∧ (∀ o,
         hg env
           (EvPrint "Resetting to default revision..." :: EvLog "vdump" line0
            :: EvHg (hgp ++ ["bisect"; "-U"; "--" +:+ hgLabel; currRev]) (Ok out) :: h)
           (hgp ++ ["update"; "-C"; "default"]) = Ok o →
         e = Exception "hg did not suggest a changeset to test!").
Proof.
  intros Hnone. unfold bisectLabel.
  unfold mbind, M_bind, bind, assert, run_hg.
  assert (String.eqb hgLabel "good" || String.eqb hgLabel "bad"
          || String.eqb hgLabel "skip" = true) as ->.
  { by destruct label_ok as [->|[->| ->]]. }
  cbn [mret M_ret ret]. rewrite hg_out, line_at_0. fold line0.
  rewrite not_could_be_any, not_first_revision, not_initial, Hnone.
  unfold log, print, emit, hgCmds.destroyPyc, emit, raise.
  destruct (hg env _ (hgp ++ ["update"; "-C"; "default"])) as [o|e] eqn:Hreset.
  - eexists. split; [reflexivity|]. done.
  - exists e. split; [reflexivity|]. intros o [=].
Qed.

(** When [hg] names the changeset [rev] to test next, the call returns
    it as the current revision, with the boundaries after the update
    of lines 238-246. *)
Lemma bisectLabel_next rev :
  hgCmds.getCsetHashFromBisectMsg line0 = Some rev →
  (bisectLabel env hgp options hgLabel currRev startRepo endRepo h).1
  = Ok (None, None, Some rev,
        (if String.eqb hgLabel "good" then rev else startRepo),
        (if String.eqb hgLabel "bad" then rev else endRepo)).
Proof.
  intros Hsome. unfold bisectLabel.
  unfold mbind, M_bind, bind, assert, run_hg.
  assert (String.eqb hgLabel "good" || String.eqb hgLabel "bad"
          || String.eqb hgLabel "skip" = true) as ->.
  { by destruct label_ok as [->|[->| ->]]. }
  cbn [mret M_ret ret]. rewrite hg_out, line_at_0. fold line0.
  rewrite not_could_be_any, not_first_revision, not_initial, Hsome.
  by destruct label_ok as [->|[->| ->]].
Qed.
End BisectLabel.

(** ** The effect monad *)

Lemma bind_Ok_inv {A B} (m : M A) (k : A → M B) h b h' :
  (m ≫= k) h = (Ok b, h') →
  ∃ a h1, m h = (Ok a, h1) ∧ k a h1 = (Ok b, h').
Proof.
  unfold mbind, M_bind, bind. destruct (m h) as [[a|e] h1]; [|done].
  intros H. by exists a, h1.
Qed.

Lemma bind_Ok {A B} (m : M A) (k : A → M B) h a h1 :
  m h = (Ok a, h1) → (m ≫= k) h = k a h1.
Proof. unfold mbind, M_bind, bind. by intros ->. Qed.

Lemma bind_Raised {A B} (m : M A) (k : A → M B) h e h1 :
  m h = (Raised e, h1) → (m ≫= k) h = (Raised e, h1).
Proof. unfold mbind, M_bind, bind. by intros ->. Qed.

(** ** Removing the compiled files *)

(** After the walk of [destroyPyc] no file ends with [.pyc] outside the
    [.hg] directories. *)
Lemma destroyPyc_walk_pyc_free : ∀ d, pyc_free (hgCmds.destroyPyc_walk d) = true.
Proof.
  fix IH 1. intros [files dirs]. simpl. apply andb_true_iff. split.
  - apply forallb_forall. intros fn Hin. by apply filter_In in Hin as [_ ?].
  - induction dirs as [|[name sub] dirs IHdirs]; simpl; [done|].
    rewrite IHdirs, andb_true_r.
    destruct (String.eqb name ".hg") eqn:Hname; simpl; rewrite Hname; [done|].
    apply IH.
Qed.

(** ** The search loop *)

(** One iteration, case by case. *)
Lemma loop_body_eq env st h :
  loop_body env st h
  = match evaluator env h (current_rev st) with
    | Raised e => (Raised e, EvEvaluator (current_rev st) (Raised e) :: h)
    | Ok label =>
        let st1 := set_labels st (<[current_rev st := label]> (labels st)) in
        let h1 := EvEvaluator (current_rev st) (Ok label) :: h in
        let info := EvLog "info" (label.1 +:+ " (" +:+ label.2 +:+ ") ") in
        if String.eqb label.1 "skip" then
          let st2 := set_skip_count st1 (skip_count st + 1) in
          if skip_count st + 1 >? 20 then
            (Ok (Break, st2),
             EvLog "error" "Reached maximum skip attempts! Exiting" :: h1)
          else (Ok (Continue, set_iter_count st2 (iter_count st + 1)), info :: h1)
        else (Ok (Continue, set_iter_count st1 (iter_count st + 1)), info :: h1)
    end.
Proof.
  unfold loop_body, call_evaluator, mbind, M_bind, bind.
  destruct (evaluator env h (current_rev st)) as [label|e]; [|done].
  simpl. destruct (String.eqb label.1 "skip"); [|done].
  by destruct (skip_count st + 1 >? 20).
Qed.

Lemma skips_in_cons ev evs :
  skips_in (ev :: evs) = (if is_skip_event ev then 1 else 0) + skips_in evs.
Proof.
  unfold skips_in. rewrite filter_cons.
  destruct (is_skip_event ev) eqn:Hev.
  - rewrite decide_True by done. simpl length. lia.
  - rewrite decide_False by done. lia.
Qed.

Lemma skips_in_evaluation rev label msg :
  skips_in [EvLog "info" msg; EvEvaluator rev (Ok label)]
  = if String.eqb label.1 "skip" then 1 else 0.
Proof. rewrite !skips_in_cons. simpl. unfold skips_in. simpl. lia. Qed.

Lemma skips_in_app evs1 evs2 : skips_in (evs1 ++ evs2) = skips_in evs1 + skips_in evs2.
Proof. unfold skips_in. rewrite filter_app, length_app. lia. Qed.

(** One iteration adds 1 to the skip counter for a [skip] answer and
    nothing for another, and breaks exactly when the counter has
    passed 20. *)
Lemma loop_body_skip_count env st h flow st1 h1 :
  (skip_count st ≤ 20)%Z →
  loop_body env st h = (Ok (flow, st1), h1) →
  ∃ label,
    evaluator env h (current_rev st) = Ok label
    ∧ skip_count st1
      = skip_count st + (if String.eqb label.1 "skip" then 1 else 0)
    ∧ (flow = Break ↔ skip_count st1 > 20).
Proof.
  intros Hle. rewrite loop_body_eq.
  destruct (evaluator env h (current_rev st)) as [label|e]; [|done].
  cbn zeta. intros Hrun. exists label. split; [done|].
  destruct (String.eqb label.1 "skip").
  - destruct (skip_count st + 1 >? 20) eqn:Hgt;
      injection Hrun as <- <- <-; simpl.
    + split; [done|]. split; [lia|done].
    + split; [done|]. split; [done|lia].
  - injection Hrun as <- <- <-. simpl. split; [lia|]. split; [done|lia].
Qed.

(** Over a run of the loop the skip counter grows by the number of
    [skip] answers, and the loop is left by the [break] exactly when the
    counter has passed 20. *)
Lemma while_loop_skip_count (env : Env) (fuel : nat) (st : LoopState)
    (h h' : History) (exit : LoopExit) :
  (skip_count st ≤ 20)%Z →
  while_loop env fuel st h = (Ok exit, h') →
  ∃ evs,
    h' = (evs ++ h)%list
    ∧ skip_count (exit_state exit) = skip_count st + skips_in evs
    ∧ (is_broke exit = true ↔ skip_count (exit_state exit) > 20)
    ∧ (is_broke exit = true →
       ∃ evs', evs = EvLog "error" "Reached maximum skip attempts! Exiting" :: evs').
Proof.
  revert st h h' exit. induction fuel as [|fuel IH]; intros st h h' exit Hle; simpl.
  - destruct (current_rev st); intros [= <- <-]; exists []; simpl;
      (split_and!; [done|unfold skips_in; simpl; lia| |done]);
      (split; [done|lia]).
  - destruct (current_rev st) as [rev|] eqn:Hrev.
    2:{ intros [= <- <-]. exists []. simpl.
        split_and!; [done|unfold skips_in; simpl; lia| |done].
        split; [done|lia]. }
    unfold mbind, M_bind, bind. rewrite loop_body_eq, Hrev.
    destruct (evaluator env h (Some rev)) as [label|e]; [|done].
    cbn zeta. destruct (String.eqb label.1 "skip") eqn:Hskip.
    + destruct (skip_count st + 1 >? 20) eqn:Hgt.
      * intros [= <- <-]. eexists [_; _]. simpl.
        split_and!; [done| | |by eexists].
        -- rewrite !skips_in_cons. simpl. rewrite Hskip.
           unfold skips_in. simpl. lia.
        -- split; [lia|done].
      * intros Hrun. apply IH in Hrun as (evs & -> & Hcount & Hbroke & Hlog).
        2:{ simpl. lia. }
        eexists (evs ++ [_; _])%list. rewrite <- app_assoc. simpl in *.
        split_and!; [done| |done|].
        -- rewrite Hcount, skips_in_app, skips_in_evaluation, Hskip. lia.
        -- intros Hb. destruct (Hlog Hb) as [evs' ->]. by eexists.
    + intros Hrun. apply IH in Hrun as (evs & -> & Hcount & Hbroke & Hlog).
      2:{ simpl. lia. }
      eexists (evs ++ [_; _])%list. rewrite <- app_assoc. simpl in *.
      split_and!; [done| |done|].
      * rewrite Hcount, skips_in_app, skips_in_evaluation, Hskip. lia.
      * intros Hb. destruct (Hlog Hb) as [evs' ->]. by eexists.
Qed.

(** With an evaluator that answers [skip] to every call, the loop is
    left by the [break], at the evaluation that brings the counter to
    21. *)
Lemma loop_breaks_at_skip_limit (env : Env) (st : LoopState) (h : History)
    (fuel : nat) :
  (∀ h rev, ∃ reason, evaluator env h rev = Ok ("skip", reason)) →
  current_rev st ≠ None →
  (0 ≤ skip_count st ≤ 20)%Z →
  (21 - skip_count st ≤ Z.of_nat fuel)%Z →
  ∃ st' h',
    while_loop env fuel st h = (Ok (Broke st'), h')
    ∧ skip_count st' = 21
    ∧ iter_count st' = iter_count st + (20 - skip_count st).
Proof.
  intros Henv. revert st h.
  induction fuel as [|fuel IH]; intros st h Hrev Hskip Hfuel; [lia|].
  simpl. destruct (current_rev st) as [rev|] eqn:Hcur; [|done].
  unfold mbind, M_bind, bind. rewrite loop_body_eq, Hcur.
  destruct (Henv h (Some rev)) as [reason ->]. cbn zeta.
  change (String.eqb ("skip", reason).1 "skip") with true. cbn iota.
  destruct (skip_count st + 1 >? 20) eqn:Hgt.
  - eexists _, _. split; [done|]. simpl. lia.
  - edestruct (IH (set_iter_count
                     (set_skip_count
                        (set_labels st (<[Some rev := ("skip", reason)]> (labels st)))
                        (skip_count st + 1))
                     (iter_count st + 1))) as (st' & h' & -> & Hs & Hi).
    + simpl. by rewrite Hcur.
    + simpl. lia.
    + simpl. lia.
    + exists st', h'. split; [done|]. simpl in *. lia.
Qed.

(** The search up to its loop, in a repository that answers: the loop
    is entered, with some history. *)
Lemma search_enters_loop env self start end_ fuel h :
  hg_succeeds env →
  ∃ h1,
    search env self start end_ fuel h
    = (exit ← while_loop env fuel (initial_state self);
       match exit with
       | Running _ => mret StillSearching
       | CondFalse _ | Broke _ =>
           blame_check ;;
           cleanup env self ;;
           mret Completed
       end) h1.
Proof.
  intros Hhg. unfold search.
  unfold mbind at 1, M_bind at 1, bind at 1. cbn [log emit].
  set (h0 := EvLog "info" _ :: h).
  destruct (Hhg h0 (hg_prefix self ++ ["bisect"; "-r"])%list) as [o1 H1].
  assert (run_hg env (hg_prefix self ++ ["bisect"; "-r"])%list h0
          = (Ok o1, EvHg (hg_prefix self ++ ["bisect"; "-r"])%list (Ok o1) :: h0)) as Hreset.
  { unfold run_hg. by rewrite H1. }
  rewrite (bind_Ok _ _ _ _ _ Hreset).
  set (h2 := EvHg _ (Ok o1) :: h0).
  destruct (truthy (skip_revs self)).
  - set (h3 := EvLog "info" ("Skipping revisions matching: " +:+ py_str (skip_revs self))
               :: h2).
    destruct (Hhg h3 (hg_prefix self ++ ["bisect"; "--skip"; py_str (skip_revs self)])%list)
      as [o2 H2].
    exists (EvHg (hg_prefix self ++ ["bisect"; "--skip"; py_str (skip_revs self)])%list (Ok o2)
            :: h3).
    unfold mbind at 1, M_bind at 1, bind at 1.
    unfold mbind at 1, M_bind at 1, bind at 1. cbn [log emit]. fold h3.
    unfold mbind at 1, M_bind at 1, bind at 1, run_hg at 1. cbv zeta.
    by rewrite !H2.
  - by exists h2.
Qed.

(** C1, on the code.  In the search loop the skip counter increases by
    exactly 1 for each evaluation classified [skip] and by 0 for every
    other one, in one iteration and so over a run, and the loop is left
    by the [break] that follows the error message if and only if the
    skip counter exceeds 20.  The abort gives no result: with an
    evaluator that answers [skip] to every call, in a repository that
    answers, the search breaks at the 21st skip and then raises
    [NameError], at the test of line 119 that reads [blamedRev]; it does
    not return. *)
Theorem skip_limit_gives_no_result (env : Env) :
  (∀ (st : LoopState) (h : History),
     (skip_count st ≤ 20)%Z →
     (∀ flow st1 h1,
        loop_body env st h = (Ok (flow, st1), h1) →
        ∃ label,
          evaluator env h (current_rev st) = Ok label
          ∧ skip_count st1
            = skip_count st + (if String.eqb label.1 "skip" then 1 else 0)
          ∧ (flow = Break ↔ skip_count st1 > 20))
     ∧ (∀ fuel exit h',
          while_loop env fuel st h = (Ok exit, h') →
          ∃ evs,
            h' = (evs ++ h)%list
            ∧ skip_count (exit_state exit) = skip_count st + skips_in evs
            ∧ (is_broke exit = true ↔ skip_count (exit_state exit) > 20)
            ∧ (is_broke exit = true →
               ∃ evs',
                 evs = EvLog "error" "Reached maximum skip attempts! Exiting" :: evs')))
  ∧ (hg_succeeds env →
     (∀ h rev, ∃ reason, evaluator env h rev = Ok ("skip", reason)) →
     ∀ (self : Bisector) (start end_ : string) (fuel : nat) (h : History),
       baseline self ≠ None →
       (21 ≤ fuel)%nat →
       ∃ st h1 evs,
         while_loop env fuel (initial_state self) h1 = (Ok (Broke st), (evs ++ h1)%list)
         ∧ skip_count st = 21
         ∧ skips_in evs = 21
         ∧ search env self start end_ fuel h
           = (Raised (NameError "blamedRev"), (evs ++ h1)%list)).
Proof.
  split.
  - intros st h Hle. split.
    + intros flow st1 h1. by apply loop_body_skip_count.
    + intros fuel exit h'. by apply while_loop_skip_count.
  - intros Hhg Hskip self start end_ fuel h Hbase Hfuel.
    destruct (search_enters_loop env self start end_ fuel h Hhg) as [h1 ->].
    destruct (loop_breaks_at_skip_limit env (initial_state self) h1 fuel Hskip)
      as (st & h' & Hloop & Hcount & _); [done|simpl; lia|simpl; lia|].
    destruct (while_loop_skip_count env fuel (initial_state self) h1 h' (Broke st))
      as (evs & -> & Hskips & _); [simpl; lia|done|].
    exists st, h1, evs. split_and!; [done|done|simpl in Hskips; lia|].
    by rewrite (bind_Ok _ _ _ _ _ Hloop).
Qed.

Lemma skip_limit_gives_no_result_witness :
  ∃ st h1 evs,
    while_loop (Examples.env_const ("skip", "x")) 30
      (initial_state Examples.established_session) h1
    = (Ok (Broke st), (evs ++ h1)%list)
    ∧ skip_count st = 21
    ∧ skips_in evs = 21
    ∧ search (Examples.env_const ("skip", "x")) Examples.established_session
        "s" "e" 30 []
      = (Raised (NameError "blamedRev"), (evs ++ h1)%list).
Proof.
  apply (proj2 (skip_limit_gives_no_result (Examples.env_const ("skip", "x")))).
  - intros h args. by eexists.
  - intros h rev. by exists "x".
  - discriminate.
  - lia.
Defined.

(** An evaluator that never answers [skip] keeps the loop running for
    as many iterations as it is given. *)
Lemma loop_keeps_running env :
  (∀ h rev, ∃ label, evaluator env h rev = Ok label ∧ String.eqb label.1 "skip" = false) →
  ∀ fuel st h, current_rev st ≠ None →
  ∃ st' h',
    while_loop env fuel st h = (Ok (Running st'), h')
    ∧ iter_count st' = iter_count st + Z.of_nat fuel.
Proof.
  intros Henv fuel. induction fuel as [|fuel IH]; intros st h Hrev; simpl.
  - destruct (current_rev st); [|done]. exists st, h. split; [done|lia].
  - destruct (current_rev st) as [rev|] eqn:Hcur; [|done].
    unfold mbind, M_bind, bind. rewrite loop_body_eq, Hcur.
    destruct (Henv h (Some rev)) as (label & -> & Hns). cbn zeta. rewrite Hns.
    edestruct (IH (set_iter_count
                     (set_labels st (<[Some rev := label]> (labels st)))
                     (iter_count st + 1))) as (st' & h' & -> & Hiter).
    { simpl. by rewrite Hcur. }
    exists st', h'. split; [done|]. rewrite Hiter. simpl. lia.
Qed.

(** C3, on the code: the iteration counter is never compared with
    [MAX_ITERATIONS].  With an evaluator that answers [good], the loop
    has run 150 iterations, the counter is at 151, and the loop neither
    stopped nor raised. *)
Theorem iteration_cap_not_enforced :
  ∃ st h',
    while_loop (Examples.env_const ("good", "x")) 150
      (initial_state Examples.established_session) [] = (Ok (Running st), h')
    ∧ iter_count st = 151
    ∧ iter_count st > MAX_ITERATIONS.
Proof.
  destruct (loop_keeps_running (Examples.env_const ("good", "x"))
              (λ _ _, ex_intro _ ("good", "x") (conj eq_refl eq_refl))
              150 (initial_state Examples.established_session) [])
    as (st & h' & Hrun & Hiter); [discriminate|].
  exists st, h'. split; [exact Hrun|]. rewrite Hiter.
  vm_compute. split; reflexivity.
Qed.

(** ** The end of a bisection *)

Lemma blame_check_raises h : blame_check h = (Raised (NameError "blamedRev"), h).
Proof. reflexivity. Qed.

(** No call of [bisect] reaches the end of the function. *)
Lemma bisect_never_completes env self fuel h :
  (bisect env self fuel h).1 ≠ Ok Completed.
Proof.
  destruct (bisect env self fuel h) as [r h'] eqn:Hrun. simpl. intros ->.
  unfold bisect in Hrun.
  do 3 (apply bind_Ok_inv in Hrun as (? & ? & _ & Hrun)).
  apply bind_Ok_inv in Hrun as ([[start ?] ?] & ? & _ & Hrun).
  apply bind_Ok_inv in Hrun as ([[end_ ?] ?] & ? & _ & Hrun).
  unfold bisect_range in Hrun.
  apply bind_Ok_inv in Hrun as ([established self'] & ? & _ & Hrun).
  destruct established.
  - apply bind_Ok_inv in Hrun as (? & ? & _ & Hrun).
    unfold search in Hrun.
    do 3 (apply bind_Ok_inv in Hrun as (? & ? & _ & Hrun)).
    apply bind_Ok_inv in Hrun as (exit & ? & _ & Hrun).
    destruct exit as [st|st|st].
    + apply bind_Ok_inv in Hrun as (? & ? & Hcheck & _).
      by rewrite blame_check_raises in Hcheck.
    + apply bind_Ok_inv in Hrun as (? & ? & Hcheck & _).
      by rewrite blame_check_raises in Hcheck.
    + done.
  - apply bind_Ok_inv in Hrun as (? & ? & _ & Hrun). done.
Qed.

(** *** The events of a run *)

Section Emits.
Context {P : Event → Prop}.

Lemma emits_ret {A} (a : A) : emits P (mret a).
Proof. intros h r h' [= <- <-]. by exists []. Qed.

Lemma emits_raise {A} e : emits P (raise e : M A).
Proof. intros h r h' [= <- <-]. by exists []. Qed.

Lemma emits_emit ev : P ev → emits P (emit ev).
Proof. intros Hev h r h' [= <- <-]. exists [ev]. split; [done|]. by constructor. Qed.

Lemma emits_bind {A B} (m : M A) (k : A → M B) :
  emits P m → (∀ a, emits P (k a)) → emits P (m ≫= k).
Proof.
  intros Hm Hk h r h'. unfold mbind, M_bind, bind.
  destruct (m h) as [[a|e] h1] eqn:Hrun.
  - intros Hrest. destruct (Hm _ _ _ Hrun) as (evs1 & -> & H1).
    destruct (Hk a _ _ _ Hrest) as (evs2 & -> & H2).
    exists (evs2 ++ evs1)%list. split; [by rewrite app_assoc|].
    by apply Forall_app.
  - intros [= <- <-]. by eapply Hm.
Qed.

(** What follows a computation that raises is not run. *)
Lemma emits_after_raise {A B} (m : M A) (k : A → M B) e :
  (∀ h, m h = (Raised e, h)) → emits P (m ≫= k).
Proof.
  intros Hm h r h'. rewrite (bind_Raised _ _ _ _ _ (Hm h)).
  intros [= <- <-]. by exists [].
Qed.

Lemma emits_run_hg env args :
  (∀ out, P (EvHg args out)) → emits P (run_hg env args).
Proof.
  intros HP h r h' [= <- <-]. exists [EvHg args (hg env h args)].
  split; [done|]. by constructor.
Qed.

Lemma emits_evaluate_testcase env rev :
  (∀ out, P (EvTestcase rev out)) → emits P (call_evaluate_testcase env rev).
Proof.
  intros HP h r h' [= <- <-]. eexists [_]. split; [done|]. by constructor.
Qed.

Lemma emits_evaluator env rev :
  (∀ out, P (EvEvaluator rev out)) → emits P (call_evaluator env rev).
Proof.
  intros HP h r h' [= <- <-]. eexists [_]. split; [done|]. by constructor.
Qed.

Lemma emits_raw_input env prompt :
  (∀ answer, P (EvRawInput prompt answer)) → emits P (call_raw_input env prompt).
Proof.
  intros HP h r h' [= <- <-]. eexists [_]. split; [done|]. by constructor.
Qed.
End Emits.

(** One step of a proof that a computation emits only events that are
    not those of the cleanup. *)
Ltac emits_step :=
  first
    [ apply emits_ret
    | apply emits_raise
    | apply emits_emit; reflexivity
    | apply emits_run_hg; intros; reflexivity
    | apply emits_evaluate_testcase; intros; reflexivity
    | apply emits_evaluator; intros; reflexivity
    | apply emits_raw_input; intros; reflexivity
    | apply emits_bind; [|intros] ].

(** No run of [bisect] removes the compiled files: the call of
    [destroyPyc] is never reached, however the run ends. *)
Lemma bisect_never_destroys_pyc env self fuel h r h' :
  bisect env self fuel h = (r, h') →
  ∃ evs, h' = (evs ++ h)%list ∧ Forall (λ ev, is_destroy_pyc self ev = false) evs.
Proof.
  revert h r h'. change (emits (λ ev, is_destroy_pyc self ev = false) (bisect env self fuel)).
  assert (∀ repo rev, emits (λ ev, is_destroy_pyc self ev = false)
                        (hgCmds.getRepoHashAndId env repo rev)) as Hresolve.
  { intros repo rev. unfold hgCmds.getRepoHashAndId, assert, log, print.
    repeat (emits_step || case_match). }
  assert (∀ self0 start end_, emits (λ ev, is_destroy_pyc self ev = false)
                                (establish_baseline env self0 start end_)) as Hbase.
  { intros self0 start end_. unfold establish_baseline, log.
    repeat (emits_step || case_match). }
  assert (∀ n st, emits (λ ev, is_destroy_pyc self ev = false)
                    (while_loop env n st)) as Hloop.
  { induction n as [|n IH]; intros st; simpl.
    - repeat (emits_step || case_match).
    - destruct (current_rev st); [|emits_step].
      apply emits_bind.
      + unfold loop_body, loop_rest, log. repeat (emits_step || case_match).
      + intros [[] st']; [apply IH|emits_step]. }
  unfold bisect.
  apply emits_bind; [unfold log; emits_step|intros _].
  apply emits_bind; [emits_step|intros _].
  apply emits_bind; [emits_step|intros _].
  apply emits_bind; [apply Hresolve|intros [[start ?] ?]].
  apply emits_bind; [apply Hresolve|intros [[end_ ?] ?]].
  unfold bisect_range. apply emits_bind; [apply Hbase|intros [[] self']].
  - apply emits_bind; [unfold log; emits_step|intros _]. unfold search.
    apply emits_bind; [unfold log; emits_step|intros _].
    apply emits_bind; [emits_step|intros _].
    apply emits_bind; [destruct (truthy _); unfold log; repeat emits_step|intros _].
    apply emits_bind; [apply Hloop|intros [st|st|st]].
    + by apply (emits_after_raise _ _ (NameError "blamedRev")).
    + by apply (emits_after_raise _ _ (NameError "blamedRev")).
    + emits_step.
  - unfold log. repeat emits_step.
Qed.

(** In no run of [bisect] do the events of the run contain the cleanup
    phase. *)
Lemma bisect_never_cleans_up env self fuel h :
  ∃ evs,
    (bisect env self fuel h).2 = (evs ++ h)%list ∧ cleaned_up self evs = false.
Proof.
  destruct (bisect env self fuel h) as [r h'] eqn:Hrun.
  destruct (bisect_never_destroys_pyc _ _ _ _ _ _ Hrun) as (evs & -> & Hevs).
  exists evs. split; [done|]. unfold cleaned_up.
  assert (existsb (is_destroy_pyc self) evs = false) as ->.
  { apply not_true_is_false. intros Hex.
    apply existsb_exists in Hex as (ev & Hin & Hev).
    rewrite Forall_forall in Hevs.
    apply list_elem_of_In in Hin. by rewrite (Hevs ev Hin) in Hev. }
  by rewrite andb_false_r.
Qed.

(** C8, on the code: the cleanup phase is not reached.  After the skip
    limit the test of line 119 raises [NameError]; an interrupt of the
    evaluator leaves [bisect] at once; and the [return] that follows a
    failed baseline comes before the cleanup.  In none of the three
    histories was the bisect state reset, the working copy restored or
    the compiled files removed. *)
Theorem cleanup_not_reached :
  ((bisect (Examples.env_const ("skip", "x")) Examples.session 30 []).1
     = Raised (NameError "blamedRev")
   ∧ cleaned_up Examples.session
       (bisect (Examples.env_const ("skip", "x")) Examples.session 30 []).2 = false)
  ∧ ((bisect Examples.env_interrupted Examples.session 30 []).1
       = Raised KeyboardInterrupt
     ∧ cleaned_up Examples.session
         (bisect Examples.env_interrupted Examples.session 30 []).2 = false)
  ∧ ((bisect Examples.env_always_crashes Examples.session 30 []).1 = Ok NoBaseline
     ∧ cleaned_up Examples.session
         (bisect Examples.env_always_crashes Examples.session 30 []).2 = false).
Proof. by vm_compute. Qed.

(** ** Establishing the baseline *)

(** With a consistent testcase, what [establish_baseline] returns. *)
Lemma establish_baseline_returns env verdict self start end_ h b self' :
  consistent_testcase env verdict →
  (establish_baseline env self start end_ h).1 = Ok (b, self') →
  b = match classify_result (verdict end_), classify_result (verdict start) with
      | BAD, GOOD => true
      | _, _ => false
      end
  ∧ baseline self' = verdict end_.
Proof.
  intros Hc. unfold establish_baseline, log, emit, run_hg, call_evaluate_testcase.
  unfold mbind, M_bind, bind. cbn [mret M_ret ret].
  destruct (hg env _ (hg_prefix self ++ ["update"; "-r"; end_])) as [o1|e1]; [|done].
  rewrite !Hc. cbn [baseline set_baseline].
  destruct (verdict end_) as [r|] eqn:Hend; cbn [is_skip_value orb].
  2:{ intros [= <- <-]. done. }
  unfold classify_result at 1.
  destruct (String.eqb r "skip") eqn:Hskip.
  { intros [= <- <-]. done. }
  destruct (hg env _ _) as [o2|e2]; [|done].
  rewrite !Hc.
  destruct (verdict start) as [r'|] eqn:Hstart; intros [= <- <-]; simpl.
  - split; [|done]. by destruct (String.eqb r' "skip").
  - done.
Qed.

(** Without a failing subprocess and with a testcase that answers,
    [establish_baseline] returns. *)
Lemma establish_baseline_total env verdict self start end_ h :
  consistent_testcase env verdict → hg_succeeds env →
  ∃ b self', (establish_baseline env self start end_ h).1 = Ok (b, self').
Proof.
  intros Hc Hhg. unfold establish_baseline, log, emit, run_hg, call_evaluate_testcase.
  unfold mbind, M_bind, bind. cbn [mret M_ret ret].
  destruct (Hhg (EvLog "info" "Attempting to establish baseline for testcase" :: h)
              (hg_prefix self ++ ["update"; "-r"; end_])%list) as [o1 ->].
  rewrite !Hc. cbn [baseline set_baseline].
  destruct (_ || _); [by eexists _, _|].
  match goal with |- context [hg env ?h' ?a] => destruct (Hhg h' a) as [o2 ->] end.
  rewrite !Hc. destruct (verdict start); by eexists _, _.
Qed.

(** After a failed baseline [bisect] returns at once. *)
Lemma bisect_range_no_baseline env self start end_ fuel h self' h1 :
  establish_baseline env self start end_ h = (Ok (false, self'), h1) →
  bisect_range env self start end_ fuel h
  = (Ok NoBaseline,
     EvLog "error" ("Unable to perform bisection because the we were unable to "
                    +:+ "establish a baseline.  Exiting!") :: h1).
Proof. intros H. unfold bisect_range. by rewrite (bind_Ok _ _ _ _ _ H). Qed.

Lemma bisect_range_baseline_raises env self start end_ fuel h e h1 :
  establish_baseline env self start end_ h = (Raised e, h1) →
  bisect_range env self start end_ fuel h = (Raised e, h1).
Proof. intros H. unfold bisect_range. by rewrite (bind_Raised _ _ _ _ _ H). Qed.

(** C2. With a testcase that gives each revision one verdict, baseline
    establishment succeeds only when the end revision is BAD and the
    start revision is GOOD; it fails whenever the two classifications
    are equal or either is SKIP; it does return when no subprocess
    fails; and after a failure [bisect] returns without entering the
    search loop: it only logs the error. *)
Theorem baseline_establishment (env : Env) (verdict : string → PyVal)
    (self : Bisector) (start end_ : string) (h : History) :
  consistent_testcase env verdict →
  (∀ b self', (establish_baseline env self start end_ h).1 = Ok (b, self') →
     (b = true ↔ classify_result (verdict end_) = BAD
                 ∧ classify_result (verdict start) = GOOD)
     ∧ (classify_result (verdict start) = classify_result (verdict end_)
        ∨ classify_result (verdict start) = SKIP
        ∨ classify_result (verdict end_) = SKIP → b = false))
  ∧ (hg_succeeds env →
     ∃ b self', (establish_baseline env self start end_ h).1 = Ok (b, self'))
  ∧ (∀ fuel self' h1,
       establish_baseline env self start end_ h = (Ok (false, self'), h1) →
       bisect_range env self start end_ fuel h
       = (Ok NoBaseline,
          EvLog "error" ("Unable to perform bisection because the we were unable to "
                         +:+ "establish a baseline.  Exiting!") :: h1)).
Proof.
  intros Hc. split_and!.
  - intros b self' Hret.
    destruct (establish_baseline_returns _ _ _ _ _ _ _ _ Hc Hret) as [-> _].
    destruct (classify_result (verdict end_)), (classify_result (verdict start));
      (split; [split; [by intros [=]|by intros [[=] [=]]]|]);
      try done; by intros [[=]|[[=]|[=]]].
  - intros Hhg. by eapply establish_baseline_total.
  - intros fuel self' h1. apply bisect_range_no_baseline.
Qed.

Lemma baseline_establishment_witness :
  (true = true ↔ classify_result (Examples.verdict_at_e "e") = BAD
                 ∧ classify_result (Examples.verdict_at_e "s") = GOOD)
  ∧ ∃ b self',
      (establish_baseline (Examples.env_const ("good", "")) Examples.session
         "s" "e" []).1 = Ok (b, self').
Proof.
  pose proof (baseline_establishment (Examples.env_const ("good", ""))
                Examples.verdict_at_e Examples.session "s" "e" []
                (λ _ _, eq_refl)) as (H1 & H2 & _).
  split.
  - apply (H1 true (set_baseline Examples.session (Some "crash"))). reflexivity.
  - apply H2. intros h args. eexists. reflexivity.
Defined.

(** ** The window update of [bisectLabel] *)

(** C4, on the code: line 231 assigns the changeset that [hg] goes on
    to test to [currRev] before lines 241-244 read it.  Labelling the
    candidate [aaaaaaaaaaaa] as [bad], with [hg] going on to
    [bbbbbbbbbbbb], sets the bad boundary to [bbbbbbbbbbbb], which has
    no label, and not to the candidate. *)
Theorem window_update_takes_next_changeset :
  (bisectLabel (Examples.env_reply Examples.testing_next) ["hg"; "-R"; "repo"]
     Examples.options "bad" "aaaaaaaaaaaa" "start" "end" []).1
  = Ok (None, None, Some "bbbbbbbbbbbb", "start", "bbbbbbbbbbbb")
  ∧ (bisectLabel (Examples.env_reply Examples.testing_next) ["hg"; "-R"; "repo"]
       Examples.options "good" "aaaaaaaaaaaa" "start" "end" []).1
    = Ok (None, None, Some "bbbbbbbbbbbb", "bbbbbbbbbbbb", "end").
Proof. split; vm_compute; reflexivity. Qed.

(** ** The changeset hash of a bisect message *)

(** C10. [getCsetHashFromBisectMsg] returns a hash only for a string
    with a changeset token (a decimal number, a colon and twelve word
    characters, at the start of the string or after a space), and then
    the twelve characters of such a token; it returns [None] for every
    string without one; on a line, that is a string without a newline,
    a token makes it return a hash; and when [hg] names no changeset to
    test, [bisectLabel] raises: the exception "hg did not suggest a
    changeset to test!", unless resetting the working copy fails
    before. *)
Theorem getCsetHashFromBisectMsg_spec :
  (∀ s hash, hgCmds.getCsetHashFromBisectMsg s = Some hash → cset_token s hash)
  ∧ (∀ s, (∀ hash, ¬ cset_token s hash) → hgCmds.getCsetHashFromBisectMsg s = None)
  ∧ (∀ s hash, mem_char Py.nl s = false → cset_token s hash →
       ∃ hash', hgCmds.getCsetHashFromBisectMsg s = Some hash' ∧ cset_token s hash')
  ∧ (∀ env hgp options hgLabel currRev startRepo endRepo h out,
       hgLabel = "good" ∨ hgLabel = "bad" ∨ hgLabel = "skip" →
       hg env h (hgp ++ ["bisect"; "-U"; "--" +:+ hgLabel; currRev]) = Ok out →
       Re.re_match could_be_any_pattern (hd "" (Py.split Py.nl out)) = None →
       Re.re_match first_revision_pattern (hd "" (Py.split Py.nl out)) = None →
       testInitialRevs options = false →
       hgCmds.getCsetHashFromBisectMsg (hd "" (Py.split Py.nl out)) = None →
       ∃ e,
         (bisectLabel env hgp options hgLabel currRev startRepo endRepo h).1 = Raised e
         ∧ (∀ o,
              hg env
                (EvPrint "Resetting to default revision..."
                 :: EvLog "vdump" (hd "" (Py.split Py.nl out))
                 :: EvHg (hgp ++ ["bisect"; "-U"; "--" +:+ hgLabel; currRev]) (Ok out)
                 :: h)
                (hgp ++ ["update"; "-C"; "default"]) = Ok o →
              e = Exception "hg did not suggest a changeset to test!")).
Proof.
  split_and!.
  - apply getCsetHash_sound.
  - intros s Hnone.
    destruct (hgCmds.getCsetHashFromBisectMsg s) as [hash|] eqn:Hret; [|done].
    destruct (Hnone hash). by apply getCsetHash_sound.
  - intros s hash Hnl Htok.
    destruct (getCsetHash_complete s hash Hnl Htok) as [hash' Hret].
    exists hash'. split; [done|]. by apply getCsetHash_sound.
  - intros. by eapply bisectLabel_no_changeset.
Qed.

Lemma getCsetHashFromBisectMsg_spec_witness :
  cset_token "Testing changeset 41831:4f4c01fb42c3 (2 changesets remaining, ~1 tests)"
    "4f4c01fb42c3"
  ∧ ∃ e,
      (bisectLabel (Examples.env_reply "abort: nothing to test") ["hg"; "-R"; "repo"]
         Examples.options "skip" "aaaaaaaaaaaa" "start" "end" []).1 = Raised e
      ∧ (∀ o,
           hg (Examples.env_reply "abort: nothing to test")
             (EvPrint "Resetting to default revision..."
              :: EvLog "vdump" (hd "" (Py.split Py.nl "abort: nothing to test"))
              :: EvHg (["hg"; "-R"; "repo"] ++ ["bisect"; "-U"; "--" +:+ "skip"; "aaaaaaaaaaaa"])
                   (Ok "abort: nothing to test")
              :: [])
             (["hg"; "-R"; "repo"] ++ ["update"; "-C"; "default"]) = Ok o →
           e = Exception "hg did not suggest a changeset to test!").
Proof.
  pose proof getCsetHashFromBisectMsg_spec as (Hsound & _ & _ & Hcaller).
  split.
  - apply Hsound. vm_compute. reflexivity.
  - apply Hcaller.
    + right. right. reflexivity.
    + reflexivity.
    + vm_compute. reflexivity.
    + vm_compute. reflexivity.
    + reflexivity.
    + vm_compute. reflexivity.
Defined.

(** ** The blame verifier *)

Lemma isAncestor_oracle env repo anc a b h :
  ancestor_oracle env repo anc →
  hgCmds.isAncestor env repo a b h
  = (Ok (descendant_of anc a b),
     EvHg (hgCmds.ancestor_cmd repo a b) (Ok (anc a b)) :: h).
Proof.
  intros Hanc. unfold hgCmds.isAncestor, hgCmds.findCommonAncestor, run_hg.
  unfold mbind, M_bind, bind. cbv beta zeta. by rewrite !Hanc.
Qed.

Lemma isAncestor_total env repo a b h :
  hg_succeeds env → ∃ r h1, hgCmds.isAncestor env repo a b h = (Ok r, h1).
Proof.
  intros Hhg. unfold hgCmds.isAncestor, hgCmds.findCommonAncestor, run_hg.
  unfold mbind, M_bind, bind. cbv beta zeta.
  destruct (Hhg h (hgCmds.ancestor_cmd repo a b)) as [o ->]. by eexists _, _.
Qed.

Section CheckParent.
Variables (env : Env) (repo blamed start end_ : string).

(** Judging a parent leaves the dictionary and [missedCommonAncestor]
    as they are, and raises [bisectLied] for a label that is not
    [skip] and is the label of the blamed revision. *)
Lemma judge_parent_inv p v h v' h' label :
  vlabels v !! Some p = Some label →
  judge_parent blamed p v h = (Ok v', h') →
  vlabels v' = vlabels v
  ∧ missedCommonAncestor v' = missedCommonAncestor v
  ∧ bisectLied v'
    = bisectLied v || (negb (String.eqb label.1 "skip") && String.eqb label.1 blamed).
Proof.
  unfold judge_parent. intros -> Hrun.
  destruct (String.eqb label.1 "skip") eqn:Hskip.
  - apply bind_Ok_inv in Hrun as (? & ? & _ & [= <- <-]).
    by rewrite orb_false_r.
  - destruct (String.eqb label.1 blamed) eqn:Hsame.
    + apply bind_Ok_inv in Hrun as (? & ? & _ & [= <- <-]). simpl.
      by rewrite orb_true_r.
    + apply bind_Ok_inv in Hrun as (? & ? & _ & Hrun).
      apply bind_Ok_inv in Hrun as (? & ? & _ & [= <- <-]).
      by rewrite orb_false_r.
Qed.

(** Testing a parent that has no label adds its label and may raise
    [missedCommonAncestor]; a parent that has one is left alone. *)
Lemma ensure_tested_inv p v h v' h' :
  ensure_tested env repo start end_ p v h = (Ok v', h') →
  bisectLied v' = bisectLied v
  ∧ match vlabels v !! Some p with
    | Some _ => v' = v
    | None =>
        (∃ label, vlabels v' = <[Some p := label]> (vlabels v))
        ∧ ∀ anc, ancestor_oracle env repo anc →
            missedCommonAncestor v'
            = missedCommonAncestor v
              || (negb (descendant_of anc start p) && negb (descendant_of anc end_ p))
    end.
Proof.
  unfold ensure_tested. intros Hrun.
  destruct (vlabels v !! Some p) as [l0|] eqn:Hlook.
  { by injection Hrun as <- <-. }
  apply bind_Ok_inv in Hrun as (? & ? & _ & Hrun).
  apply bind_Ok_inv in Hrun as (? & h1 & _ & Hrun).
  apply bind_Ok_inv in Hrun as (anc_start & h2 & Hstart & Hrun).
  apply bind_Ok_inv in Hrun as (neither & h3 & Hneither & Hrun).
  apply bind_Ok_inv in Hrun as (missed & h4 & Hmissed & Hrun).
  apply bind_Ok_inv in Hrun as (label & h5 & _ & Hrun).
  apply bind_Ok_inv in Hrun as (? & ? & _ & Hrun).
  apply bind_Ok_inv in Hrun as (? & ? & _ & [= <- <-]). simpl.
  split; [done|]. split; [by eexists|].
  intros anc Hanc.
  rewrite (isAncestor_oracle _ _ _ _ _ _ Hanc) in Hstart.
  injection Hstart as <- <-.
  destruct (descendant_of anc start p); simpl in *.
  - injection Hneither as <- <-. injection Hmissed as <- <-.
    by rewrite orb_false_r.
  - rewrite (bind_Ok _ _ _ _ _ (isAncestor_oracle _ _ _ _ _ _ Hanc)) in Hneither.
    injection Hneither as <- <-.
    destruct (descendant_of anc end_ p); simpl in *.
    + injection Hmissed as <- <-. by rewrite orb_false_r.
    + apply bind_Ok_inv in Hmissed as (? & ? & _ & [= <- <-]).
      by rewrite orb_true_r.
Qed.
End CheckParent.

Section CheckParents.
Variables (env : Env) (repo blamed start end_ : string).

Lemma check_parent_inv p v h v' h' :
  check_parent env repo blamed start end_ p v h = (Ok v', h') →
  ∃ v1 h1 label,
    ensure_tested env repo start end_ p v h = (Ok v1, h1)
    ∧ vlabels v1 !! Some p = Some label
    ∧ vlabels v' = vlabels v1
    ∧ missedCommonAncestor v' = missedCommonAncestor v1
    ∧ bisectLied v'
      = bisectLied v || (negb (String.eqb label.1 "skip") && String.eqb label.1 blamed).
Proof.
  unfold check_parent. intros Hrun.
  apply bind_Ok_inv in Hrun as (v1 & h1 & Hensure & Hjudge).
  destruct (vlabels v1 !! Some p) as [label|] eqn:Hlook.
  2:{ unfold judge_parent in Hjudge. by rewrite Hlook in Hjudge. }
  destruct (judge_parent_inv _ _ _ _ _ _ _ Hlook Hjudge) as (Hl & Hm & Hb).
  destruct (ensure_tested_inv _ _ _ _ _ _ _ _ _ Hensure) as [Hlied _].
  exists v1, h1, label. rewrite <- Hlied. done.
Qed.

(** The dictionary only grows. *)
Lemma ensure_tested_mono p v h v1 h1 k l :
  ensure_tested env repo start end_ p v h = (Ok v1, h1) →
  vlabels v !! k = Some l → vlabels v1 !! k = Some l.
Proof.
  intros Hensure Hk.
  destruct (ensure_tested_inv _ _ _ _ _ _ _ _ _ Hensure) as [_ Hcase].
  destruct (vlabels v !! Some p) as [l0|] eqn:Hlook.
  - by subst.
  - destruct Hcase as [[label ->] _].
    rewrite lookup_insert_ne; [done|]. intros <-. congruence.
Qed.

Lemma check_parents_mono ps v h v' h' k l :
  check_parents env repo blamed start end_ ps v h = (Ok v', h') →
  vlabels v !! k = Some l → vlabels v' !! k = Some l.
Proof.
  revert v h. induction ps as [|p ps IH]; intros v h; simpl.
  - by intros [= <- <-].
  - intros Hrun Hk. apply bind_Ok_inv in Hrun as (v2 & h2 & Hstep & Hrest).
    apply check_parent_inv in Hstep as (v1 & h1 & label & He & _ & Hl & _).
    eapply IH; [done|]. rewrite Hl. by eapply ensure_tested_mono.
Qed.

(** [bisectLied] after the loop: it was set before, or a parent has
    the label of the blamed revision. *)
Lemma check_parents_lied ps v h v' h' :
  blamed ≠ "skip" →
  check_parents env repo blamed start end_ ps v h = (Ok v', h') →
  bisectLied v' = true
  ↔ bisectLied v = true
    ∨ ∃ p reason, p ∈ ps ∧ vlabels v' !! Some p = Some (blamed, reason).
Proof.
  intros Hblamed. revert v h. induction ps as [|p ps IH]; intros v h; simpl.
  - intros [= <- <-]. split; [by left|].
    intros [?|(p & r & Hin & _)]; [done|]. by apply elem_of_nil in Hin.
  - intros Hrun. apply bind_Ok_inv in Hrun as (v2 & h2 & Hstep & Hrest).
    apply check_parent_inv in Hstep as (v1 & h1 & label & He & Hlook & Hl & _ & Hb).
    rewrite (IH _ _ Hrest), Hb.
    assert (vlabels v' !! Some p = Some label) as Hfinal.
    { eapply check_parents_mono; [done|]. by rewrite Hl. }
    split.
    + intros [Hv2|(q & r & Hin & Hq)].
      * apply orb_true_iff in Hv2 as [?|Hsame]; [by left|]. right.
        apply andb_true_iff in Hsame as [_ Hsame].
        apply String.eqb_eq in Hsame. exists p, label.2.
        split; [left|]. rewrite Hfinal, <- Hsame. by destruct label.
      * right. exists q, r. split; [by right|done].
    + intros [Hv|(q & r & Hin & Hq)].
      * left. by rewrite Hv.
      * apply elem_of_cons in Hin as [->|Hin].
        -- left. rewrite Hfinal in Hq. injection Hq as ->. simpl.
           rewrite String.eqb_refl.
           destruct (String.eqb_spec blamed "skip"); [done|].
           by rewrite orb_true_r.
        -- right. by exists q, r.
Qed.

Lemma existsb_absorb {A} (a : bool) (f g : A → bool) l :
  (∀ x, a || f x = a || g x) → a || existsb f l = a || existsb g l.
Proof.
  intros Hfg. induction l as [|x l IH]; simpl; [done|].
  rewrite !orb_assoc, Hfg. rewrite <- !orb_assoc.
  destruct a; simpl in *; [done|]. by rewrite IH.
Qed.

(** [missedCommonAncestor] after the loop: it was set before, or a
    parent that had no label is a descendant of neither end. *)
Lemma check_parents_missed anc ps v h v' h' :
  ancestor_oracle env repo anc →
  check_parents env repo blamed start end_ ps v h = (Ok v', h') →
  missedCommonAncestor v'
  = missedCommonAncestor v || existsb (missable anc start end_ (vlabels v)) ps.
Proof.
  intros Hanc. revert v h. induction ps as [|p ps IH]; intros v h; simpl.
  - intros [= <- <-]. by rewrite orb_false_r.
  - intros Hrun. apply bind_Ok_inv in Hrun as (v2 & h2 & Hstep & Hrest).
    apply check_parent_inv in Hstep as (v1 & h1 & label & He & Hlook & Hl & Hm & _).
    rewrite (IH _ _ Hrest), Hm, Hl.
    destruct (ensure_tested_inv _ _ _ _ _ _ _ _ _ He) as [_ Hcase].
    unfold missable at 2.
    destruct (vlabels v !! Some p) as [l0|] eqn:Hp.
    + subst v1. rewrite bool_decide_false by done. done.
    + destruct Hcase as [[label' Hins] Hmissed].
      rewrite (Hmissed anc Hanc), bool_decide_true by done. simpl.
      rewrite <- !orb_assoc. f_equal.
      apply existsb_absorb. intros q. unfold missable. rewrite Hins.
      destruct (decide (q = p)) as [->|Hne].
      * rewrite lookup_insert_eq, Hp.
        rewrite (bool_decide_false (Some label' = None)) by done.
        rewrite (bool_decide_true (None = None)) by done. simpl.
        by destruct (_ && _).
      * rewrite lookup_insert_ne by congruence. done.
Qed.
End CheckParents.

(** ** Computations that return *)

Lemma returns_ret {A} (a : A) (P : A → Prop) : P a → returns (mret a) P.
Proof. intros HP h. by exists a, h. Qed.

Lemma returns_bind {A B} (m : M A) (k : A → M B) (P : A → Prop) (Q : B → Prop) :
  returns m P → (∀ a, P a → returns (k a) Q) → returns (m ≫= k) Q.
Proof.
  intros Hm Hk h. destruct (Hm h) as (a & h1 & Hrun & HP).
  destruct (Hk a HP h1) as (b & h2 & Hrun' & HQ).
  exists b, h2. split; [|done]. by rewrite (bind_Ok _ _ _ _ _ Hrun).
Qed.

Lemma returns_print text : returns (print text) (λ _, True).
Proof. intros h. by eexists tt, _. Qed.

Lemma returns_run_hg env args : hg_succeeds env → returns (run_hg env args) (λ _, True).
Proof.
  intros Hhg h. unfold run_hg. destruct (Hhg h args) as [out ->]. by eexists _, _.
Qed.

Lemma returns_isAncestor env repo a b :
  hg_succeeds env → returns (hgCmds.isAncestor env repo a b) (λ _, True).
Proof.
  intros Hhg. unfold hgCmds.isAncestor, hgCmds.findCommonAncestor.
  eapply returns_bind; [by apply returns_run_hg|].
  intros ca _ h. by eexists _, _.
Qed.

Lemma returns_evaluator env rev :
  evaluator_answers env → returns (call_evaluator env rev) (λ label, wf_label label.1).
Proof.
  intros Hev h. unfold call_evaluator.
  destruct (Hev h rev) as (label & -> & Hwf). by eexists _, _.
Qed.

Lemma returns_then {A B} (m : M A) (k : M B) (P : A → Prop) (Q : B → Prop) :
  returns m P → returns k Q → returns (m ;; k) Q.
Proof. intros Hm Hk. eapply returns_bind; [exact Hm|]. by intros _ _. Qed.

Section BlameReturns.
Variables (env : Env) (repo blamed start end_ : string).
Hypothesis blamed_ok : blamed = "good" ∨ blamed = "bad".
Hypothesis hg_ok : hg_succeeds env.
Hypothesis evaluator_ok : evaluator_answers env.

Lemma ensure_tested_returns p v :
  wf_labels (vlabels v) →
  returns (ensure_tested env repo start end_ p v)
    (λ v1, wf_labels (vlabels v1) ∧ is_Some (vlabels v1 !! Some p)).
Proof.
  intros Hwf. unfold ensure_tested.
  destruct (vlabels v !! Some p) as [l0|] eqn:Hlook.
  { apply returns_ret. split; [done|]. by rewrite Hlook. }
  eapply returns_then; [apply returns_print|].
  eapply returns_then; [apply returns_print|].
  eapply returns_bind; [by apply returns_isAncestor|]. intros anc_start _.
  eapply (returns_bind _ _ (λ _, True)).
  { destruct (negb anc_start); [|by apply returns_ret].
    eapply returns_bind; [by apply returns_isAncestor|].
    intros. by apply returns_ret. }
  intros neither _.
  eapply (returns_bind _ _ (λ _, True)).
  { destruct neither; [|by apply returns_ret].
    eapply returns_then; [apply returns_print|]. by apply returns_ret. }
  intros missed _.
  eapply returns_bind; [by apply returns_evaluator|]. intros label Hlabel.
  eapply returns_then; [apply returns_print|].
  eapply returns_then; [apply returns_print|].
  apply returns_ret. simpl. split; [|by rewrite lookup_insert_eq].
  intros k l Hk. destruct (decide (k = Some p)) as [->|Hne].
  - rewrite lookup_insert_eq in Hk. by injection Hk as <-.
  - rewrite lookup_insert_ne in Hk by done. by eapply Hwf.
Qed.

Lemma judge_parent_returns p v :
  wf_labels (vlabels v) → is_Some (vlabels v !! Some p) →
  returns (judge_parent blamed p v) (λ v', vlabels v' = vlabels v).
Proof.
  intros Hwf [label Hlook]. unfold judge_parent. rewrite Hlook.
  pose proof (Hwf _ _ Hlook) as Hlabel.
  destruct (String.eqb label.1 "skip") eqn:Hskip.
  { eapply returns_then; [apply returns_print|]. by apply returns_ret. }
  destruct (String.eqb label.1 blamed) eqn:Hsame.
  { eapply returns_then; [apply returns_print|]. by apply returns_ret. }
  apply String.eqb_neq in Hskip, Hsame.
  assert (∃ opp, opposite_label blamed = mret opp ∧ label.1 = opp)
    as (opp & Hopp & Heq).
  { unfold opposite_label.
    destruct blamed_ok as [-> | ->], Hlabel as [Hl|[Hl|Hl]];
      simpl; try done; by eexists. }
  rewrite Hopp.
  eapply returns_bind; [by apply (returns_ret opp (λ o, o = opp))|]. intros o ->.
  rewrite <- Heq, String.eqb_refl.
  eapply returns_then; [by apply (returns_ret _ (λ _, True))|].
  by apply returns_ret.
Qed.

Lemma check_parents_returns ps v :
  wf_labels (vlabels v) →
  returns (check_parents env repo blamed start end_ ps v)
    (λ v', wf_labels (vlabels v')).
Proof.
  revert v. induction ps as [|p ps IH]; intros v Hwf; simpl.
  - by apply returns_ret.
  - eapply returns_bind; [|intros v2 Hv2; apply IH; exact Hv2].
    unfold check_parent.
    eapply returns_bind; [by apply ensure_tested_returns|].
    intros v1 [Hwf1 Hsome] h.
    destruct (judge_parent_returns p v1 Hwf1 Hsome h) as (v2 & h2 & Hrun & Heq).
    exists v2, h2. split; [done|]. by rewrite Heq.
Qed.

Lemma explain_returns blamedRev parents v :
  (bisectLied v = true → ∃ p0 p1 rest, parents = p0 :: p1 :: rest) →
  returns (explain env repo blamedRev parents v) (λ _, True).
Proof.
  intros Htwo. unfold explain.
  destruct (bisectLied v) eqn:Hlied.
  2:{ repeat (eapply returns_then; [apply returns_print|]). apply returns_print. }
  destruct (missedCommonAncestor v).
  2:{ repeat (eapply returns_then; [apply returns_print|]). apply returns_print. }
  destruct (Htwo eq_refl) as (p0 & p1 & rest & Hparents). rewrite Hparents.
  eapply (returns_bind _ _ (λ x, x = p0)); [by apply returns_ret|]. intros ? ->.
  eapply (returns_bind _ _ (λ x, x = p1)); [by apply returns_ret|]. intros ? ->.
  eapply returns_bind.
  { unfold hgCmds.findCommonAncestor. by apply returns_run_hg. }
  intros ca _.
  do 4 (eapply returns_then; [apply returns_print|]).
  eapply returns_bind; [by apply returns_evaluator|]. intros label _.
  repeat (eapply returns_then; [apply returns_print|]). apply returns_print.
Qed.
End BlameReturns.

Section BlameVerifier.
Variables (env : Env) (repo blamedRev blamed : string).
Variables (labels : gmap PyVal Label) (start end_ : string) (h : History).
Hypothesis blamed_ok : blamed = "good" ∨ blamed = "bad".
Hypothesis hg_ok : hg_succeeds env.
Hypothesis evaluator_ok : evaluator_answers env.
Hypothesis labels_ok : wf_labels labels.

Lemma blamed_not_skip : blamed ≠ "skip".
Proof using blamed_ok. by destruct blamed_ok as [-> | ->]. Qed.

(** In a repository that answers, with well-formed labels, the
    verifier returns: nothing for a revision with one parent, and
    else the verdict of its loop over the parents. *)
Lemma checkBlameParents_runs :
  ∃ out,
    hg env h (parents_cmd repo blamedRev) = Ok out
    ∧ if (length (Py.but_last (Py.split "," out)) =? 1)%nat then
        (checkBlameParents env repo blamedRev blamed labels start end_ h).1 = Ok None
      else
        ∃ v h1,
          check_parents env repo blamed start end_ (Py.but_last (Py.split "," out))
            {| bisectLied := false; missedCommonAncestor := false; vlabels := labels |}
            (EvHg (parents_cmd repo blamedRev) (Ok out) :: h) = (Ok v, h1)
          ∧ (checkBlameParents env repo blamedRev blamed labels start end_ h).1
            = Ok (Some v).
Proof using All.
  destruct (hg_ok h (parents_cmd repo blamedRev)) as [out Hout].
  exists out. split; [done|].
  assert (blamed_parents env repo blamedRev h
          = (Ok (Py.but_last (Py.split "," out)),
             EvHg (parents_cmd repo blamedRev) (Ok out) :: h)) as Hparents.
  { unfold blamed_parents, run_hg, mbind, M_bind, bind. cbv beta zeta.
    by rewrite !Hout. }
  unfold checkBlameParents. rewrite (bind_Ok _ _ _ _ _ Hparents).
  set (parents := Py.but_last (Py.split "," out)) in *.
  destruct (length parents =? 1)%nat eqn:Hlen; [done|].
  destruct (check_parents_returns env repo blamed start end_ blamed_ok hg_ok
              evaluator_ok parents
              {| bisectLied := false; missedCommonAncestor := false;
                 vlabels := labels |} labels_ok
              (EvHg (parents_cmd repo blamedRev) (Ok out) :: h))
    as (v & h1 & Hloop & _).
  exists v, h1. split; [done|].
  rewrite (bind_Ok _ _ _ _ _ Hloop).
  destruct (explain_returns env repo hg_ok evaluator_ok blamedRev parents v) with h1
    as ([] & h2 & Hexplain & _).
  { intros Hlied.
    apply (check_parents_lied _ _ _ _ _ _ _ _ _ _ blamed_not_skip Hloop) in Hlied
      as [?|(p & r & Hin & _)]; [done|].
    apply Nat.eqb_neq in Hlen.
    destruct parents as [|p0 [|p1 rest]]; [by apply elem_of_nil in Hin|done|].
    by eexists _, _, _. }
  by rewrite (bind_Ok _ _ _ _ _ Hexplain).
Qed.

(** C6, amended. The blame verifier asks whether a parent of the
    blamed merge is a descendant of the original start or end
    revision only for a parent that has no label yet, and it raises
    [missedCommonAncestor] if and only if some parent without a label
    is a descendant of neither. *)
Theorem missed_ancestor_iff (anc : string → string → string) :
  ancestor_oracle env repo anc →
  ∃ out,
    hg env h (parents_cmd repo blamedRev) = Ok out
    ∧ if (length (Py.but_last (Py.split "," out)) =? 1)%nat then
        (checkBlameParents env repo blamedRev blamed labels start end_ h).1 = Ok None
      else
        ∃ v,
          (checkBlameParents env repo blamedRev blamed labels start end_ h).1
          = Ok (Some v)
          ∧ (missedCommonAncestor v = true
             ↔ ∃ p,
                 p ∈ Py.but_last (Py.split "," out)
                 ∧ labels !! Some p = None
                 ∧ descendant_of anc start p = false
                 ∧ descendant_of anc end_ p = false).
Proof using All.
  intros Hanc. destruct checkBlameParents_runs as (out & Hout & Hrun).
  exists out. split; [done|].
  destruct (length _ =? 1)%nat; [done|].
  destruct Hrun as (v & h1 & Hloop & Hret).
  exists v. split; [done|].
  rewrite (check_parents_missed _ _ _ _ _ _ _ _ _ _ _ Hanc Hloop). simpl.
  rewrite existsb_exists. unfold missable. split.
  - intros (p & Hin & Hp).
    apply andb_true_iff in Hp as [Hp Hend].
    apply andb_true_iff in Hp as [Hnone Hstart].
    apply bool_decide_eq_true in Hnone.
    apply negb_true_iff in Hstart, Hend.
    exists p. split_and!; [by apply list_elem_of_In|done..].
  - intros (p & Hin & Hnone & Hstart & Hend).
    exists p. split; [by apply list_elem_of_In|].
    rewrite Hstart, Hend, bool_decide_true by done. done.
Qed.
End BlameVerifier.

Lemma env_merge_hg_succeeds : hg_succeeds Examples.env_merge.
Proof. intros h args. by eexists. Qed.

Lemma env_merge_evaluator_answers : evaluator_answers Examples.env_merge.
Proof. intros h rev. exists ("good", ""). split; [done|by left]. Qed.

Lemma wf_labels_empty : wf_labels ∅.
Proof. intros k label Hk. by rewrite lookup_empty in Hk. Qed.

Section ContradictionFlag.
Variables (env : Env) (repo blamedRev blamed : string).
Variables (labels : gmap PyVal Label) (start end_ : string) (h : History).
Variable verdict : PyVal → Label.
Hypothesis blamed_ok : blamed = "good" ∨ blamed = "bad".
Hypothesis hg_ok : hg_succeeds env.
Hypothesis evaluator_consistent : consistent_evaluator env verdict.
Hypothesis verdict_ok : ∀ rev, wf_label (verdict rev).1.
Hypothesis labels_ok : wf_labels labels.

(** After the test of lines 143-157 the parent has the label it had
    or, without one, the label of the evaluator, and the other labels
    are as they were. *)
Lemma ensure_tested_consistent p v h0 v1 h1 :
  ensure_tested env repo start end_ p v h0 = (Ok v1, h1) →
  vlabels v1 !! Some p = Some (parent_label (vlabels v) verdict p)
  ∧ ∀ q, q ≠ p → vlabels v1 !! Some q = vlabels v !! Some q.
Proof using evaluator_consistent.
  unfold ensure_tested, parent_label. intros Hrun.
  destruct (vlabels v !! Some p) as [l0|] eqn:Hlook.
  { injection Hrun as <- <-. by rewrite Hlook. }
  apply bind_Ok_inv in Hrun as (? & ? & _ & Hrun).
  apply bind_Ok_inv in Hrun as (? & ? & _ & Hrun).
  apply bind_Ok_inv in Hrun as (? & ? & _ & Hrun).
  apply bind_Ok_inv in Hrun as (? & ? & _ & Hrun).
  apply bind_Ok_inv in Hrun as (? & h2 & _ & Hrun).
  apply bind_Ok_inv in Hrun as (label & h3 & Heval & Hrun).
  apply bind_Ok_inv in Hrun as (? & ? & _ & Hrun).
  apply bind_Ok_inv in Hrun as (? & ? & _ & [= <- <-]).
  unfold call_evaluator in Heval. cbv zeta in Heval.
  rewrite evaluator_consistent in Heval. injection Heval as <- _. simpl. split.
  - by rewrite lookup_insert_eq.
  - intros q Hq. rewrite lookup_insert_ne; [done|]. congruence.
Qed.

(** After the loop every parent has the label it was held to. *)
Lemma check_parents_consistent ps v h0 v' h' :
  check_parents env repo blamed start end_ ps v h0 = (Ok v', h') →
  ∀ p, p ∈ ps → vlabels v' !! Some p = Some (parent_label (vlabels v) verdict p).
Proof using evaluator_consistent.
  revert v h0. induction ps as [|p0 ps IH]; intros v h0; simpl.
  { intros _ p Hp. by apply elem_of_nil in Hp. }
  intros Hrun p Hp. apply bind_Ok_inv in Hrun as (v2 & h2 & Hstep & Hrest).
  apply check_parent_inv in Hstep as (v1 & h1 & label & He & _ & Hl & _).
  destruct (ensure_tested_consistent _ _ _ _ _ He) as [Hp0 Hothers].
  destruct (decide (p = p0)) as [->|Hne].
  - eapply check_parents_mono; [done|]. by rewrite Hl.
  - apply elem_of_cons in Hp as [?|Hp]; [done|].
    rewrite (IH _ _ Hrest p Hp). unfold parent_label.
    by rewrite Hl, (Hothers p Hne).
Qed.

(** C5. For a blamed revision labelled [good] or [bad], in a
    repository that answers, with an evaluator that gives each revision
    one label and with well-formed labels, the blame verifier returns,
    and on a merge it holds every parent to the label that the
    dictionary had for it or, for a parent without one, to the label
    of the evaluator, and it raises [bisectLied] if and only if one of
    these labels is the label of the blamed revision: a parent labelled
    [skip], or with the opposite label, does not raise it. *)
Theorem blame_contradiction_iff :
  ∃ out,
    hg env h (parents_cmd repo blamedRev) = Ok out
    ∧ if (length (Py.but_last (Py.split "," out)) =? 1)%nat then
        (checkBlameParents env repo blamedRev blamed labels start end_ h).1 = Ok None
      else
        ∃ v,
          (checkBlameParents env repo blamedRev blamed labels start end_ h).1
          = Ok (Some v)
          ∧ (∀ p, p ∈ Py.but_last (Py.split "," out) →
                  vlabels v !! Some p = Some (parent_label labels verdict p))
          ∧ (bisectLied v = true
             ↔ ∃ p, p ∈ Py.but_last (Py.split "," out)
                    ∧ (parent_label labels verdict p).1 = blamed).
Proof using All.
  assert (evaluator_answers env) as Hanswers.
  { intros h0 rev. exists (verdict rev). split; [apply evaluator_consistent|apply verdict_ok]. }
  destruct (checkBlameParents_runs env repo blamedRev blamed labels start end_ h
              blamed_ok hg_ok Hanswers labels_ok) as (out & Hout & Hrun).
  exists out. split; [done|].
  destruct (length _ =? 1)%nat; [done|].
  destruct Hrun as (v & h1 & Hloop & Hret).
  exists v. split; [done|].
  pose proof (check_parents_consistent _ _ _ _ _ Hloop) as Hlabels. simpl in Hlabels.
  split; [exact Hlabels|].
  rewrite (check_parents_lied _ _ _ _ _ _ _ _ _ _ (blamed_not_skip blamed blamed_ok) Hloop).
  simpl. split.
  - intros [?|(p & reason & Hin & Hp)]; [done|]. exists p. split; [done|].
    rewrite (Hlabels p Hin) in Hp. by injection Hp as ->.
  - intros (p & Hin & Hp). right. exists p, (parent_label labels verdict p).2.
    split; [done|]. rewrite (Hlabels p Hin), <- Hp. by destruct (parent_label _ _ _).
Qed.
End ContradictionFlag.

Lemma blame_contradiction_iff_witness :
  ∃ v,
    (checkBlameParents Examples.env_merge "repo" "m" "good"
       {[ Some "p1" := ("bad", "") ]} "s" "e" []).1 = Ok (Some v)
    ∧ vlabels v !! Some "p1" = Some ("bad", "")
    ∧ vlabels v !! Some "p2" = Some ("good", "")
    ∧ bisectLied v = true.
Proof.
  destruct (blame_contradiction_iff Examples.env_merge "repo" "m" "good"
              {[ Some "p1" := ("bad", "") ]} "s" "e" [] (λ _, ("good", "")))
    as (out & Hout & Hrun).
  - by left.
  - exact env_merge_hg_succeeds.
  - intros h rev. reflexivity.
  - intros rev. by left.
  - intros k label Hk. apply lookup_singleton_Some in Hk as [_ <-]. by right; left.
  - injection Hout as <-.
    change (length (Py.but_last (Py.split "," (Examples.merge_reply (parents_cmd "repo" "m"))))
            =? 1)%nat with false in Hrun.
    destruct Hrun as (v & Hv & Hlabels & Hlied).
    exists v. split; [exact Hv|]. split_and!.
    + apply (Hlabels "p1"). apply list_elem_of_In. left. reflexivity.
    + apply (Hlabels "p2"). apply list_elem_of_In. right. left. reflexivity.
    + apply Hlied. exists "p2". split; [|reflexivity].
      apply list_elem_of_In. right. left. reflexivity.
Defined.

(** C6, as stated, fails: the parents [p1] and [p2] of the merge [m]
    are descendants of neither end of the range, and the verifier,
    which finds them labelled, does not raise [missedCommonAncestor]. *)
Lemma labelled_parent_is_not_checked :
  (blamed_parents Examples.env_merge "repo" "m" []).1 = Ok ["p1"; "p2"]
  ∧ ¬ ((∃ p, p ∈ ["p1"; "p2"]
             ∧ (hgCmds.isAncestor Examples.env_merge "repo" "s" p []).1 = Ok false
             ∧ (hgCmds.isAncestor Examples.env_merge "repo" "e" p []).1 = Ok false) →
       ∃ v,
         (checkBlameParents Examples.env_merge "repo" "m" "bad"
            Examples.tested_parents "s" "e" []).1 = Ok (Some v)
         ∧ missedCommonAncestor v = true).
Proof.
  split; [reflexivity|]. intros Hclaim.
  destruct Hclaim as (v & Hv & Hmissed).
  { exists "p1". split; [left|]. split; reflexivity. }
  vm_compute in Hv. injection Hv as <-. discriminate Hmissed.
Qed.

Lemma missed_ancestor_iff_witness :
  ∃ out,
    hg Examples.env_merge [] (parents_cmd "repo" "m") = Ok out
    ∧ if (length (Py.but_last (Py.split "," out)) =? 1)%nat then
        (checkBlameParents Examples.env_merge "repo" "m" "bad" ∅ "s" "e" []).1 = Ok None
      else
        ∃ v,
          (checkBlameParents Examples.env_merge "repo" "m" "bad" ∅ "s" "e" []).1
          = Ok (Some v)
          ∧ (missedCommonAncestor v = true
             ↔ ∃ p,
                 p ∈ Py.but_last (Py.split "," out)
                 ∧ (∅ : gmap PyVal Label) !! Some p = None
                 ∧ descendant_of (λ _ _, "root") "s" p = false
                 ∧ descendant_of (λ _ _, "root") "e" p = false).
Proof.
  apply (missed_ancestor_iff Examples.env_merge "repo" "m" "bad" ∅ "s" "e" []).
  - right. reflexivity.
  - exact env_merge_hg_succeeds.
  - exact env_merge_evaluator_answers.
  - exact wf_labels_empty.
  - intros h a b. reflexivity.
Defined.

(** * Further properties of the code *)

(** ** The sanitizer on whole texts *)

Lemma join_app sep l1 l2 :
  l1 ≠ [] → l2 ≠ [] →
  Py.join (String sep "") (l1 ++ l2)
  = Py.join (String sep "") l1 +:+ String sep (Py.join (String sep "") l2).
Proof.
  intros H1 H2. induction l1 as [|x [|y ys] IH]; [done| |].
  - destruct l2 as [|z zs]; [done|]. reflexivity.
  - change ((x :: y :: ys) ++ l2)%list with (x :: (y :: ys) ++ l2)%list.
    change ((y :: ys) ++ l2)%list with (y :: (ys ++ l2))%list.
    rewrite !join_cons.
    change (y :: (ys ++ l2))%list with ((y :: ys) ++ l2)%list.
    rewrite IH by done. by rewrite append_assoc.
Qed.

(** X1. A text none of whose lines meets the condition of a rule comes
    back from the sanitizer as it went in. *)
Theorem sanitize_leaves_settled_text (msg repo : string) :
  Forall (λ line, triggers repo line = false) (Py.split Py.nl msg) →
  sanitizeCsetMsg msg repo = msg.
Proof.
  intros Hall. rewrite sanitizeCsetMsg_lines.
  rewrite (map_ext_Forall _ id).
  - rewrite map_id. apply join_split.
  - eapply Forall_impl; [exact Hall|]. intros line. apply sanitize_line_settled.
Qed.

Lemma sanitize_leaves_settled_text_witness :
  sanitizeCsetMsg "summary:     fix the parser" "/trees/mozilla-central"
  = "summary:     fix the parser".
Proof.
  apply (sanitize_leaves_settled_text "summary:     fix the parser"
           "/trees/mozilla-central").
  repeat constructor.
Defined.

(** X2. The sanitizer works on each line by itself: sanitizing two texts
    joined by a newline gives the two sanitized texts joined by a
    newline. *)
Theorem sanitize_of_joined_texts (a b repo : string) :
  sanitizeCsetMsg (a +:+ String Py.nl b) repo
  = sanitizeCsetMsg a repo +:+ String Py.nl (sanitizeCsetMsg b repo).
Proof.
  rewrite !sanitizeCsetMsg_lines, split_app_sep_general, map_app.
  apply join_app.
  - pose proof (split_not_nil Py.nl a). by destruct (Py.split Py.nl a).
  - pose proof (split_not_nil Py.nl b). by destruct (Py.split Py.nl b).
Qed.

(** X3. The sanitizer keeps the lines of a text in number and in order:
    the sanitized text has as many lines as the text, and its line [i]
    is the rewritten line [i] of the text. *)
Theorem sanitize_keeps_line_structure (msg repo : string) :
  length (Py.split Py.nl (sanitizeCsetMsg msg repo)) = length (Py.split Py.nl msg)
  ∧ ∀ i : nat,
      Py.split Py.nl (sanitizeCsetMsg msg repo) !! i
      = sanitize_line repo <$> Py.split Py.nl msg !! i.
Proof.
  rewrite split_sanitizeCsetMsg. split.
  - apply length_map.
  - intros i. apply (list_lookup_fmap (sanitize_line repo)).
Qed.

(** ** The two rewrites on a line *)

(** X4. On a line with an email address the sanitizer drops the text
    after the last space and that space: a line [pre ++ " " ++ tok],
    where [tok] has no space, becomes [pre]; and such a line without
    any space becomes empty. *)
Theorem email_line_loses_last_token (repo pre tok line : string) :
  (mem_char " " tok = false →
   email_shaped (pre +:+ String " " tok) = true →
   sanitize_line repo (pre +:+ String " " tok) = pre)
  ∧ (mem_char " " line = false →
     email_shaped line = true →
     sanitize_line repo line = "").
Proof.
  split.
  - intros Htok Hemail. unfold sanitize_line. rewrite Hemail.
    unfold strip_last_token.
    rewrite split_app_sep_general, (split_sep_free_string _ _ Htok), but_last_snoc.
    apply join_split.
  - intros Hline Hemail. unfold sanitize_line. rewrite Hemail.
    unfold strip_last_token. by rewrite (split_sep_free_string _ _ Hline).
Qed.

Lemma email_line_loses_last_token_witness :
  sanitize_line "repo" ("user:        Jane Doe" +:+ String " " "<jane@example.org>")
  = "user:        Jane Doe"
  ∧ sanitize_line "repo" "<jane@example.org>" = "".
Proof.
  split.
  - apply (proj1 (email_line_loses_last_token "repo" "user:        Jane Doe"
                    "<jane@example.org>" "")); reflexivity.
  - apply (proj2 (email_line_loses_last_token "repo" "" "" "<jane@example.org>"));
      reflexivity.
Defined.

(** X5. In a mozilla-central repository a [changeset:] line without an
    email address becomes the URL of the revision named after its last
    colon: the line [pre ++ ":" ++ node], where [node] has no colon,
    becomes the base URL followed by [node]. *)
Theorem changeset_line_becomes_url (repo pre node : string) :
  mem_char ":" node = false →
  email_shaped (pre +:+ String ":" node) = false →
  Py.startswith "changeset:" (pre +:+ String ":" node) = true →
  Py.contains "mozilla-central" repo = true →
  sanitize_line repo (pre +:+ String ":" node)
  = "changeset:   https://hg.mozilla.org/mozilla-central/rev/" +:+ node.
Proof.
  intros Hnode Hemail Hstart Hrepo. unfold sanitize_line, changeset_line.
  rewrite Hemail, Hstart, Hrepo. unfold changeset_url.
  by rewrite split_app_sep_general, (split_sep_free_string _ _ Hnode), last_of_snoc.
Qed.

Lemma changeset_line_becomes_url_witness :
  sanitize_line "/trees/mozilla-central" ("changeset:   52121" +:+ String ":" "573c5fa45cc4")
  = "changeset:   https://hg.mozilla.org/mozilla-central/rev/" +:+ "573c5fa45cc4".
Proof.
  apply (changeset_line_becomes_url "/trees/mozilla-central" "changeset:   52121"
           "573c5fa45cc4"); reflexivity.
Defined.

(** ** The changeset hash of a bisect message, line by line *)

Lemma all_dot_no_newline_inv s : all_chars Re.dot s = true → mem_char Py.nl s = false.
Proof.
  induction s as [|c s IH]; simpl; [done|].
  intros H. apply andb_true_iff in H as [Hc Hs].
  unfold Re.dot in Hc. apply negb_true_iff in Hc. rewrite Hc. simpl. by apply IH.
Qed.

Lemma word_not_colon c : Re.word c = true → Ascii.eqb c ":" = false.
Proof. intros Hc. destruct (Ascii.eqb_spec c ":") as [->|]; [|done]. by vm_compute in Hc. Qed.

Lemma digit_word c : Re.digit c = true → Re.word c = true.
Proof. intros Hc. unfold Re.word. by rewrite Hc. Qed.

Lemma all_word_no_colon s : all_chars Re.word s = true → mem_char ":" s = false.
Proof.
  induction s as [|c s IH]; simpl; [done|].
  intros H. apply andb_true_iff in H as [Hc Hs].
  rewrite (word_not_colon _ Hc). simpl. by apply IH.
Qed.

Lemma all_digit_no_colon s : all_chars Re.digit s = true → mem_char ":" s = false.
Proof.
  induction s as [|c s IH]; simpl; [done|].
  intros H. apply andb_true_iff in H as [Hc Hs].
  rewrite (word_not_colon _ (digit_word _ Hc)). simpl. by apply IH.
Qed.

(** What a match of the changeset pattern says of the string, with the
    newline that its prefix cannot hold. *)
Lemma getCsetHash_first_line s hash :
  hgCmds.getCsetHashFromBisectMsg s = Some hash → cset_token_on_first_line s hash.
Proof.
  unfold hgCmds.getCsetHashFromBisectMsg, Re.group.
  destruct (Re.re_match hgCmds.cset_pattern s) as [m|] eqn:Hm; [|done].
  intros H3. apply re_match_sound in Hm as (st' & Hm & <-).
  unfold hgCmds.cset_pattern, Re.plus in Hm.
  apply matches_seq_inv in Hm as (st1 & Hg1 & Hm).
  apply matches_seq_inv in Hm as (st2 & Hg2 & Hm).
  apply matches_seq_inv in Hm as (st3 & Hcolon & Hm).
  apply matches_seq_inv in Hm as (st4 & Hg3 & Hrest).
  apply matches_group_inv in Hg1 as (sa & Ha & Hra & Hpa & _).
  assert (∃ pre, s = pre +:+ Re.rest sa
                 ∧ (pre = "" ∨ ∃ pre', pre = pre' +:+ " " ∧ mem_char Py.nl pre' = false))
    as (pre & Hpre & Hshape).
  { inversion Ha as [| | | |r1 r2 st0 st0' Hb|r1 r2 st0 st0' Hs| |]; subst.
    - inversion Hb; subst. exists "". split; [done|by left].
    - apply matches_seq_inv in Hs as (sx & H1 & H2).
      apply matches_star_inv in H1 as (w & [Hr _] & Hw & _).
      apply matches_chr_inv in H2 as (c & [Hr' _] & Hc & _).
      apply Ascii.eqb_eq in Hc as <-. simpl in *.
      exists (w +:+ " "). split.
      + by rewrite Hr, Hr', append_snoc.
      + right. exists w. split; [done|]. by apply all_dot_no_newline_inv. }
  apply matches_group_inv in Hg2 as (sb & Hb & Hrb & Hpb & _).
  apply matches_seq_inv in Hb as (sb1 & Hd & Hds).
  apply matches_chr_inv in Hd as (d & [Hd _] & Hdig & _).
  apply matches_star_inv in Hds as (ds & [Hds _] & Hdigs & _).
  apply matches_chr_inv in Hcolon as (c & [Hc _] & Hcc & _).
  apply Ascii.eqb_eq in Hcc as <-.
  apply matches_group_inv in Hg3 as (sc & Hw & Hrc & Hpc & Hgc).
  apply matches_times_chr_inv in Hw as (w & [Hw Hpw] & Hlen & Hword & _).
  apply matches_star_inv in Hrest as (tl & _ & _ & Hgs).
  rewrite Hgs, Hgc, lookup_insert_eq in H3.
  rewrite Hpw, Hw in H3.
  replace (Re.pos st3 + String.length w - Re.pos st3)%nat
    with (String.length w) in H3 by lia.
  rewrite substring_prefix in H3. injection H3 as <-.
  exists pre, (String d ds), (Re.rest sc). simpl in *.
  split_and!; [|done|done| |done|done].
  - by rewrite Hpre, <- Hra, Hd, Hds, <- Hrb, Hc, Hw.
  - by rewrite Hdig, Hdigs.
Qed.

Lemma cset_token_on_first_line_matches s hash :
  cset_token_on_first_line s hash →
  ∃ st', matches hgCmds.cset_pattern (Re.MState 0 s ∅) st'.
Proof.
  intros (pre & digits & rest & -> & Hshape & Hne & Hdig & Hlen & Hword).
  destruct digits as [|d ds]; [done|]. simpl in Hdig.
  apply andb_true_iff in Hdig as [Hd Hds].
  unfold hgCmds.cset_pattern.
  destruct Hshape as [->|(pre' & -> & Hpre')].
  - simpl.
    edestruct (cset_tail_matches 0 d ds hash rest) as [st' Htail]; [done..|].
    eexists. eapply m_seq; [|exact Htail].
    apply (m_group 1 _ (Re.MState 0 _ ∅) (Re.MState 0 _ ∅)).
    apply m_alt_l. apply m_bol.
  - rewrite append_snoc in *.
    edestruct (cset_tail_matches (S (0 + String.length pre')) d ds hash rest)
      as [st' Htail]; [done..|].
    eexists. eapply m_seq; [|exact Htail].
    apply (m_group 1 _ (Re.MState 0 _ ∅) (Re.MState _ _ ∅)).
    apply m_alt_r. eapply m_seq.
    + apply m_star. simpl. apply star_steps_intro. by apply all_dot_no_newline.
    + apply m_chr. apply Ascii.eqb_refl.
Qed.

Lemma getCsetHash_first_line_complete s hash :
  cset_token_on_first_line s hash → is_Some (hgCmds.getCsetHashFromBisectMsg s).
Proof.
  intros Htok.
  destruct (cset_token_on_first_line_matches _ _ Htok) as [st' Hm].
  destruct (re_match_complete _ _ _ Hm) as [m Hre].
  unfold hgCmds.getCsetHashFromBisectMsg. rewrite Hre.
  apply re_match_sound in Hre as (st'' & Hm' & <-).
  by eapply matches_cset_group3.
Qed.

(** X6. [getCsetHashFromBisectMsg] reads the first line only: it returns
    a hash exactly when the string has a changeset token at its start
    or after a space that no newline precedes, and the hash it returns
    is the hash of such a token. *)
Theorem getCsetHash_reads_first_line (s : string) :
  (is_Some (hgCmds.getCsetHashFromBisectMsg s)
   ↔ ∃ hash, cset_token_on_first_line s hash)
  ∧ ∀ hash,
      hgCmds.getCsetHashFromBisectMsg s = Some hash → cset_token_on_first_line s hash.
Proof.
  split; [|apply getCsetHash_first_line]. split.
  - intros [hash Hret]. exists hash. by apply getCsetHash_first_line.
  - intros [hash Htok]. by eapply getCsetHash_first_line_complete.
Qed.

Lemma getCsetHash_reads_first_line_witness :
  cset_token_on_first_line "Testing changeset 41831:4f4c01fb42c3 (2 changesets remaining, ~1 tests)"
    "4f4c01fb42c3".
Proof.
  apply (proj2 (getCsetHash_reads_first_line
                  "Testing changeset 41831:4f4c01fb42c3 (2 changesets remaining, ~1 tests)")).
  vm_compute. reflexivity.
Defined.

(** Two ways to cut a string at a character that occurs once are one. *)
Lemma cut_unique c a b x y :
  mem_char c a = false → mem_char c b = false →
  a +:+ String c b = x +:+ String c y → a = x ∧ b = y.
Proof.
  revert x. induction a as [|a0 a IH]; intros x Ha Hb; simpl in *.
  - destruct x as [|x0 x]; simpl; intros [= Heq]; [done|].
    subst. rewrite mem_char_app in Hb. simpl in Hb.
    rewrite Ascii.eqb_refl in Hb. simpl in Hb. by rewrite orb_true_r in Hb.
  - apply orb_false_iff in Ha as [Ha0 Ha].
    destruct x as [|x0 x]; simpl; intros [= H0 Heq].
    + subst. by rewrite Ascii.eqb_refl in Ha0.
    + subst. destruct (IH x Ha Hb Heq) as [-> ->]. done.
Qed.

Lemma append_same_length_inj a b x y :
  String.length a = String.length x → a +:+ b = x +:+ y → a = x ∧ b = y.
Proof.
  revert x. induction a as [|a0 a IH]; intros [|x0 x]; simpl; try done.
  intros [= Hlen] [= -> Heq]. by destruct (IH x Hlen Heq) as [-> ->].
Qed.

(** The hash of the one token of a line with one colon. *)
Lemma getCsetHash_single_token_hash (pre digits hash tail : string) :
  pre = "" ∨ (∃ pre', pre = pre' +:+ " ") →
  mem_char Py.nl pre = false → mem_char ":" pre = false →
  digits ≠ "" → all_chars Re.digit digits = true →
  String.length hash = 12%nat → all_chars Re.word hash = true →
  mem_char ":" tail = false →
  hgCmds.getCsetHashFromBisectMsg (pre +:+ digits +:+ String ":" (hash +:+ tail))
  = Some hash.
Proof.
  intros Hshape Hnl Hcolon Hne Hdig Hlen Hword Htail.
  set (s := pre +:+ digits +:+ String ":" (hash +:+ tail)).
  assert (cset_token_on_first_line s hash) as Htok.
  { exists pre, digits, tail. split_and!; try done.
    destruct Hshape as [->|[pre' ->]]; [by left|]. right. exists pre'. split; [done|].
    rewrite mem_char_app in Hnl. by apply orb_false_iff in Hnl as [? _]. }
  destruct (getCsetHash_first_line_complete _ _ Htok) as [hash' Hret].
  rewrite Hret. f_equal.
  apply getCsetHash_first_line in Hret
    as (pre2 & digits2 & rest2 & Heq & _ & _ & Hdig2 & Hlen2 & _).
  unfold s in Heq. rewrite <- !append_assoc in Heq.
  apply cut_unique in Heq as [_ Heq].
  - apply append_same_length_inj in Heq as [-> _]; [done|congruence].
  - rewrite mem_char_app, Hcolon. by apply all_digit_no_colon.
  - rewrite mem_char_app, Htail. by rewrite (all_word_no_colon _ Hword).
Qed.

(** X7. On a line with one colon, the colon of a changeset token that is
    at the start of the line or follows a space,
    [getCsetHashFromBisectMsg] returns the twelve characters after the
    colon. *)
Theorem getCsetHash_of_single_token (pre digits hash tail : string) :
  pre = "" ∨ (∃ pre', pre = pre' +:+ " ") →
  mem_char Py.nl pre = false → mem_char ":" pre = false →
  digits ≠ "" → all_chars Re.digit digits = true →
  String.length hash = 12%nat → all_chars Re.word hash = true →
  mem_char ":" tail = false →
  hgCmds.getCsetHashFromBisectMsg (pre +:+ digits +:+ String ":" (hash +:+ tail))
  = Some hash.
Proof. apply getCsetHash_single_token_hash. Qed.

Lemma getCsetHash_of_single_token_witness :
  hgCmds.getCsetHashFromBisectMsg
    (("Testing changeset" +:+ " ") +:+ "41831"
     +:+ String ":" ("4f4c01fb42c3" +:+ " (2 changesets remaining, ~1 tests)"))
  = Some "4f4c01fb42c3".
Proof.
  apply (getCsetHash_of_single_token ("Testing changeset" +:+ " ") "41831"
           "4f4c01fb42c3" " (2 changesets remaining, ~1 tests)");
    try reflexivity; try discriminate.
  right. by eexists.
Defined.

(** ** The matcher's choice among several matches *)

Section MatcherRuns.
Context {R : Type}.

(** The greedy [c*] takes every character of the class when the
    continuation accepts what follows them. *)
Lemma star_takes_all p w s n (k : nat → string → option R) r :
  all_chars p w = true →
  k (n + String.length w)%nat s = Some r →
  match s with String c _ => p c = false | EmptyString => True end →
  Re.star p (w +:+ s) n k = Some r.
Proof.
  revert n. induction w as [|c w IH]; intros n Hw Hk Hs; simpl in *.
  - replace (n + 0)%nat with n in Hk by lia.
    destruct s as [|c s]; simpl; [done|]. by rewrite Hs.
  - apply andb_true_iff in Hw as [Hc Hw]. rewrite Hc.
    rewrite (IH (S n)); [done|done| |done].
    by replace (S n + String.length w)%nat with (n + S (String.length w))%nat by lia.
Qed.

Lemma star_accepting p s n (k : nat → string → option R) r :
  (∀ n' s', k n' s' = Some r) → Re.star p s n k = Some r.
Proof.
  intros Hk. revert n. induction s as [|c s IH]; intros n; simpl; [done|].
  destruct (p c); [|done]. by rewrite IH.
Qed.

(** A run of [c{n}] over [n] characters of the class has one way to go. *)
Lemma run_times_chr p w s n g (k : Re.mstate → option R) :
  all_chars p w = true →
  Re.run (Re.times (String.length w) (Re.Chr p)) (Re.MState n (w +:+ s) g) k
  = k (Re.MState (n + String.length w) s g).
Proof.
  revert n. induction w as [|c w IH]; intros n Hw; simpl in *.
  - by replace (n + 0)%nat with n by lia.
  - apply andb_true_iff in Hw as [Hc Hw]. rewrite Hc.
    rewrite IH by done.
    by replace (S n + String.length w)%nat with (n + S (String.length w))%nat by lia.
Qed.
End MatcherRuns.

(** From a number, a colon and twelve word characters on, the matcher
    goes through the rest of the changeset pattern without giving a
    character back, and group 3 holds the twelve characters. *)
Lemma cset_tail_run n d ds hash rest g :
  Re.digit d = true → all_chars Re.digit ds = true →
  String.length hash = 12%nat → all_chars Re.word hash = true →
  ∃ m,
    Re.run
      (Re.Seq (Re.Group 2 (Re.plus Re.digit))
      (Re.Seq (Re.Chr (Ascii.eqb ":"))
      (Re.Seq (Re.Group 3 (Re.times 12 (Re.Chr Re.word)))
              (Re.Star Re.dot))))
      (Re.MState n (String d (ds +:+ String ":" (hash +:+ rest))) g)
      (λ st, Some (Re.groups st)) = Some m
    ∧ m !! 3%nat = Some hash.
Proof.
  intros Hd Hds Hlen Hword. eexists. split.
  - unfold Re.plus. cbn [Re.run Re.rest Re.pos Re.groups]. rewrite Hd.
    apply star_takes_all; [done| |by vm_compute].
    cbn [Re.run Re.rest Re.pos Re.groups]. rewrite Ascii.eqb_refl.
    rewrite <- Hlen at 1. rewrite run_times_chr by done.
    cbn [Re.run Re.rest Re.pos Re.groups].
    apply star_accepting. intros. reflexivity.
  - rewrite lookup_insert_eq. f_equal.
    replace (S (S n + String.length ds) + String.length hash
             - S (S n + String.length ds))%nat
      with (String.length hash) by lia.
    apply substring_prefix.
Qed.

(** The first steps of the matcher on the changeset pattern, at the
    start of a string: the empty alternative of group 1 is tried
    first. *)
Lemma cset_pattern_run_start s (k : Re.mstate → option (gmap nat string)) :
  Re.run hgCmds.cset_pattern (Re.MState 0 s ∅) k
  = match
      Re.run
        (Re.Seq (Re.Group 2 (Re.plus Re.digit))
        (Re.Seq (Re.Chr (Ascii.eqb ":"))
        (Re.Seq (Re.Group 3 (Re.times 12 (Re.Chr Re.word)))
                (Re.Star Re.dot))))
        (Re.MState 0 s (<[1%nat := substring 0 (0 - 0) s]> ∅)) k
    with
    | Some m => Some m
    | None =>
        Re.run (Re.Seq (Re.Star Re.dot) (Re.Chr (Ascii.eqb " "))) (Re.MState 0 s ∅)
          (λ st1,
             Re.run
               (Re.Seq (Re.Group 2 (Re.plus Re.digit))
               (Re.Seq (Re.Chr (Ascii.eqb ":"))
               (Re.Seq (Re.Group 3 (Re.times 12 (Re.Chr Re.word)))
                       (Re.Star Re.dot))))
               (Re.MState (Re.pos st1) (Re.rest st1)
                  (<[1%nat := substring 0 (Re.pos st1 - 0) s]> (Re.groups st1))) k)
    end.
Proof. reflexivity. Qed.

(** X8. A string that begins with a changeset token gives the hash of
    that token, whatever follows it, later tokens included. *)
Theorem getCsetHash_of_leading_token (digits hash rest : string) :
  digits ≠ "" → all_chars Re.digit digits = true →
  String.length hash = 12%nat → all_chars Re.word hash = true →
  hgCmds.getCsetHashFromBisectMsg (digits +:+ String ":" (hash +:+ rest)) = Some hash.
Proof.
  intros Hne Hdig Hlen Hword.
  destruct digits as [|d ds]; [done|]. simpl in Hdig.
  apply andb_true_iff in Hdig as [Hd Hds].
  change (String d ds +:+ String ":" (hash +:+ rest))
    with (String d (ds +:+ String ":" (hash +:+ rest))).
  unfold hgCmds.getCsetHashFromBisectMsg, Re.re_match.
  rewrite cset_pattern_run_start.
  destruct (cset_tail_run 0 d ds hash rest
              (<[1%nat := substring 0 (0 - 0)
                         (String d (ds +:+ String ":" (hash +:+ rest)))]> ∅)
              Hd Hds Hlen Hword) as (m & Hrun & Hm).
  rewrite Hrun. exact Hm.
Qed.

Lemma getCsetHash_of_leading_token_witness :
  hgCmds.getCsetHashFromBisectMsg
    ("12345" +:+ String ":" ("abababababab" +:+ " y 7:cdcdcdcdcdcd"))
  = Some "abababababab".
Proof.
  apply (getCsetHash_of_leading_token "12345" "abababababab" " y 7:cdcdcdcdcdcd");
    try reflexivity; discriminate.
Defined.

(** X9. The assertions that [hgCmds.py] runs when it is imported
    (lines 39-41) hold. *)
Theorem hgCmds_import_assertions :
  hgCmds.getCsetHashFromBisectMsg "x 12345:abababababab" = Some "abababababab"
  ∧ hgCmds.getCsetHashFromBisectMsg "x 12345:123412341234" = Some "123412341234"
  ∧ hgCmds.getCsetHashFromBisectMsg "12345:abababababab y" = Some "abababababab".
Proof. by vm_compute. Qed.

(** ** What [bisectLabel] makes of the answers of [hg] *)

Lemma line_at_1 (line0 : string) (text : string) h :
  line_at (line0 :: Py.split Py.nl text) 1 h = (Ok (hd "" (Py.split Py.nl text)), h).
Proof.
  pose proof (split_not_nil Py.nl text).
  by destruct (Py.split Py.nl text).
Qed.

(** The first piece of a split, behind a prefix without the separator. *)
Lemma split_behind_prefix sep a s :
  mem_char sep a = false →
  Py.split sep (a +:+ s)
  = (a +:+ hd "" (Py.split sep s)) :: tl (Py.split sep s).
Proof.
  intros Ha. induction a as [|c a IH]; simpl in *.
  - pose proof (split_not_nil sep s). by destruct (Py.split sep s).
  - apply orb_false_iff in Ha as [Hc Ha]. rewrite Hc, (IH Ha). done.
Qed.



Section BisectLabelAnswers.
Variables (env : Env) (hgp : list string) (options : Options).
Variables (hgLabel currRev startRepo endRepo : string) (h : History).
Hypothesis label_ok : hgLabel = "good" ∨ hgLabel = "bad" ∨ hgLabel = "skip".

(** The call up to the tests of the first line of the output. *)
Lemma bisectLabel_after_hg out :
  hg env h (hgp ++ ["bisect"; "-U"; "--" +:+ hgLabel; currRev]) = Ok out →
  bisectLabel env hgp options hgLabel currRev startRepo endRepo h
  = (let outputLines := Py.split Py.nl out in
     let repo_dir :=
       match buildOptions options with
       | Some d => d
       | None => browserOptions options
       end in
     let line0 := hd "" outputLines in
     match Re.re_match could_be_any_pattern line0 with
     | Some _ =>
         load_name_in bisectLabel_locals "sanitizeCsetMsg" ;;
         print (nl_string +:+ sanitizeCsetMsg out repo_dir +:+ nl_string) ;;
         mret (None, None, None, startRepo, endRepo)
     | None =>
         match Re.re_match first_revision_pattern line0 with
         | Some m =>
             print (nl_string +:+ nl_string +:+
                    "autoBisect shows this is probably related to the following changeset:"
                    +:+ nl_string) ;;
             load_name_in bisectLabel_locals "sanitizeCsetMsg" ;;
             print (sanitizeCsetMsg out repo_dir +:+ nl_string) ;;
             line1 ← line_at outputLines 1;
             mret (Re.group m 1, hgCmds.getCsetHashFromBisectMsg line1, None,
                   startRepo, endRepo)
         | None =>
             if testInitialRevs options then
               mret (None, None, None, startRepo, endRepo)
             else
               log "vdump" line0 ;;
               match hgCmds.getCsetHashFromBisectMsg line0 with
               | None =>
                   print "Resetting to default revision..." ;;
                   run_hg env (hgp ++ ["update"; "-C"; "default"]) ;;
                   hgCmds.destroyPyc repo_dir ;;
                   raise (Exception "hg did not suggest a changeset to test!")
               | Some rev =>
                   mret (None, None, Some rev,
                         (if String.eqb hgLabel "good" then rev else startRepo),
                         (if String.eqb hgLabel "bad" then rev else endRepo))
               end
         end
     end)
      (EvHg (hgp ++ ["bisect"; "-U"; "--" +:+ hgLabel; currRev]) (Ok out) :: h).
Proof using label_ok.
  intros Hout. unfold bisectLabel.
  unfold mbind at 1 2, M_bind at 1 2, bind at 1 2, assert, run_hg.
  assert (String.eqb hgLabel "good" || String.eqb hgLabel "bad"
          || String.eqb hgLabel "skip" = true) as ->.
  { by destruct label_ok as [->|[->| ->]]. }
  cbn [mret M_ret ret]. rewrite Hout. cbv zeta.
  unfold mbind at 1, M_bind at 1, bind at 1. rewrite line_at_0.
  repeat case_match; simplify_eq; try done.
  all: repeat match goal with
         | H : String.eqb _ _ = true |- _ => apply String.eqb_eq in H
         | H : String.eqb _ _ = false |- _ => apply String.eqb_neq in H
         end; by simplify_eq.
Qed.

(** X10. [bisectLabel] reports no blamed revision.  When [hg] answers
    ["The first good revision is:"] or ["The first bad revision is:"],
    the call prints the line that announces the changeset and then
    raises [NameError]: line 220 reads [sanitizeCsetMsg], a name of the
    body of the class that no scope of the function binds.  And
    whenever the call returns, the blamed label and the blamed revision
    that it returns are [None]. *)
Theorem bisectLabel_final_verdict_raises :
  (∀ gb rest : string,
     gb = "good" ∨ gb = "bad" →
     hg env h (hgp ++ ["bisect"; "-U"; "--" +:+ hgLabel; currRev])
     = Ok ("The first " +:+ gb +:+ " revision is:" +:+ rest) →
     bisectLabel env hgp options hgLabel currRev startRepo endRepo h
     = (Raised (NameError "sanitizeCsetMsg"),
        EvPrint (nl_string +:+ nl_string +:+
                 "autoBisect shows this is probably related to the following changeset:"
                 +:+ nl_string)
        :: EvHg (hgp ++ ["bisect"; "-U"; "--" +:+ hgLabel; currRev])
             (Ok ("The first " +:+ gb +:+ " revision is:" +:+ rest))
        :: h))
  ∧ (∀ (blamedGoodOrBad blamedRev rev : PyVal) (start end_ : string),
       (bisectLabel env hgp options hgLabel currRev startRepo endRepo h).1
       = Ok (blamedGoodOrBad, blamedRev, rev, start, end_) →
       blamedGoodOrBad = None ∧ blamedRev = None).
Proof using label_ok.
  split.
  - intros gb rest Hgb Hout. rewrite (bisectLabel_after_hg _ Hout). cbv zeta.
    destruct Hgb as [-> | ->].
    + change ("The first " +:+ "good" +:+ " revision is:" +:+ rest)
        with ("The first good revision is:" +:+ rest).
      rewrite split_behind_prefix by (by vm_compute). cbn [hd].
      replace (Re.re_match could_be_any_pattern
                 ("The first good revision is:" +:+ hd "" (Py.split Py.nl rest)))
        with (@None (gmap nat string)) by (by vm_compute).
      assert (is_Some (Re.re_match first_revision_pattern
                ("The first good revision is:" +:+ hd "" (Py.split Py.nl rest))))
        as [m ->].
      { eexists. vm_compute. reflexivity. }
      reflexivity.
    + change ("The first " +:+ "bad" +:+ " revision is:" +:+ rest)
        with ("The first bad revision is:" +:+ rest).
      rewrite split_behind_prefix by (by vm_compute). cbn [hd].
      replace (Re.re_match could_be_any_pattern
                 ("The first bad revision is:" +:+ hd "" (Py.split Py.nl rest)))
        with (@None (gmap nat string)) by (by vm_compute).
      assert (is_Some (Re.re_match first_revision_pattern
                ("The first bad revision is:" +:+ hd "" (Py.split Py.nl rest))))
        as [m ->].
      { eexists. vm_compute. reflexivity. }
      reflexivity.
  - intros blamedGoodOrBad blamedRev rev start end_.
    destruct (hg env h (hgp ++ ["bisect"; "-U"; "--" +:+ hgLabel; currRev]))
      as [out|e] eqn:Hout.
    2:{ unfold bisectLabel.
        unfold mbind at 1 2, M_bind at 1 2, bind at 1 2, assert, run_hg.
        assert (String.eqb hgLabel "good" || String.eqb hgLabel "bad"
                || String.eqb hgLabel "skip" = true) as ->.
        { by destruct label_ok as [->|[->| ->]]. }
        cbn [mret M_ret ret]. by rewrite Hout. }
    rewrite (bisectLabel_after_hg _ Hout). cbv zeta.
    destruct (Re.re_match could_be_any_pattern _); [done|].
    destruct (Re.re_match first_revision_pattern _); [done|].
    destruct (testInitialRevs options); [by intros [= <- <- _ _ _]|].
    unfold mbind at 1, M_bind at 1, bind at 1. cbn [log emit].
    destruct (hgCmds.getCsetHashFromBisectMsg _); [by intros [= <- <- _ _ _]|].
    unfold mbind, M_bind, bind, print, run_hg, hgCmds.destroyPyc, emit, raise.
    by destruct (hg env _ (hgp ++ ["update"; "-C"; "default"])).
Qed.

(** X11. When [hg] answers that, due to skipped revisions, the first
    good or bad revision could be any of several, [bisectLabel] raises
    [NameError] at line 213, where it reads [sanitizeCsetMsg], before it
    prints anything: the run has no event after the [hg] command,
    whatever the label it was given and whatever follows in the
    output. *)
Theorem bisectLabel_could_be_any_raises (gb rest : string) :
  gb = "good" ∨ gb = "bad" →
  hg env h (hgp ++ ["bisect"; "-U"; "--" +:+ hgLabel; currRev])
  = Ok ("Due to skipped revisions, the first " +:+ gb
        +:+ " revision could be any of:" +:+ rest) →
  bisectLabel env hgp options hgLabel currRev startRepo endRepo h
  = (Raised (NameError "sanitizeCsetMsg"),
     [EvHg (hgp ++ ["bisect"; "-U"; "--" +:+ hgLabel; currRev])
        (Ok ("Due to skipped revisions, the first " +:+ gb
             +:+ " revision could be any of:" +:+ rest))] ++ h)%list.
Proof using label_ok.
  intros Hgb Hout. rewrite (bisectLabel_after_hg _ Hout). cbv zeta.
  destruct Hgb as [-> | ->].
  - change ("Due to skipped revisions, the first " +:+ "good"
            +:+ " revision could be any of:" +:+ rest)
      with ("Due to skipped revisions, the first good revision could be any of:"
            +:+ rest).
    rewrite split_behind_prefix by (by vm_compute). cbn [hd].
    assert (is_Some (Re.re_match could_be_any_pattern
              ("Due to skipped revisions, the first good revision could be any of:"
               +:+ hd "" (Py.split Py.nl rest)))) as [m ->].
    { eexists. vm_compute. reflexivity. }
    reflexivity.
  - change ("Due to skipped revisions, the first " +:+ "bad"
            +:+ " revision could be any of:" +:+ rest)
      with ("Due to skipped revisions, the first bad revision could be any of:"
            +:+ rest).
    rewrite split_behind_prefix by (by vm_compute). cbn [hd].
    assert (is_Some (Re.re_match could_be_any_pattern
              ("Due to skipped revisions, the first bad revision could be any of:"
               +:+ hd "" (Py.split Py.nl rest)))) as [m ->].
    { eexists. vm_compute. reflexivity. }
    reflexivity.
Qed.


End BisectLabelAnswers.

Lemma bisectLabel_final_verdict_raises_witness :
  bisectLabel
    (Examples.env_reply ("The first " +:+ "bad" +:+ " revision is:"
                         +:+ String Py.nl "changeset:   52121:573c5fa45cc4"))
    ["hg"; "-R"; "repo"] Examples.options "bad" "aaaaaaaaaaaa" "start" "end" []
  = (Raised (NameError "sanitizeCsetMsg"),
     [EvPrint (nl_string +:+ nl_string +:+
               "autoBisect shows this is probably related to the following changeset:"
               +:+ nl_string);
      EvHg ["hg"; "-R"; "repo"; "bisect"; "-U"; "--bad"; "aaaaaaaaaaaa"]
        (Ok ("The first " +:+ "bad" +:+ " revision is:"
             +:+ String Py.nl "changeset:   52121:573c5fa45cc4"))]).
Proof.
  apply (proj1 (bisectLabel_final_verdict_raises
                  (Examples.env_reply ("The first " +:+ "bad" +:+ " revision is:"
                     +:+ String Py.nl "changeset:   52121:573c5fa45cc4"))
                  ["hg"; "-R"; "repo"] Examples.options "bad" "aaaaaaaaaaaa"
                  "start" "end" [] (or_intror (or_introl eq_refl)))
           "bad" (String Py.nl "changeset:   52121:573c5fa45cc4") (or_intror eq_refl)).
  reflexivity.
Defined.

Lemma bisectLabel_could_be_any_raises_witness :
  bisectLabel
    (Examples.env_reply ("Due to skipped revisions, the first " +:+ "bad"
                         +:+ " revision could be any of:" +:+ " and more"))
    ["hg"; "-R"; "repo"] Examples.options "skip" "aaaaaaaaaaaa" "start" "end" []
  = (Raised (NameError "sanitizeCsetMsg"),
     [EvHg ["hg"; "-R"; "repo"; "bisect"; "-U"; "--skip"; "aaaaaaaaaaaa"]
        (Ok ("Due to skipped revisions, the first " +:+ "bad"
             +:+ " revision could be any of:" +:+ " and more"))]).
Proof.
  apply (bisectLabel_could_be_any_raises
           (Examples.env_reply ("Due to skipped revisions, the first " +:+ "bad"
              +:+ " revision could be any of:" +:+ " and more"))
           ["hg"; "-R"; "repo"] Examples.options "skip" "aaaaaaaaaaaa"
           "start" "end" [] (or_intror (or_intror eq_refl))
           "bad" " and more" (or_intror eq_refl)).
  reflexivity.
Defined.


(** ** The baseline and the loop, event by event *)

(** X13. When the testcase does not reproduce at the end revision, or
    that revision is skipped, [establish_baseline] fails at once: it
    has checked out and evaluated the end revision only, it never
    touches the start revision, and [self.baseline] holds the result
    all the same. *)
Theorem establish_baseline_stops_at_end (env : Env) (self : Bisector)
    (start end_ : string) (h : History) (out : string) (r : PyVal) :
  hg env (EvLog "info" "Attempting to establish baseline for testcase" :: h)
    (hg_prefix self ++ ["update"; "-r"; end_]) = Ok out →
  evaluate_testcase env
    (EvHg (hg_prefix self ++ ["update"; "-r"; end_]) (Ok out)
     :: EvLog "info" "Attempting to establish baseline for testcase" :: h) end_ = Ok r →
  r = None ∨ r = Some "skip" →
  establish_baseline env self start end_ h
  = (Ok (false, set_baseline self r),
     EvLog "error" "Unable to establish baseline!"
     :: EvTestcase end_ (Ok r)
     :: EvHg (hg_prefix self ++ ["update"; "-r"; end_]) (Ok out)
     :: EvLog "info" "Attempting to establish baseline for testcase" :: h).
Proof.
  intros Hhg Heval Hr.
  unfold establish_baseline, log, emit, run_hg, call_evaluate_testcase.
  unfold mbind, M_bind, bind. cbn [mret M_ret ret].
  rewrite Hhg, Heval. by destruct Hr as [-> | ->].
Qed.

Lemma establish_baseline_stops_at_end_witness :
  establish_baseline (Examples.env_reply "") Examples.session "s" "e" []
  = (Ok (false, set_baseline Examples.session None),
     [EvLog "error" "Unable to establish baseline!";
      EvTestcase "e" (Ok None);
      EvHg (hg_prefix Examples.session ++ ["update"; "-r"; "e"]) (Ok "");
      EvLog "info" "Attempting to establish baseline for testcase"]).
Proof.
  apply (establish_baseline_stops_at_end (Examples.env_reply "") Examples.session
           "s" "e" [] "" None); [reflexivity|reflexivity|by left].
Defined.


(** X14. The search loop stays on one revision: every evaluation of a
    run is of the revision the loop began with, the loop calls no
    subprocess, and when it is left or still running [current_rev] and
    [blame] are what they were and no other revision has got a label. *)
Theorem loop_stays_on_one_revision (env : Env) (fuel : nat) (st : LoopState)
    (h : History) :
  (∃ evs, (while_loop env fuel st h).2 = (evs ++ h)%list
          ∧ Forall (loop_event (current_rev st)) evs)
  ∧ ∀ exit,
      (while_loop env fuel st h).1 = Ok exit →
      current_rev (exit_state exit) = current_rev st
      ∧ blame (exit_state exit) = blame st
      ∧ ∀ rev, rev ≠ current_rev st →
          labels (exit_state exit) !! rev = labels st !! rev.
Proof.
  revert st h. induction fuel as [|fuel IH]; intros st h; simpl.
  - destruct (current_rev st) eqn:Hrev; simpl;
      (split; [by exists []|by intros exit [= <-]]).
  - destruct (current_rev st) as [rev|] eqn:Hrev; simpl.
    2:{ split; [by exists []|]. by intros exit [= <-]. }
    unfold mbind, M_bind, bind. rewrite loop_body_eq, Hrev.
    destruct (evaluator env h (Some rev)) as [label|e]; simpl.
    2:{ split; [|done]. eexists [_]. split; [done|]. by repeat constructor. }
    set (st1 := set_labels st (<[Some rev := label]> (labels st))).
    assert (∀ rev', rev' ≠ Some rev → labels st1 !! rev' = labels st !! rev') as Hlab.
    { intros rev' Hne. simpl. by rewrite lookup_insert_ne. }
    destruct (String.eqb label.1 "skip").
    + destruct (skip_count st + 1 >? 20); simpl.
      * split; [|by intros exit [= <-]].
        eexists [_; _]. split; [done|]. by repeat constructor.
      * destruct (IH (set_iter_count (set_skip_count st1 (skip_count st + 1))
                        (iter_count st + 1))
                     (EvLog "info" (label.1 +:+ " (" +:+ label.2 +:+ ") ")
                      :: EvEvaluator (Some rev) (Ok label) :: h))
          as [(evs & Hevs & Hall) Hexit].
        simpl in *. rewrite Hrev in *. split.
        -- exists (evs ++ [EvLog "info" (label.1 +:+ " (" +:+ label.2 +:+ ") ");
                           EvEvaluator (Some rev) (Ok label)])%list.
           rewrite <- app_assoc. split; [done|].
           apply Forall_app. split; [done|]. by repeat constructor.
        -- intros exit Hrun. destruct (Hexit exit Hrun) as (Hc & Hb & Hl).
           split_and!; [done..|]. intros rev' Hne. rewrite Hl by done.
           by apply Hlab.
    + destruct (IH (set_iter_count st1 (iter_count st + 1))
                   (EvLog "info" (label.1 +:+ " (" +:+ label.2 +:+ ") ")
                    :: EvEvaluator (Some rev) (Ok label) :: h))
        as [(evs & Hevs & Hall) Hexit].
      simpl in *. rewrite Hrev in *. split.
      * exists (evs ++ [EvLog "info" (label.1 +:+ " (" +:+ label.2 +:+ ") ");
                        EvEvaluator (Some rev) (Ok label)])%list.
        rewrite <- app_assoc. split; [done|].
        apply Forall_app. split; [done|]. by repeat constructor.
      * intros exit Hrun. destruct (Hexit exit Hrun) as (Hc & Hb & Hl).
        split_and!; [done..|]. intros rev' Hne. rewrite Hl by done.
        by apply Hlab.
Qed.

Lemma loop_stays_on_one_revision_witness :
  ∃ exit,
    (while_loop (Examples.env_const ("skip", "x")) 1 Examples.twenty_skips []).1 = Ok exit
    ∧ current_rev (exit_state exit) = Some "crash"
    ∧ blame (exit_state exit) = None.
Proof.
  exists (Broke Examples.one_more_skip). split; [reflexivity|].
  destruct (proj2 (loop_stays_on_one_revision (Examples.env_const ("skip", "x")) 1
                     Examples.twenty_skips [])
              (Broke Examples.one_more_skip) eq_refl) as (Hrev & Hblame & _).
  split; [exact Hrev|exact Hblame].
Defined.

(** X15. With an evaluator that answers [skip] to every call the loop
    stops by itself: from a state with [skip_count] between 0 and 20 it
    breaks at the evaluation that brings the counter to 21, and
    [iter_count], which the breaking iteration does not increment, has
    grown by one less than the number of evaluations. *)
Theorem loop_stops_at_the_21st_skip (env : Env) (st : LoopState) (h : History)
    (fuel : nat) :
  (∀ h rev, ∃ reason, evaluator env h rev = Ok ("skip", reason)) →
  current_rev st ≠ None →
  (0 ≤ skip_count st ≤ 20)%Z →
  (21 - skip_count st ≤ Z.of_nat fuel)%Z →
  ∃ st' h',
    while_loop env fuel st h = (Ok (Broke st'), h')
    ∧ skip_count st' = 21
    ∧ iter_count st' = iter_count st + (20 - skip_count st).
Proof. apply loop_breaks_at_skip_limit. Qed.

Lemma loop_stops_at_the_21st_skip_witness :
  ∃ st' h',
    while_loop (Examples.env_const ("skip", "x")) 30
      (initial_state Examples.established_session) [] = (Ok (Broke st'), h')
    ∧ skip_count st' = 21
    ∧ iter_count st' = iter_count (initial_state Examples.established_session)
                       + (20 - skip_count (initial_state Examples.established_session)).
Proof.
  apply (loop_stops_at_the_21st_skip (Examples.env_const ("skip", "x"))
           (initial_state Examples.established_session) [] 30).
  - intros h rev. by exists "x".
  - discriminate.
  - simpl. lia.
  - simpl. lia.
Defined.

(** X16. With an evaluator that never answers [skip] and never raises
    the loop has no exit: after any number of iterations it is still
    running, and [iter_count] has grown by that number. *)
Theorem loop_has_no_exit_without_skip (env : Env) (fuel : nat) (st : LoopState)
    (h : History) :
  (∀ h rev, ∃ label, evaluator env h rev = Ok label ∧ String.eqb label.1 "skip" = false) →
  current_rev st ≠ None →
  ∃ st' h',
    while_loop env fuel st h = (Ok (Running st'), h')
    ∧ iter_count st' = iter_count st + Z.of_nat fuel.
Proof. intros Henv Hrev. by apply loop_keeps_running. Qed.

Lemma loop_has_no_exit_without_skip_witness :
  ∃ st' h',
    while_loop (Examples.env_const ("bad", "crash")) 5
      (initial_state Examples.established_session) [] = (Ok (Running st'), h')
    ∧ iter_count st' = iter_count (initial_state Examples.established_session)
                       + Z.of_nat 5.
Proof.
  apply (loop_has_no_exit_without_skip (Examples.env_const ("bad", "crash")) 5
           (initial_state Examples.established_session) []).
  - intros h rev. by exists ("bad", "crash").
  - discriminate.
Defined.

(** X17. No run of [bisect] reaches the end of the function: whatever
    the environment answers, the call does not return normally after a
    search, and the events of the run do not hold the reset of the
    bisect state, the restoring of the working copy and the removal of
    the compiled files that end the function. *)
Theorem bisect_end_is_unreachable (env : Env) (self : Bisector) (fuel : nat)
    (h : History) :
  (bisect env self fuel h).1 ≠ Ok Completed
  ∧ ∃ evs,
      (bisect env self fuel h).2 = (evs ++ h)%list ∧ cleaned_up self evs = false.
Proof. split; [apply bisect_never_completes|apply bisect_never_cleans_up]. Qed.

(** ** Resolving a revision: [getRepoHashAndId] *)

Lemma append_space_not_empty a b : String.eqb (a +:+ String " " b) "" = false.
Proof. by destruct a. Qed.

Lemma split_two_fields a b :
  mem_char " " a = false → mem_char " " b = false →
  Py.split " " (a +:+ String " " b) = [a; b].
Proof.
  intros Ha Hb.
  by rewrite split_app_sep_general, (split_sep_free_string _ _ Ha),
       (split_sep_free_string _ _ Hb).
Qed.

(** The end of [getRepoHashAndId], from the assertion on. *)
Lemma getRepoHashAndId_fields hash rev onDefault h :
  mem_char " " hash = false → mem_char " " rev = false →
  (assert (negb (String.eqb (hash +:+ String " " rev) "")) ;;
   match Py.split " " (hash +:+ String " " rev) with
   | [hgIdChangesetHash; hgIdLocalNum] =>
       log "vdump" "Finished getting the hash and local id number of the repository." ;;
       ret (hgIdChangesetHash, hgIdLocalNum, onDefault)
   | _ => raise ValueError
   end) h
  = (Ok (hash, rev, onDefault : bool),
     EvLog "vdump" "Finished getting the hash and local id number of the repository."
     :: h).
Proof.
  intros Hhash Hrev. rewrite append_space_not_empty, split_two_fields by done.
  reflexivity.
Qed.

(** X18. When [hg log] prints a hash and a local number with a space
    between them, [getRepoHashAndId] returns the two fields and [True]:
    it has run that one command, and it has asked nothing. *)
Theorem getRepoHashAndId_on_default (env : Env) (repoDir repoRev : string)
    (h : History) (hash rev : string) :
  mem_char " " hash = false → mem_char " " rev = false →
  hg env h (resolve_cmd repoDir repoRev) = Ok (hash +:+ String " " rev) →
  hgCmds.getRepoHashAndId env repoDir repoRev h
  = (Ok (hash, rev, true),
     EvLog "vdump" "Finished getting the hash and local id number of the repository."
     :: EvHg (resolve_cmd repoDir repoRev) (Ok (hash +:+ String " " rev)) :: h).
Proof.
  intros Hhash Hrev Hout. unfold hgCmds.getRepoHashAndId. cbv zeta.
  fold (resolve_cmd repoDir repoRev).
  unfold mbind at 1, M_bind at 1, bind at 1, run_hg. rewrite !Hout.
  rewrite append_space_not_empty. cbn [negb].
  unfold mbind at 1, M_bind at 1, bind at 1. cbn [ret].
  by rewrite getRepoHashAndId_fields.
Qed.

Lemma getRepoHashAndId_on_default_witness :
  hgCmds.getRepoHashAndId (Examples.env_const ("good", "")) "repo" "tip" []
  = (Ok ("tip", "0", true),
     [EvLog "vdump" "Finished getting the hash and local id number of the repository.";
      EvHg (resolve_cmd "repo" "tip") (Ok ("tip" +:+ String " " "0"))]).
Proof.
  apply (getRepoHashAndId_on_default (Examples.env_const ("good", "")) "repo" "tip"
           [] "tip" "0"); reflexivity.
Defined.

(** [getRepoHashAndId] when the first [hg log] printed nothing: up to
    the second query. *)
Lemma getRepoHashAndId_asks (env : Env) (repoDir repoRev : string) (h : History) :
  hg env h (resolve_cmd repoDir repoRev) = Ok "" →
  let h1 := EvHg (resolve_cmd repoDir repoRev) (Ok "") :: h in
  let answer := raw_input env h1 default_prompt in
  let h2 := EvRawInput default_prompt answer :: h1 in
  hgCmds.getRepoHashAndId env repoDir repoRev h
  = ('(hgIdFull, onDefault) ←
       ('(hgLogTmplList, onDefault) ←
          (if String.eqb answer "a" then
             print "Aborting..." ;; raise SystemExit
           else if String.eqb answer "d" then
             run_hg env (update_default_cmd repoDir) ;;
             ret (resolve_cmd repoDir repoRev, true)
           else if String.eqb answer "u" then
             ret (resolve_cmd repoDir "parents()", false)
           else raise (Exception "Invalid choice."));
        hgIdFull ← run_hg env hgLogTmplList;
        ret (hgIdFull, onDefault : bool));
     assert (negb (String.eqb hgIdFull "")) ;;
     match Py.split " " hgIdFull with
     | [hgIdChangesetHash; hgIdLocalNum] =>
         log "vdump" "Finished getting the hash and local id number of the repository." ;;
         ret (hgIdChangesetHash, hgIdLocalNum, onDefault)
     | _ => raise ValueError
     end) h2.
Proof.
  intros Hout h1 answer h2. unfold hgCmds.getRepoHashAndId. cbv zeta.
  fold (resolve_cmd repoDir repoRev). fold default_prompt.
  fold (resolve_cmd repoDir "parents()"). fold (update_default_cmd repoDir).
  unfold mbind at 1, M_bind at 1, bind at 1, run_hg at 1. rewrite !Hout.
  cbn [String.eqb negb].
  unfold mbind at 1, M_bind at 1, bind at 1.
  unfold mbind at 1, M_bind at 1, bind at 1.
  unfold call_raw_input at 1. cbv zeta. fold h1. fold answer. fold h2.
  reflexivity.
Qed.
(** X19. When the first [hg log] prints nothing, [getRepoHashAndId]
    asks the user once.  The answer [a] prints [Aborting...] and exits;
    an answer that is none of [a], [d] and [u] raises [Exception] with
    the message [Invalid choice.]; in both cases no other [hg] command
    has been run. *)
Theorem getRepoHashAndId_abort_or_invalid (env : Env) (repoDir repoRev : string)
    (h : History) :
  hg env h (resolve_cmd repoDir repoRev) = Ok "" →
  let h1 := EvHg (resolve_cmd repoDir repoRev) (Ok "") :: h in
  let answer := raw_input env h1 default_prompt in
  let h2 := EvRawInput default_prompt answer :: h1 in
  (answer = "a" →
   hgCmds.getRepoHashAndId env repoDir repoRev h
   = (Raised SystemExit, EvPrint "Aborting..." :: h2))
  ∧ (answer ≠ "a" → answer ≠ "d" → answer ≠ "u" →
     hgCmds.getRepoHashAndId env repoDir repoRev h
     = (Raised (Exception "Invalid choice."), h2)).
Proof.
  intros Hout h1 answer h2.
  rewrite (getRepoHashAndId_asks env repoDir repoRev h Hout).
  fold h1. fold answer. fold h2. split.
  - intros ->. reflexivity.
  - intros Ha Hd Hu.
    apply String.eqb_neq in Ha, Hd, Hu. rewrite Ha, Hd, Hu. reflexivity.
Qed.

Lemma getRepoHashAndId_abort_or_invalid_witness :
  hgCmds.getRepoHashAndId (env_off_default "x" "abc 7") "repo" "tip" []
  = (Raised (Exception "Invalid choice."),
     [EvRawInput default_prompt "x"; EvHg (resolve_cmd "repo" "tip") (Ok "")]).
Proof.
  destruct (getRepoHashAndId_abort_or_invalid (env_off_default "x" "abc 7")
              "repo" "tip" [] eq_refl) as [_ Hinvalid].
  apply Hinvalid; discriminate.
Defined.

(** X20. After the answer [u] the function asks [hg log] for
    [parents()] and returns what it prints with [False]; after the
    answer [d] it runs [hg update default], asks again for the same
    revision and returns what [hg log] prints with [True]. *)
Theorem getRepoHashAndId_use_or_update (env : Env) (repoDir repoRev : string)
    (h : History) (hash rev : string) :
  hg env h (resolve_cmd repoDir repoRev) = Ok "" →
  mem_char " " hash = false → mem_char " " rev = false →
  let h1 := EvHg (resolve_cmd repoDir repoRev) (Ok "") :: h in
  let answer := raw_input env h1 default_prompt in
  let h2 := EvRawInput default_prompt answer :: h1 in
  let done_ := EvLog "vdump" "Finished getting the hash and local id number of the repository." in
  (answer = "u" →
   hg env h2 (resolve_cmd repoDir "parents()") = Ok (hash +:+ String " " rev) →
   hgCmds.getRepoHashAndId env repoDir repoRev h
   = (Ok (hash, rev, false),
      done_ :: EvHg (resolve_cmd repoDir "parents()") (Ok (hash +:+ String " " rev))
      :: h2))
  ∧ (answer = "d" →
     ∀ out : string,
       hg env h2 (update_default_cmd repoDir) = Ok out →
       let h3 := EvHg (update_default_cmd repoDir) (Ok out) :: h2 in
       hg env h3 (resolve_cmd repoDir repoRev) = Ok (hash +:+ String " " rev) →
       hgCmds.getRepoHashAndId env repoDir repoRev h
       = (Ok (hash, rev, true),
          done_ :: EvHg (resolve_cmd repoDir repoRev) (Ok (hash +:+ String " " rev))
          :: h3)).
Proof.
  intros Hout Hhash Hrev h1 answer h2 done_.
  rewrite (getRepoHashAndId_asks env repoDir repoRev h Hout).
  fold h1. fold answer. fold h2. split.
  - intros -> Hsecond. cbn [String.eqb Ascii.eqb Bool.eqb].
    unfold mbind at 1, M_bind at 1, bind at 1.
    unfold mbind at 1, M_bind at 1, bind at 1. cbn [ret].
    unfold mbind at 1, M_bind at 1, bind at 1, run_hg at 1. cbv zeta.
    rewrite !Hsecond. cbn [ret].
    by rewrite getRepoHashAndId_fields.
  - intros -> out Hupdate h3 Hsecond. cbn [String.eqb Ascii.eqb Bool.eqb].
    unfold mbind at 1, M_bind at 1, bind at 1.
    unfold mbind at 1, M_bind at 1, bind at 1.
    unfold mbind at 1, M_bind at 1, bind at 1, run_hg at 1. cbv zeta.
    rewrite !Hupdate. fold h3. cbn [ret].
    unfold mbind at 1, M_bind at 1, bind at 1, run_hg at 1. cbv zeta.
    rewrite !Hsecond. cbn [ret].
    by rewrite getRepoHashAndId_fields.
Qed.

Lemma getRepoHashAndId_use_or_update_witness :
  hgCmds.getRepoHashAndId (env_off_default "u" "abc 7") "repo" "tip" []
  = (Ok ("abc", "7", false),
     [EvLog "vdump" "Finished getting the hash and local id number of the repository.";
      EvHg (resolve_cmd "repo" "parents()") (Ok "abc 7");
      EvRawInput default_prompt "u"; EvHg (resolve_cmd "repo" "tip") (Ok "")]).
Proof.
  destruct (getRepoHashAndId_use_or_update (env_off_default "u" "abc 7")
              "repo" "tip" [] "abc" "7" eq_refl eq_refl eq_refl) as [Huse _].
  apply Huse; reflexivity.
Defined.

(** X21. Output of [hg log] that is not two fields with one space
    between them is refused: a line that is not empty and does not
    split at spaces into two fields raises [ValueError], and an empty
    answer to the second query, after [u], raises [AssertionError]. *)
Theorem getRepoHashAndId_malformed_output (env : Env) (repoDir repoRev : string)
    (h : History) :
  (∀ out : string,
     hg env h (resolve_cmd repoDir repoRev) = Ok out →
     out ≠ "" → length (Py.split " " out) ≠ 2%nat →
     hgCmds.getRepoHashAndId env repoDir repoRev h
     = (Raised ValueError, EvHg (resolve_cmd repoDir repoRev) (Ok out) :: h))
  ∧ (hg env h (resolve_cmd repoDir repoRev) = Ok "" →
     let h1 := EvHg (resolve_cmd repoDir repoRev) (Ok "") :: h in
     let h2 := EvRawInput default_prompt "u" :: h1 in
     raw_input env h1 default_prompt = "u" →
     hg env h2 (resolve_cmd repoDir "parents()") = Ok "" →
     hgCmds.getRepoHashAndId env repoDir repoRev h
     = (Raised AssertionError, EvHg (resolve_cmd repoDir "parents()") (Ok "") :: h2)).
Proof.
  split.
  - intros out Hout Hne Hlen. unfold hgCmds.getRepoHashAndId. cbv zeta.
    fold (resolve_cmd repoDir repoRev).
    unfold mbind at 1, M_bind at 1, bind at 1, run_hg at 1. rewrite !Hout.
    apply String.eqb_neq in Hne. rewrite Hne. cbn [negb].
    unfold mbind at 1, M_bind at 1, bind at 1. cbn [ret].
    rewrite Hne. cbn [negb assert].
    destruct (Py.split " " out) as [|a [|b [|c l]]]; try reflexivity.
    by destruct Hlen.
  - intros Hout h1 h2 Hanswer Hsecond.
    rewrite (getRepoHashAndId_asks env repoDir repoRev h Hout).
    fold h1. rewrite Hanswer. fold h2. cbn [String.eqb Ascii.eqb Bool.eqb].
    unfold mbind at 1, M_bind at 1, bind at 1.
    unfold mbind at 1, M_bind at 1, bind at 1. cbn [ret].
    unfold mbind at 1, M_bind at 1, bind at 1, run_hg at 1. cbv zeta.
    rewrite !Hsecond. reflexivity.
Qed.

Lemma getRepoHashAndId_malformed_output_witness :
  hgCmds.getRepoHashAndId (Examples.env_reply "abc") "repo" "tip" []
  = (Raised ValueError, [EvHg (resolve_cmd "repo" "tip") (Ok "abc")])
  ∧ hgCmds.getRepoHashAndId (env_off_default "u" "") "repo" "tip" []
    = (Raised AssertionError,
       [EvHg (resolve_cmd "repo" "parents()") (Ok "");
        EvRawInput default_prompt "u"; EvHg (resolve_cmd "repo" "tip") (Ok "")]).
Proof.
  split.
  - apply (proj1 (getRepoHashAndId_malformed_output (Examples.env_reply "abc")
                    "repo" "tip" []) "abc"); [reflexivity|discriminate|discriminate].
  - apply (proj2 (getRepoHashAndId_malformed_output (env_off_default "u" "")
                    "repo" "tip" [])); reflexivity.
Defined.

(** ** The parents of the blamed revision: [checkBlameParents] *)

(** The nodes are read back from what [hg parent] prints. *)
Lemma split_nodes_output nodes :
  Forall (λ node, mem_char "," node = false) nodes →
  Py.but_last (Py.split "," (nodes_output nodes)) = nodes.
Proof.
  induction 1 as [|node nodes Hnode _ IH]; [done|].
  simpl nodes_output. rewrite split_app_sep by done.
  pose proof (split_not_nil "," (nodes_output nodes)) as Hne.
  unfold Py.but_last in *. simpl.
  destruct (Py.split "," (nodes_output nodes)); [done|]. by rewrite IH.
Qed.

Lemma blamed_parents_nodes env repo blamedRev h nodes :
  Forall (λ node, mem_char "," node = false) nodes →
  hg env h (parents_cmd repo blamedRev) = Ok (nodes_output nodes) →
  blamed_parents env repo blamedRev h
  = (Ok nodes, EvHg (parents_cmd repo blamedRev) (Ok (nodes_output nodes)) :: h).
Proof.
  intros Hnodes Hout. unfold blamed_parents.
  unfold mbind, M_bind, bind, run_hg. rewrite !Hout. cbn [mret M_ret ret].
  by rewrite split_nodes_output.
Qed.

(** X22. A blamed revision with one parent is no merge:
    [checkBlameParents] returns after [hg parent], with nothing asked of
    the evaluator and nothing printed.  A revision for which
    [hg parent] prints nothing has no parent to contradict it, and is
    explained as a merge. *)
Theorem checkBlameParents_one_or_no_parent (env : Env)
    (repo blamedRev blamed : string) (labels : gmap PyVal Label)
    (start end_ : string) (h : History) :
  (∀ p : string,
     mem_char "," p = false →
     hg env h (parents_cmd repo blamedRev) = Ok (nodes_output [p]) →
     checkBlameParents env repo blamedRev blamed labels start end_ h
     = (Ok None, EvHg (parents_cmd repo blamedRev) (Ok (nodes_output [p])) :: h))
  ∧ (hg env h (parents_cmd repo blamedRev) = Ok "" →
     checkBlameParents env repo blamedRev blamed labels start end_ h
     = (Ok (Some {| bisectLied := false; missedCommonAncestor := false;
                    vlabels := labels |}),
        (merge_explanation ++ [EvHg (parents_cmd repo blamedRev) (Ok "")] ++ h)%list)).
Proof.
  split.
  - intros p Hp Hout. unfold checkBlameParents.
    rewrite (bind_Ok _ _ _ _ _ (blamed_parents_nodes env repo blamedRev h [p]
                                   (Forall_cons_2 _ _ _ Hp (Forall_nil_2 _)) Hout)).
    reflexivity.
  - intros Hout. unfold checkBlameParents.
    rewrite (bind_Ok _ _ _ _ _ (blamed_parents_nodes env repo blamedRev h []
                                   (Forall_nil_2 _) Hout)).
    reflexivity.
Qed.

Lemma checkBlameParents_one_or_no_parent_witness :
  checkBlameParents (Examples.env_reply "p1,") "repo" "m" "bad" ∅ "s" "e" []
  = (Ok None, [EvHg (parents_cmd "repo" "m") (Ok "p1,")])
  ∧ checkBlameParents (Examples.env_reply "") "repo" "m" "bad" ∅ "s" "e" []
    = (Ok (Some {| bisectLied := false; missedCommonAncestor := false; vlabels := ∅ |}),
       (merge_explanation ++ [EvHg (parents_cmd "repo" "m") (Ok "")])%list).
Proof.
  split.
  - apply (proj1 (checkBlameParents_one_or_no_parent (Examples.env_reply "p1,")
                    "repo" "m" "bad" ∅ "s" "e" []) "p1"); reflexivity.
  - apply (proj2 (checkBlameParents_one_or_no_parent (Examples.env_reply "")
                    "repo" "m" "bad" ∅ "s" "e" [])); reflexivity.
Defined.
Section ParentLabels.
Variables (env : Env) (repo blamed start end_ : string).

(** After the loop every parent has a label, and a key that has a
    label had one before or is a parent. *)
Lemma check_parents_labels ps v h v' h' :
  check_parents env repo blamed start end_ ps v h = (Ok v', h') →
  (∀ p, p ∈ ps → is_Some (vlabels v' !! Some p))
  ∧ (∀ k, is_Some (vlabels v' !! k) →
          is_Some (vlabels v !! k) ∨ ∃ p, p ∈ ps ∧ k = Some p).
Proof.
  revert v h. induction ps as [|p ps IH]; intros v h; simpl.
  - intros [= <- <-]. split; [by intros p Hp%elem_of_nil|]. intros k Hk. by left.
  - intros Hrun. apply bind_Ok_inv in Hrun as (v2 & h2 & Hstep & Hrest).
    destruct (IH _ _ Hrest) as [Hall Honly].
    apply check_parent_inv in Hstep as (v1 & h1 & label & He & Hlook & Hl & _ & _).
    split.
    + intros q [->|Hq]%elem_of_cons; [|by apply Hall].
      exists label. eapply check_parents_mono; [done|]. by rewrite Hl.
    + intros k Hk. destruct (Honly k Hk) as [Hk2|(q & Hq & ->)].
      2:{ right. exists q. split; [by right|done]. }
      rewrite Hl in Hk2.
      destruct (ensure_tested_inv _ _ _ _ _ _ _ _ _ He) as [_ Hcase].
      destruct (vlabels v !! Some p) as [l0|] eqn:Hp.
      * subst v1. by left.
      * destruct Hcase as [[label' Hins] _]. rewrite Hins in Hk2.
        destruct (decide (k = Some p)) as [->|Hne].
        -- right. exists p. split; [left|done].
        -- left. by rewrite lookup_insert_ne in Hk2.
Qed.
End ParentLabels.

(** X23. The dictionary of labels only grows, and only by parents:
    when [checkBlameParents] has gone through the parents of a merge,
    every label there was is still there, every parent has a label,
    and every revision that has a label had one before or is a
    parent. *)
Theorem checkBlameParents_labels_grow (env : Env) (repo blamedRev blamed : string)
    (labels : gmap PyVal Label) (start end_ : string) (h : History)
    (out : string) (v : Verdict) (h' : History) :
  hg env h (parents_cmd repo blamedRev) = Ok out →
  checkBlameParents env repo blamedRev blamed labels start end_ h = (Ok (Some v), h') →
  let parents := Py.but_last (Py.split "," out) in
  (∀ k l, labels !! k = Some l → vlabels v !! k = Some l)
  ∧ (∀ p, p ∈ parents → is_Some (vlabels v !! Some p))
  ∧ (∀ k, is_Some (vlabels v !! k) →
          is_Some (labels !! k) ∨ ∃ p, p ∈ parents ∧ k = Some p).
Proof.
  intros Hout Hrun parents. unfold checkBlameParents in Hrun.
  apply bind_Ok_inv in Hrun as (ps & h1 & Hparents & Hrun).
  unfold blamed_parents, mbind, M_bind, bind, run_hg in Hparents.
  rewrite Hout in Hparents. injection Hparents as <- <-. fold parents in Hrun.
  destruct (length parents =? 1)%nat; [done|].
  apply bind_Ok_inv in Hrun as (v1 & h2 & Hloop & Hrun).
  apply bind_Ok_inv in Hrun as (? & ? & _ & [= <- <-]).
  destruct (check_parents_labels _ _ _ _ _ _ _ _ _ _ Hloop) as [Hall Honly].
  split_and!; [|done..].
  intros k l Hk. by eapply check_parents_mono.
Qed.

Lemma checkBlameParents_labels_grow_witness :
  ∃ v h',
    checkBlameParents Examples.env_merge "repo" "m" "bad" ∅ "s" "e" [] = (Ok (Some v), h')
    ∧ is_Some (vlabels v !! Some "p1") ∧ is_Some (vlabels v !! Some "p2").
Proof.
  destruct (checkBlameParents Examples.env_merge "repo" "m" "bad" ∅ "s" "e" [])
    as [[[v|]|e] h'] eqn:Hrun; [|vm_compute in Hrun; discriminate Hrun..].
  exists v, h'. split; [reflexivity|].
  destruct (checkBlameParents_labels_grow Examples.env_merge "repo" "m" "bad" ∅
              "s" "e" [] "p1,p2," v h' eq_refl Hrun) as (_ & Hall & _).
  split; apply Hall.
  - apply list_elem_of_In. left. reflexivity.
  - apply list_elem_of_In. right. left. reflexivity.
Defined.
Section TestedParents.
Variables (env : Env) (repo blamed start end_ : string).

Lemma emits_print_only text : emits is_print (print text).
Proof. by apply emits_emit. Qed.

Lemma judge_parent_prints p v : emits is_print (judge_parent blamed p v).
Proof.
  unfold judge_parent. destruct (vlabels v !! Some p) as [label|].
  2:{ apply emits_raise. }
  destruct (String.eqb label.1 "skip").
  { apply emits_bind; [apply emits_print_only|intros; apply emits_ret]. }
  destruct (String.eqb label.1 blamed).
  { apply emits_bind; [apply emits_print_only|intros; apply emits_ret]. }
  apply emits_bind.
  - unfold opposite_label. repeat case_match; first [apply emits_ret|apply emits_raise].
  - intros opp. apply emits_bind; [|intros; apply emits_ret].
    unfold assert. case_match; [apply emits_ret|apply emits_raise].
Qed.

(** Judging a parent changes neither the dictionary nor
    [missedCommonAncestor]. *)
Lemma judge_parent_keeps p v h v' h' :
  judge_parent blamed p v h = (Ok v', h') →
  vlabels v' = vlabels v ∧ missedCommonAncestor v' = missedCommonAncestor v.
Proof.
  intros Hrun. destruct (vlabels v !! Some p) as [label|] eqn:Hlook.
  - by destruct (judge_parent_inv _ _ _ _ _ _ _ Hlook Hrun) as (? & ? & _).
  - unfold judge_parent in Hrun. by rewrite Hlook in Hrun.
Qed.

Lemma ensure_tested_labelled p v h :
  is_Some (vlabels v !! Some p) →
  ensure_tested env repo start end_ p v h = (Ok v, h).
Proof. intros [label Hlook]. unfold ensure_tested. by rewrite Hlook. Qed.

Lemma check_parent_labelled p v h :
  is_Some (vlabels v !! Some p) →
  check_parent env repo blamed start end_ p v h = judge_parent blamed p v h.
Proof.
  intros Hp. unfold check_parent.
  by rewrite (bind_Ok _ _ _ _ _ (ensure_tested_labelled p v h Hp)).
Qed.

(** The loop over parents that all have a label prints and does
    nothing else. *)
Lemma check_parents_labelled ps v h r h' :
  (∀ p, p ∈ ps → is_Some (vlabels v !! Some p)) →
  check_parents env repo blamed start end_ ps v h = (r, h') →
  (∃ evs, h' = (evs ++ h)%list ∧ Forall is_print evs)
  ∧ ∀ v', r = Ok v' →
      vlabels v' = vlabels v ∧ missedCommonAncestor v' = missedCommonAncestor v.
Proof.
  revert v h. induction ps as [|p ps IH]; intros v h Hall; simpl.
  - intros [= <- <-]. split; [by exists []|]. by intros v' [= <-].
  - unfold mbind at 1, M_bind at 1, bind at 1.
    rewrite (check_parent_labelled p v h (Hall p (list_elem_of_here _ _))).
    destruct (judge_parent blamed p v h) as [[v1|e] h1] eqn:Hjudge.
    + destruct (judge_parent_prints _ _ _ _ _ Hjudge) as (evs1 & -> & Hevs1).
      destruct (judge_parent_keeps _ _ _ _ _ Hjudge) as [Hl Hm].
      intros Hrest. apply IH in Hrest as [(evs2 & -> & Hevs2) Hkeep].
      2:{ intros q Hq. rewrite Hl. apply Hall. by right. }
      split.
      * exists (evs2 ++ evs1)%list. split; [by rewrite app_assoc|by apply Forall_app].
      * intros v' Hv'. destruct (Hkeep v' Hv') as [-> ->]. done.
    + intros [= <- <-]. split; [|done]. by eapply judge_parent_prints.
Qed.

Lemma explain_prints blamedRev parents v :
  missedCommonAncestor v = false → emits is_print (explain env repo blamedRev parents v).
Proof.
  intros Hmissed. unfold explain. rewrite Hmissed.
  destruct (bisectLied v);
    repeat first [apply emits_print_only | apply emits_ret | apply emits_bind; [|intros]].
Qed.
End TestedParents.

(** X24. Parents that have a label already are not tested again: when
    every parent of the blamed revision has a label,
    [checkBlameParents] runs [hg parent] and then only prints, whether
    it returns or raises; it calls neither the evaluator nor another
    subprocess, and leaves the dictionary and [missedCommonAncestor] as
    they were. *)
Theorem checkBlameParents_tested_parents (env : Env) (repo blamedRev blamed : string)
    (labels : gmap PyVal Label) (start end_ : string) (h : History) (out : string) :
  hg env h (parents_cmd repo blamedRev) = Ok out →
  (∀ p, p ∈ Py.but_last (Py.split "," out) → is_Some (labels !! Some p)) →
  let run := checkBlameParents env repo blamedRev blamed labels start end_ h in
  (∃ evs, run.2 = (evs ++ EvHg (parents_cmd repo blamedRev) (Ok out) :: h)%list
          ∧ Forall is_print evs)
  ∧ ∀ v, run.1 = Ok (Some v) → vlabels v = labels ∧ missedCommonAncestor v = false.
Proof.
  intros Hout Hall run. subst run. unfold checkBlameParents.
  assert (blamed_parents env repo blamedRev h
          = (Ok (Py.but_last (Py.split "," out)),
             EvHg (parents_cmd repo blamedRev) (Ok out) :: h)) as Hparents.
  { unfold blamed_parents, mbind, M_bind, bind, run_hg. by rewrite !Hout. }
  rewrite (bind_Ok _ _ _ _ _ Hparents).
  set (parents := Py.but_last (Py.split "," out)) in *.
  set (h1 := EvHg (parents_cmd repo blamedRev) (Ok out) :: h).
  destruct (length parents =? 1)%nat.
  { split; [by exists []|done]. }
  set (v0 := {| bisectLied := false; missedCommonAncestor := false; vlabels := labels |}).
  destruct (check_parents env repo blamed start end_ parents v0 h1) as [[v1|e] h2] eqn:Hloop.
  2:{ rewrite (bind_Raised _ _ _ _ _ Hloop). simpl. split; [|done].
      by destruct (check_parents_labelled env repo blamed start end_ parents v0 h1 _ _ Hall Hloop). }
  rewrite (bind_Ok _ _ _ _ _ Hloop).
  destruct (check_parents_labelled env repo blamed start end_ parents v0 h1 _ _ Hall Hloop)
    as [(evs1 & -> & Hevs1) Hkeep].
  destruct (Hkeep v1 eq_refl) as [Hl Hm]. simpl in Hl, Hm.
  destruct (explain env repo blamedRev parents v1 (evs1 ++ h1)%list) as [[[]|e] h3] eqn:Hexplain.
  - rewrite (bind_Ok _ _ _ _ _ Hexplain).
    destruct (explain_prints env repo blamedRev parents v1 Hm _ _ _ Hexplain)
      as (evs2 & -> & Hevs2).
    simpl. split.
    + exists (evs2 ++ evs1)%list. split; [by rewrite app_assoc|by apply Forall_app].
    + by intros v [= <-].
  - rewrite (bind_Raised _ _ _ _ _ Hexplain).
    destruct (explain_prints env repo blamedRev parents v1 Hm _ _ _ Hexplain)
      as (evs2 & -> & Hevs2).
    simpl. split; [|done].
    exists (evs2 ++ evs1)%list. split; [by rewrite app_assoc|by apply Forall_app].
Qed.

Lemma checkBlameParents_tested_parents_witness :
  ∃ v,
    (checkBlameParents Examples.env_merge "repo" "m" "bad"
       Examples.tested_parents "s" "e" []).1 = Ok (Some v)
    ∧ vlabels v = Examples.tested_parents ∧ missedCommonAncestor v = false.
Proof.
  destruct (checkBlameParents Examples.env_merge "repo" "m" "bad"
              Examples.tested_parents "s" "e" []) as [[[v|]|e] h'] eqn:Hrun;
    [|vm_compute in Hrun; discriminate Hrun..].
  exists v. split; [reflexivity|].
  pose proof (checkBlameParents_tested_parents Examples.env_merge "repo" "m" "bad"
                Examples.tested_parents "s" "e" [] "p1,p2," eq_refl) as Htested.
  rewrite Hrun in Htested. apply Htested; [|reflexivity].
  intros p Hp. apply list_elem_of_In in Hp.
  destruct Hp as [<-|[<-|[]]]; by eexists.
Defined.
Section UnknownLabels.
Variables (env : Env) (repo blamed start end_ : string).
Hypothesis blamed_ok : blamed = "good" ∨ blamed = "bad".

(** With a blamed label that is [good] or [bad], judging a parent
    returns or fails its assertion, and it fails for a label that is
    none of [good], [bad] and [skip]. *)
Lemma judge_parent_outcome p v h label :
  vlabels v !! Some p = Some label →
  (wf_label label.1 ∨ judge_parent blamed p v h = (Raised AssertionError, h))
  ∧ ((∃ v' h', judge_parent blamed p v h = (Ok v', h') ∧ vlabels v' = vlabels v)
     ∨ judge_parent blamed p v h = (Raised AssertionError, h)).
Proof.
  intros Hlook. unfold judge_parent, wf_label. rewrite Hlook.
  destruct (String.eqb_spec label.1 "skip") as [Hskip|Hskip].
  { split; [by left; right; right|]. left. by eexists _, _. }
  destruct (String.eqb_spec label.1 blamed) as [Hsame|Hsame].
  { split; [left; rewrite Hsame; by destruct blamed_ok; [left|right; left]|].
    left. by eexists _, _. }
  destruct blamed_ok as [->| ->]; unfold opposite_label; simpl String.eqb;
    unfold mbind, M_bind, bind, mret, M_ret, ret, assert, raise.
  - destruct (String.eqb_spec label.1 "bad") as [Hbad|Hbad].
    + split; [by left; right; left|]. left. by eexists _, _.
    + split; by right.
  - destruct (String.eqb_spec label.1 "good") as [Hgood|Hgood].
    + split; [by left; left|]. left. by eexists _, _.
    + split; by right.
Qed.

Lemma check_parents_unknown ps v h p label :
  (∀ q, q ∈ ps → is_Some (vlabels v !! Some q)) →
  p ∈ ps → vlabels v !! Some p = Some label → ¬ wf_label label.1 →
  (check_parents env repo blamed start end_ ps v h).1 = Raised AssertionError.
Proof.
  revert v h. induction ps as [|q ps IH]; intros v h Hall Hin Hlook Hbad.
  { by apply elem_of_nil in Hin. }
  simpl. unfold mbind at 1, M_bind at 1, bind at 1.
  rewrite (check_parent_labelled env repo blamed start end_ q v h
             (Hall q (list_elem_of_here _ _))).
  destruct (Hall q (list_elem_of_here _ _)) as [label_q Hq].
  destruct (judge_parent_outcome q v h label_q Hq)
    as [Hknown [(v' & h' & Hok & Hl)| ->]]; [rewrite Hok|done].
  apply elem_of_cons in Hin as [->|Hin].
  - destruct Hknown as [Hwf|Hraise].
    + rewrite Hlook in Hq. by injection Hq as <-.
    + rewrite Hok in Hraise. discriminate Hraise.
  - apply IH; [|done|by rewrite Hl|done].
    intros r Hr. rewrite Hl. apply Hall. by right.
Qed.
End UnknownLabels.

(** X25. A parent labelled with something other than [good], [bad]
    and [skip] stops [checkBlameParents]: when the parents of a merge
    all have labels and one of these labels is none of the three, the
    call raises [AssertionError]. *)
Theorem checkBlameParents_unknown_label (env : Env) (repo blamedRev blamed : string)
    (labels : gmap PyVal Label) (start end_ : string) (h : History)
    (out p : string) (label : Label) :
  blamed = "good" ∨ blamed = "bad" →
  hg env h (parents_cmd repo blamedRev) = Ok out →
  length (Py.but_last (Py.split "," out)) ≠ 1%nat →
  (∀ q, q ∈ Py.but_last (Py.split "," out) → is_Some (labels !! Some q)) →
  p ∈ Py.but_last (Py.split "," out) →
  labels !! Some p = Some label → ¬ wf_label label.1 →
  (checkBlameParents env repo blamedRev blamed labels start end_ h).1
  = Raised AssertionError.
Proof.
  intros Hblamed Hout Hlen Hall Hin Hlook Hbad. unfold checkBlameParents.
  assert (blamed_parents env repo blamedRev h
          = (Ok (Py.but_last (Py.split "," out)),
             EvHg (parents_cmd repo blamedRev) (Ok out) :: h)) as Hparents.
  { unfold blamed_parents, mbind, M_bind, bind, run_hg. by rewrite !Hout. }
  rewrite (bind_Ok _ _ _ _ _ Hparents).
  apply Nat.eqb_neq in Hlen. rewrite Hlen.
  pose proof (check_parents_unknown env repo blamed start end_ Hblamed _
                {| bisectLied := false; missedCommonAncestor := false; vlabels := labels |}
                (EvHg (parents_cmd repo blamedRev) (Ok out) :: h) p label
                Hall Hin Hlook Hbad) as Hloop.
  destruct (check_parents _ _ _ _ _ _ _ _) as [[v|e] h1] eqn:Hrun; [done|].
  rewrite (bind_Raised _ _ _ _ _ Hrun). by injection Hloop as ->.
Qed.

Lemma checkBlameParents_unknown_label_witness :
  (checkBlameParents Examples.env_merge "repo" "m" "bad"
     {[ Some "p1" := ("good", ""); Some "p2" := ("maybe", "") ]} "s" "e" []).1
  = Raised AssertionError.
Proof.
  apply (checkBlameParents_unknown_label Examples.env_merge "repo" "m" "bad"
           {[ Some "p1" := ("good", ""); Some "p2" := ("maybe", "") ]} "s" "e" []
           "p1,p2," "p2" ("maybe", "")).
  - by right.
  - reflexivity.
  - discriminate.
  - intros q Hq. apply list_elem_of_In in Hq.
    destruct Hq as [<-|[<-|[]]]; by eexists.
  - apply list_elem_of_In. right. left. reflexivity.
  - reflexivity.
  - intros [H|[H|H]]; discriminate H.
Defined.

(** X26. An untested parent is announced as the opposite of the blamed
    revision before its label is compared: when the evaluator gives such
    a parent the label of the blamed revision, the line [As expected,
    the parent's label is the opposite of the blamed rev's label.] is
    printed all the same, the line [Bisect lied to us!] follows it, and
    [bisectLied] is set. *)
Theorem untested_parent_is_announced_as_expected (env : Env)
    (repo blamed start end_ p : string) (v : Verdict) (h : History)
    (v' : Verdict) (h' : History) (reason : string) :
  blamed ≠ "skip" →
  vlabels v !! Some p = None →
  check_parent env repo blamed start end_ p v h = (Ok v', h') →
  vlabels v' !! Some p = Some (blamed, reason) →
  bisectLied v' = true
  ∧ ∃ evs,
      h' = EvPrint ("Bisect lied to us! Parent rev " +:+ p +:+ " was also " +:+
                    blamed +:+ "!")
           :: EvPrint "As expected, the parent's label is the opposite of the blamed rev's label."
           :: EvPrint (blamed +:+ " (" +:+ reason +:+ ") ")
           :: EvEvaluator (Some p) (Ok (blamed, reason))
           :: evs.
Proof.
  intros Hblamed Hnone Hrun Hfinal. unfold check_parent in Hrun.
  apply bind_Ok_inv in Hrun as (v1 & h1 & Hensure & Hjudge).
  unfold ensure_tested in Hensure. rewrite Hnone in Hensure.
  apply bind_Ok_inv in Hensure as (? & ? & _ & Hensure).
  apply bind_Ok_inv in Hensure as (? & ? & _ & Hensure).
  apply bind_Ok_inv in Hensure as (? & ? & _ & Hensure).
  apply bind_Ok_inv in Hensure as (? & ? & _ & Hensure).
  apply bind_Ok_inv in Hensure as (missed & h2 & _ & Hensure).
  apply bind_Ok_inv in Hensure as (label & h3 & Heval & Hensure).
  apply bind_Ok_inv in Hensure as (? & ? & [= <- <-] & Hensure).
  apply bind_Ok_inv in Hensure as (? & ? & [= <- <-] & [= <- <-]).
  unfold call_evaluator in Heval. cbv zeta in Heval.
  injection Heval as Heval <-.
  assert (vlabels v' !! Some p = Some label) as Hlabel.
  { unfold judge_parent in Hjudge. simpl in Hjudge.
    rewrite lookup_insert_eq in Hjudge.
    destruct (String.eqb label.1 "skip").
    { apply bind_Ok_inv in Hjudge as (? & ? & _ & [= <- <-]). simpl.
      by rewrite lookup_insert_eq. }
    destruct (String.eqb label.1 blamed).
    { apply bind_Ok_inv in Hjudge as (? & ? & _ & [= <- <-]). simpl.
      by rewrite lookup_insert_eq. }
    apply bind_Ok_inv in Hjudge as (? & ? & _ & Hjudge).
    apply bind_Ok_inv in Hjudge as (? & ? & _ & [= <- <-]). simpl.
    by rewrite lookup_insert_eq. }
  rewrite Hfinal in Hlabel. injection Hlabel as <-.
  unfold judge_parent in Hjudge. simpl in Hjudge.
  rewrite lookup_insert_eq in Hjudge. simpl in Hjudge.
  apply String.eqb_neq in Hblamed. rewrite Hblamed, String.eqb_refl in Hjudge.
  injection Hjudge as <- <-. simpl. split; [done|].
  rewrite Heval. by eexists.
Qed.

Lemma untested_parent_is_announced_as_expected_witness :
  ∃ v' evs,
    check_parent Examples.env_merge "repo" "good" "s" "e" "p1"
      {| bisectLied := false; missedCommonAncestor := false; vlabels := ∅ |} []
    = (Ok v',
       EvPrint "Bisect lied to us! Parent rev p1 was also good!"
       :: EvPrint "As expected, the parent's label is the opposite of the blamed rev's label."
       :: EvPrint "good () "
       :: EvEvaluator (Some "p1") (Ok ("good", ""))
       :: evs)
    ∧ bisectLied v' = true.
Proof.
  destruct (check_parent Examples.env_merge "repo" "good" "s" "e" "p1"
              {| bisectLied := false; missedCommonAncestor := false; vlabels := ∅ |} [])
    as [[v'|e] h'] eqn:Hrun; [|vm_compute in Hrun; discriminate Hrun].
  assert (vlabels v' !! Some "p1" = Some ("good", "")) as Hlabel.
  { vm_compute in Hrun. injection Hrun as <- _. reflexivity. }
  destruct (untested_parent_is_announced_as_expected Examples.env_merge "repo" "good"
              "s" "e" "p1"
              {| bisectLied := false; missedCommonAncestor := false; vlabels := ∅ |}
              [] v' h' "" ltac:(discriminate) eq_refl Hrun Hlabel)
    as [Hlied [evs ->]].
  by exists v', evs.
Defined.

(** ** Removing the compiled files: [destroyPyc] *)

Lemma filter_all_true {A} (f : A → bool) l :
  forallb f l = true → List.filter f l = l.
Proof.
  induction l as [|x l IH]; simpl; [done|].
  intros [Hx Hl]%andb_true_iff. by rewrite Hx, IH.
Qed.

(** A directory without [.pyc] files outside [.hg] is left as it is. *)
Lemma destroyPyc_walk_fixed : ∀ d, pyc_free d = true → hgCmds.destroyPyc_walk d = d.
Proof.
  fix IH 1. intros [files dirs]. simpl.
  intros [Hfiles Hdirs]%andb_true_iff. f_equal.
  - by apply filter_all_true.
  - induction dirs as [|[name sub] dirs IHdirs]; simpl in *; [done|].
    apply andb_true_iff in Hdirs as [Hsub Hdirs].
    rewrite IHdirs by done. f_equal.
    destruct (String.eqb name ".hg"); [done|]. simpl in Hsub. by rewrite IH.
Qed.

(** X27. The walk of [destroyPyc] removes the [.pyc] files and nothing
    else: afterwards no file outside the [.hg] directories ends with
    [.pyc], a directory that had no such file is unchanged, with its
    [.hg] directories whatever they hold, and a second walk changes
    nothing. *)
Theorem destroyPyc_removes_only_pyc (d : hgCmds.Dir) :
  pyc_free (hgCmds.destroyPyc_walk d) = true
  ∧ (pyc_free d = true → hgCmds.destroyPyc_walk d = d)
  ∧ hgCmds.destroyPyc_walk (hgCmds.destroyPyc_walk d) = hgCmds.destroyPyc_walk d.
Proof.
  split_and!.
  - apply destroyPyc_walk_pyc_free.
  - apply destroyPyc_walk_fixed.
  - apply destroyPyc_walk_fixed, destroyPyc_walk_pyc_free.
Qed.

Lemma destroyPyc_removes_only_pyc_witness :
  hgCmds.destroyPyc_walk
    (hgCmds.MkDir ["a.py"] [(".hg", hgCmds.MkDir ["store.pyc"] []);
                            ("js", hgCmds.MkDir ["b.py"; "pyc"] [])])
  = hgCmds.MkDir ["a.py"] [(".hg", hgCmds.MkDir ["store.pyc"] []);
                           ("js", hgCmds.MkDir ["b.py"; "pyc"] [])].
Proof.
  apply (proj1 (proj2 (destroyPyc_removes_only_pyc
                         (hgCmds.MkDir ["a.py"]
                            [(".hg", hgCmds.MkDir ["store.pyc"] []);
                             ("js", hgCmds.MkDir ["b.py"; "pyc"] [])])))).
  reflexivity.
Defined.
(** ** The name of a repository: [getRepoNameFromHgrc] *)

Lemma components_app a b :
  List.filter non_empty (Py.split "/" (a +:+ String "/" b))
  = (List.filter non_empty (Py.split "/" a) ++ List.filter non_empty (Py.split "/" b))%list.
Proof. by rewrite split_app_sep_general, List.filter_app. Qed.

Lemma components_only_slashes s :
  only_slashes s = true ↔ List.filter non_empty (Py.split "/" s) = [].
Proof.
  unfold only_slashes. induction s as [|c s IH]; simpl; [done|].
  destruct (Ascii.eqb c "/"); simpl; [done|].
  split; [done|]. pose proof (split_not_nil "/" s).
  by destruct (Py.split "/" s).
Qed.

Lemma components_name name trail :
  name ≠ "" → mem_char "/" name = false → only_slashes trail = true →
  List.filter non_empty (Py.split "/" (name +:+ trail)) = [name].
Proof.
  intros Hne Hname Htrail. destruct trail as [|c trail].
  - replace (name +:+ "") with name by (clear; induction name; simpl; congruence).
    rewrite split_sep_free_string by done. simpl. by destruct name.
  - simpl in Htrail. apply andb_true_iff in Htrail as [->%Ascii.eqb_eq Htrail].
    rewrite components_app, (split_sep_free_string _ _ Hname).
    apply components_only_slashes in Htrail as ->. simpl. by destruct name.
Qed.

Lemma last_item_snoc l x h : hgCmds.last_item (l ++ [x]) h = (Ok x, h).
Proof.
  destruct l as [|y l]; [done|]. simpl. unfold ret. by rewrite last_last.
Qed.

Lemma last_item_elem l x h h' :
  hgCmds.last_item l h = (Ok x, h') → x ∈ l ∧ h' = h.
Proof.
  destruct l as [|y l]; [done|]. simpl. intros [= <- <-]. split; [|done].
  induction l as [|z l IH]; [by left|].
  destruct l as [|w l]; [right; by left|].
  change (List.last (z :: w :: l) y) with (List.last (w :: l) y).
  apply elem_of_cons in IH as [->|IH]; [by left|by right; right].
Qed.

Lemma getRepoNameFromHgrc_components fs repoDir default h :
  hgCmds.isfile fs (hgrc_path repoDir) = true →
  hgCmds.config_get fs (hgrc_path repoDir) "paths" "default" = Ok default →
  hgCmds.getRepoNameFromHgrc fs repoDir h
  = hgCmds.last_item (List.filter non_empty (Py.split "/" default)) h.
Proof.
  intros Hfile Hget. unfold hgCmds.getRepoNameFromHgrc. cbv zeta.
  fold (hgrc_path repoDir). rewrite Hfile.
  unfold mbind, M_bind, bind, assert, ret, hgCmds.call_config_get. by rewrite Hget.
Qed.

(** X28. [getRepoNameFromHgrc] returns the last component of the
    default path of the repository, with or without slashes behind it:
    for a default path [name], [name/] or [.../name/], where [name] is
    not empty and has no slash, it returns [name]. *)
Theorem getRepoNameFromHgrc_last_component (fs : hgCmds.Files) (repoDir : string)
    (h : History) (pre name trail : string) :
  hgCmds.isfile fs (hgrc_path repoDir) = true →
  name ≠ "" → mem_char "/" name = false → only_slashes trail = true →
  (hgCmds.config_get fs (hgrc_path repoDir) "paths" "default" = Ok (name +:+ trail) →
   hgCmds.getRepoNameFromHgrc fs repoDir h = (Ok name, h))
  ∧ (hgCmds.config_get fs (hgrc_path repoDir) "paths" "default"
     = Ok (pre +:+ String "/" (name +:+ trail)) →
     hgCmds.getRepoNameFromHgrc fs repoDir h = (Ok name, h)).
Proof.
  intros Hfile Hne Hname Htrail. split; intros Hget.
  - rewrite (getRepoNameFromHgrc_components _ _ _ _ Hfile Hget).
    rewrite components_name by done. reflexivity.
  - rewrite (getRepoNameFromHgrc_components _ _ _ _ Hfile Hget).
    rewrite components_app, components_name by done. apply last_item_snoc.
Qed.

Lemma getRepoNameFromHgrc_last_component_witness :
  hgCmds.getRepoNameFromHgrc
    (files_with_default "https://hg.mozilla.org/mozilla-central/") "repo" []
  = (Ok "mozilla-central", []).
Proof.
  apply (proj2 (getRepoNameFromHgrc_last_component
                  (files_with_default "https://hg.mozilla.org/mozilla-central/")
                  "repo" [] "https://hg.mozilla.org" "mozilla-central" "/"
                  eq_refl ltac:(discriminate) eq_refl eq_refl)).
  reflexivity.
Defined.

(** X29. [getRepoNameFromHgrc] fails without a name to return: it
    raises [AssertionError] when the [hgrc] file is missing, and with
    the file it raises [IndexError] exactly when the default path is
    empty or made of slashes only.  A name that it returns is not empty
    and has no slash. *)
Theorem getRepoNameFromHgrc_errors (fs : hgCmds.Files) (repoDir : string) (h : History) :
  (hgCmds.isfile fs (hgrc_path repoDir) = false →
   hgCmds.getRepoNameFromHgrc fs repoDir h = (Raised AssertionError, h))
  ∧ (∀ default : string,
       hgCmds.isfile fs (hgrc_path repoDir) = true →
       hgCmds.config_get fs (hgrc_path repoDir) "paths" "default" = Ok default →
       (hgCmds.getRepoNameFromHgrc fs repoDir h = (Raised IndexError, h)
        ↔ only_slashes default = true)
       ∧ ∀ name h',
           hgCmds.getRepoNameFromHgrc fs repoDir h = (Ok name, h') →
           name ≠ "" ∧ mem_char "/" name = false ∧ h' = h).
Proof.
  split.
  - intros Hfile. unfold hgCmds.getRepoNameFromHgrc. cbv zeta.
    fold (hgrc_path repoDir). by rewrite Hfile.
  - intros default Hfile Hget.
    rewrite (getRepoNameFromHgrc_components _ _ _ _ Hfile Hget). split.
    + rewrite components_only_slashes.
      destruct (List.filter _ _) as [|x l]; [done|]. by split.
    + intros name h' Hrun. apply last_item_elem in Hrun as [Hin ->].
      apply list_elem_of_In, filter_In in Hin as [Hin Hne].
      split_and!; [by destruct name| |done].
      pose proof (split_sep_free "/" default) as Hfree.
      rewrite Forall_forall in Hfree. apply Hfree. by apply list_elem_of_In.
Qed.

Lemma getRepoNameFromHgrc_errors_witness :
  hgCmds.getRepoNameFromHgrc (files_with_default "//") "repo" [] = (Raised IndexError, []).
Proof.
  apply (proj2 (getRepoNameFromHgrc_errors (files_with_default "//") "repo" [])
           "//" eq_refl eq_refl).
  reflexivity.
Defined.
(** ** Applying a patch: [patchHgRepoUsingMq] *)

Lemma run_hg_Ok env args h out :
  hg env h args = Ok out → run_hg env args h = (Ok out, EvHg args (Ok out) :: h).
Proof. unfold run_hg. by intros ->. Qed.

Lemma run_hg_Raised env args h e :
  hg env h args = Raised e → run_hg env args h = (Raised e, EvHg args (Raised e) :: h).
Proof. unfold run_hg. by intros ->. Qed.

(** The handler of [patchHgRepoUsingMq] when its commands succeed. *)
Lemma patch_handler_runs env workingDir pname format_exc answer h :
  (∀ h args, args ≠ hgCmds.mq_cmd workingDir ["qpush"; pname] →
             ∃ out, hg env h args = Ok out) →
  (∀ h prompt, raw_input env h prompt = answer) →
  ∃ evs,
    (run_hg env (hgCmds.mq_cmd workingDir ["qpop"]) ;;
     run_hg env (hgCmds.mq_cmd workingDir ["qdelete"; pname]) ;;
     print "You may have untracked .rej files in the repository." ;;
     print ("`hg st` output of the repository in " +:+ workingDir +:+ " :") ;;
     run_hg env (hgCmds.mq_cmd workingDir ["st"]) ;;
     hgPurgeAns ← call_raw_input env "Do you want to run `hg purge`? (y/n): ";
     assert (String.eqb (hgCmds.lower hgPurgeAns) "y"
             || String.eqb (hgCmds.lower hgPurgeAns) "n") ;;
     (if String.eqb hgPurgeAns "y" then
        run_hg env (hgCmds.mq_cmd workingDir ["purge"]) ;; ret tt
      else ret tt) ;;
     (raise (Exception format_exc) : M unit)) h
    = (if String.eqb (hgCmds.lower answer) "y" || String.eqb (hgCmds.lower answer) "n"
       then Raised (Exception format_exc) else Raised AssertionError,
       (evs ++ h)%list)
    ∧ (∃ out, EvHg (hgCmds.mq_cmd workingDir ["qpop"]) (Ok out) ∈ evs)
    ∧ (∃ out, EvHg (hgCmds.mq_cmd workingDir ["qdelete"; pname]) (Ok out) ∈ evs)
    ∧ ((∃ out, EvHg (hgCmds.mq_cmd workingDir ["purge"]) out ∈ evs) ↔ answer = "y").
Proof.
  intros Hhg Hanswer.
  destruct (Hhg h (hgCmds.mq_cmd workingDir ["qpop"]) ltac:(discriminate)) as [o1 H1].
  rewrite (bind_Ok _ _ _ _ _ (run_hg_Ok _ _ _ _ H1)).
  set (h1 := EvHg _ (Ok o1) :: h).
  destruct (Hhg h1 (hgCmds.mq_cmd workingDir ["qdelete"; pname]) ltac:(discriminate))
    as [o2 H2].
  rewrite (bind_Ok _ _ _ _ _ (run_hg_Ok _ _ _ _ H2)).
  set (h2 := EvHg _ (Ok o2) :: h1).
  unfold mbind at 1, M_bind at 1, bind at 1. cbn [print emit].
  unfold mbind at 1, M_bind at 1, bind at 1. cbn [print emit].
  set (h4 := EvPrint _ :: EvPrint _ :: h2).
  destruct (Hhg h4 (hgCmds.mq_cmd workingDir ["st"]) ltac:(discriminate)) as [o3 H3].
  rewrite (bind_Ok _ _ _ _ _ (run_hg_Ok _ _ _ _ H3)).
  set (h5 := EvHg _ (Ok o3) :: h4).
  unfold mbind at 1, M_bind at 1, bind at 1, call_raw_input at 1. cbv zeta.
  rewrite !Hanswer.
  set (h6 := EvRawInput _ answer :: h5).
  unfold mbind at 1, M_bind at 1, bind at 1.
  destruct (String.eqb (hgCmds.lower answer) "y" || String.eqb (hgCmds.lower answer) "n")
    eqn:Hlower; cbn [assert ret raise].
  - destruct (String.eqb_spec answer "y") as [->|Hne].
    + destruct (Hhg h6 (hgCmds.mq_cmd workingDir ["purge"]) ltac:(discriminate))
        as [o4 H4].
      unfold mbind at 1, M_bind at 1, bind at 1.
      rewrite (bind_Ok _ _ _ _ _ (run_hg_Ok _ _ _ _ H4)). cbn [ret raise].
      exists [EvHg (hgCmds.mq_cmd workingDir ["purge"]) (Ok o4);
              EvRawInput "Do you want to run `hg purge`? (y/n): " "y";
              EvHg (hgCmds.mq_cmd workingDir ["st"]) (Ok o3);
              EvPrint ("`hg st` output of the repository in " +:+ workingDir +:+ " :");
              EvPrint "You may have untracked .rej files in the repository.";
              EvHg (hgCmds.mq_cmd workingDir ["qdelete"; pname]) (Ok o2);
              EvHg (hgCmds.mq_cmd workingDir ["qpop"]) (Ok o1)].
      split; [reflexivity|]. split_and!.
      * exists o1. repeat (first [by left|right]).
      * exists o2. repeat (first [by left|right]).
      * split; [done|]. intros _. exists (Ok o4). by left.
    + exists [EvRawInput "Do you want to run `hg purge`? (y/n): " answer;
              EvHg (hgCmds.mq_cmd workingDir ["st"]) (Ok o3);
              EvPrint ("`hg st` output of the repository in " +:+ workingDir +:+ " :");
              EvPrint "You may have untracked .rej files in the repository.";
              EvHg (hgCmds.mq_cmd workingDir ["qdelete"; pname]) (Ok o2);
              EvHg (hgCmds.mq_cmd workingDir ["qpop"]) (Ok o1)].
      split; [reflexivity|]. split_and!.
      * exists o1. repeat (first [by left|right]).
      * exists o2. repeat (first [by left|right]).
      * split; [|done]. intros [out Hin].
        repeat (apply elem_of_cons in Hin as [Hin|Hin]; [discriminate Hin|]).
        by apply elem_of_nil in Hin.
  - exists [EvRawInput "Do you want to run `hg purge`? (y/n): " answer;
            EvHg (hgCmds.mq_cmd workingDir ["st"]) (Ok o3);
            EvPrint ("`hg st` output of the repository in " +:+ workingDir +:+ " :");
            EvPrint "You may have untracked .rej files in the repository.";
            EvHg (hgCmds.mq_cmd workingDir ["qdelete"; pname]) (Ok o2);
            EvHg (hgCmds.mq_cmd workingDir ["qpop"]) (Ok o1)].
    split; [reflexivity|]. split_and!.
    * exists o1. repeat (first [by left|right]).
    * exists o2. repeat (first [by left|right]).
    * split.
      -- intros [out Hin].
         repeat (apply elem_of_cons in Hin as [Hin|Hin]; [discriminate Hin|]).
         by apply elem_of_nil in Hin.
      -- intros ->. discriminate Hlower.
Qed.
(** [patchHgRepoUsingMq] once the patch is imported: the [try]
    statement. *)
Lemma patchHgRepoUsingMq_after_import env p workingDir format_exc h imported :
  p ≠ "" →
  hg env h (hgCmds.mq_cmd workingDir ["qimport"; p]) = Ok imported →
  hgCmds.patchHgRepoUsingMq env p workingDir format_exc h
  = match (run_hg env (hgCmds.mq_cmd workingDir ["qpush"; hgCmds.basename p])
           ≫= λ qpushMsg,
                assert (negb (Py.contains " is empty" qpushMsg)) ;;
                log "vdump" "Patch qpush'ed.")
            (EvLog "vdump" "Patch qimport'ed."
             :: EvHg (hgCmds.mq_cmd workingDir ["qimport"; p]) (Ok imported) :: h)
    with
    | (Raised (CalledProcessError _), h') =>
        (run_hg env (hgCmds.mq_cmd workingDir ["qpop"]) ;;
         run_hg env (hgCmds.mq_cmd workingDir ["qdelete"; hgCmds.basename p]) ;;
         print "You may have untracked .rej files in the repository." ;;
         print ("`hg st` output of the repository in " +:+ workingDir +:+ " :") ;;
         run_hg env (hgCmds.mq_cmd workingDir ["st"]) ;;
         hgPurgeAns ← call_raw_input env "Do you want to run `hg purge`? (y/n): ";
         assert (String.eqb (hgCmds.lower hgPurgeAns) "y"
                 || String.eqb (hgCmds.lower hgPurgeAns) "n") ;;
         (if String.eqb hgPurgeAns "y" then
            run_hg env (hgCmds.mq_cmd workingDir ["purge"]) ;; ret tt
          else ret tt) ;;
         (raise (Exception format_exc) : M unit)) h'
    | r => r
    end.
Proof.
  intros Hp Himport. unfold hgCmds.patchHgRepoUsingMq. cbv zeta.
  apply String.eqb_neq in Hp. rewrite Hp. cbn [andb negb assert].
  unfold mbind at 1, M_bind at 1, bind at 1. cbn [ret].
  rewrite (bind_Ok _ _ _ _ _ (run_hg_Ok _ _ _ _ Himport)).
  reflexivity.
Qed.

(** X30. What [patchHgRepoUsingMq] does after [hg qimport].  When
    [hg qpush] prints a message, the call returns, unless the message
    says that the patch is empty: then it raises [AssertionError] and
    leaves the patch imported.  When [hg qpush] fails and the commands
    of the handler succeed, the patch is popped and deleted, [hg purge]
    runs exactly when the answer is [y], and the call never returns: it
    raises [Exception] for an answer that is [y] or [n] in any case,
    and [AssertionError] for any other answer. *)
Theorem patchHgRepoUsingMq_outcomes (env : Env) (p workingDir format_exc : string)
    (h : History) (imported : string) :
  p ≠ "" →
  hg env h (hgCmds.mq_cmd workingDir ["qimport"; p]) = Ok imported →
  let qpush := hgCmds.mq_cmd workingDir ["qpush"; hgCmds.basename p] in
  let h1 := EvLog "vdump" "Patch qimport'ed."
            :: EvHg (hgCmds.mq_cmd workingDir ["qimport"; p]) (Ok imported) :: h in
  let run := hgCmds.patchHgRepoUsingMq env p workingDir format_exc h in
  (∀ msg : string,
     hg env h1 qpush = Ok msg →
     run = if Py.contains " is empty" msg then
             (Raised AssertionError, EvHg qpush (Ok msg) :: h1)
           else (Ok tt, EvLog "vdump" "Patch qpush'ed." :: EvHg qpush (Ok msg) :: h1))
  ∧ (∀ (cmd : list string) (answer : string),
       hg env h1 qpush = Raised (CalledProcessError cmd) →
       (∀ h args, args ≠ qpush → ∃ out, hg env h args = Ok out) →
       (∀ h prompt, raw_input env h prompt = answer) →
       ∃ evs,
         run = (if String.eqb (hgCmds.lower answer) "y"
                   || String.eqb (hgCmds.lower answer) "n"
                then Raised (Exception format_exc) else Raised AssertionError,
                (evs ++ EvHg qpush (Raised (CalledProcessError cmd)) :: h1)%list)
         ∧ (∃ out, EvHg (hgCmds.mq_cmd workingDir ["qpop"]) (Ok out) ∈ evs)
         ∧ (∃ out, EvHg (hgCmds.mq_cmd workingDir ["qdelete"; hgCmds.basename p])
                     (Ok out) ∈ evs)
         ∧ ((∃ out, EvHg (hgCmds.mq_cmd workingDir ["purge"]) out ∈ evs)
            ↔ answer = "y")).
Proof.
  intros Hp Himport qpush h1 run. subst run. split.
  - intros msg Hpush.
    rewrite (patchHgRepoUsingMq_after_import env p workingDir format_exc h imported
               Hp Himport).
    fold qpush h1. rewrite (bind_Ok _ _ _ _ _ (run_hg_Ok _ _ _ _ Hpush)).
    by destruct (Py.contains " is empty" msg).
  - intros cmd answer Hpush Hhg Hanswer.
    rewrite (patchHgRepoUsingMq_after_import env p workingDir format_exc h imported
               Hp Himport).
    fold qpush h1. rewrite (bind_Raised _ _ _ _ _ (run_hg_Raised _ _ _ _ Hpush)).
    apply (patch_handler_runs env workingDir (hgCmds.basename p) format_exc answer
             (EvHg qpush (Raised (CalledProcessError cmd)) :: h1) Hhg Hanswer).
Qed.

Lemma patchHgRepoUsingMq_outcomes_witness :
  ∃ evs,
    hgCmds.patchHgRepoUsingMq (env_qpush_fails "Y") "/tmp/fix.diff" "repo" "Traceback" []
    = (Raised (Exception "Traceback"),
       (evs ++ [EvHg (hgCmds.mq_cmd "repo" ["qpush"; "fix.diff"])
                  (Raised (CalledProcessError (hgCmds.mq_cmd "repo" ["qpush"; "fix.diff"])));
                EvLog "vdump" "Patch qimport'ed.";
                EvHg (hgCmds.mq_cmd "repo" ["qimport"; "/tmp/fix.diff"]) (Ok "")])%list)
    ∧ ¬ ∃ out, EvHg (hgCmds.mq_cmd "repo" ["purge"]) out ∈ evs.
Proof.
  destruct (proj2 (patchHgRepoUsingMq_outcomes (env_qpush_fails "Y") "/tmp/fix.diff"
                     "repo" "Traceback" [] "" ltac:(discriminate) eq_refl)
              (hgCmds.mq_cmd "repo" ["qpush"; "fix.diff"]) "Y" eq_refl)
    as (evs & Hrun & _ & _ & Hpurge).
  - intros h args Hne. exists "". simpl. by rewrite bool_decide_false.
  - reflexivity.
  - exists evs. split; [exact Hrun|]. intros Hin. apply Hpurge in Hin. discriminate Hin.
Defined.
